(** * A shallow embedding of the todo service in [server.js]

    The service keeps a JSON array of todo objects in the file [todos.json],
    appends one line per request to [logs.txt], and answers five HTTP routes.
    This development embeds the source, function by function, and states the
    properties of the repository operations and of the request handler.

    Modelling decisions, all of them conservative:

    - JavaScript values are the inductive type [value]; numbers are the
      integers [Z] from -2^53 to 2^53, each of which a double holds exactly.
      The one sum the program computes, an id plus 1, stays in that range
      and is exact, except that 2^53 + 1 is rounded to 2^53.  Whatever
      leaves the range, and every other language feature the embedding does
      not cover, evaluates to the third completion [Unmodelled]: the
      embedding then says nothing.
    - Strings are byte strings; the bytes of a well-formed UTF-8 text pass
      through [JSON.parse] and [JSON.stringify] unchanged.
    - Asynchronous code is run to completion, one request at a time.
    - [server] is the request listener for a request whose body arrives: it
      runs the listeners of [data] and [end].  The PUT handler also listens
      to [error], for a body that cannot be received: that listener is
      [put_todo_error]. *)

From Stdlib Require Import String Ascii ZArith List Lia Bool.
From Stdlib Require Import DecimalString DecimalZ DecimalPos DecimalN.
From stdpp Require Import base list strings.

Local Open Scope stdpp_scope.

(** * Completions *)

(** An [Error] object, as far as the program looks at it. *)
Record js_error := JsError { name : string; message : string }.

(** The result of evaluating a piece of code: a normal completion, a thrown
    exception (a rejected promise for [async] code), or a construct outside
    the model. *)
Inductive completion (A : Type) : Type :=
| Normal (a : A)
| Throw (e : js_error)
| Unmodelled.
Arguments Normal {A} a.
Arguments Throw {A} e.
Arguments Unmodelled {A}.

Definition cbind {A B} (c : completion A) (k : A -> completion B) : completion B :=
  match c with
  | Normal a => k a
  | Throw e => Throw e
  | Unmodelled => Unmodelled
  end.

Notation "x <~ c ; k" := (cbind c (fun x => k))
  (at level 20, c at level 100, k at level 200, only parsing).
Notation "' p <~ c ; k" := (cbind c (fun x => let 'p := x in k))
  (at level 20, p pattern, c at level 100, k at level 200, only parsing).

Definition TypeError (m : string) : js_error := JsError "TypeError" m.
Definition ReferenceError (m : string) : js_error := JsError "ReferenceError" m.
Definition SyntaxError (m : string) : js_error := JsError "SyntaxError" m.
(** [new Error(message, options)]: [options] only matters when it is an
    object with a [cause] property, and never changes [message]. *)
Definition new_Error (m : string) : js_error := JsError "Error" m.

(** * JavaScript values *)

Unset Elimination Schemes.
Inductive value : Type :=
| JUndefined
| JNull
| JBool (b : bool)
| JNum (n : Z)
| JNaN
| JStr (s : string)
| JArr (l : list value)
| JObj (props : list (string * value)).
Set Elimination Schemes.

(** Induction over values, through the lists of elements and properties *)
Section value_induction.
Variable P : value -> Prop.
Hypothesis Hundefined : P JUndefined.
Hypothesis Hnull : P JNull.
Hypothesis Hbool : forall b, P (JBool b).
Hypothesis Hnum : forall n, P (JNum n).
Hypothesis Hnan : P JNaN.
Hypothesis Hstr : forall s, P (JStr s).
Hypothesis Harr : forall l, Forall P l -> P (JArr l).
Hypothesis Hobj : forall props, Forall (fun kx => P (snd kx)) props -> P (JObj props).

Fixpoint value_ind (v : value) : P v :=
  match v with
  | JUndefined => Hundefined
  | JNull => Hnull
  | JBool b => Hbool b
  | JNum n => Hnum n
  | JNaN => Hnan
  | JStr s => Hstr s
  | JArr l =>
      Harr l ((fix go (l : list value) : Forall P l :=
                 match l with
                 | [] => List.Forall_nil P
                 | x :: r => List.Forall_cons _ x r (value_ind x) (go r)
                 end) l)
  | JObj props =>
      Hobj props
        ((fix go (l : list (string * value)) : Forall (fun kx => P (snd kx)) l :=
            match l with
            | [] => List.Forall_nil _
            | kx :: r => List.Forall_cons _ kx r (value_ind (snd kx)) (go r)
            end) props)
  end.
End value_induction.

(** [Number.MAX_SAFE_INTEGER], which is 2^53 - 1 *)
Definition MAX_SAFE_INTEGER : Z := 9007199254740991.

(** [Number.isSafeInteger], for an integer *)
Definition safe_integer (n : Z) : bool :=
  ((- MAX_SAFE_INTEGER <=? n) && (n <=? MAX_SAFE_INTEGER))%Z.

(** The numbers of the model: the integers from -2^53 to 2^53.  A double
    holds each of them exactly, and so are they read and printed. *)
Definition exact_integer (n : Z) : bool :=
  ((- (MAX_SAFE_INTEGER + 1) <=? n) && (n <=? MAX_SAFE_INTEGER + 1))%Z.

(** ToBoolean *)
Definition truthy (v : value) : bool :=
  match v with
  | JUndefined | JNull | JNaN => false
  | JBool b => b
  | JNum n => negb (n =? 0)%Z
  | JStr s => negb (String.eqb s "")
  | JArr _ | JObj _ => true
  end.

(** [a || b] *)
Definition js_or (a b : value) : value := if truthy a then a else b.

Fixpoint assoc_get (k : string) (props : list (string * value)) : option value :=
  match props with
  | [] => None
  | (k', x) :: rest => if String.eqb k k' then Some x else assoc_get k rest
  end.

(** Own properties are kept in creation order.  Defining a property that
    exists replaces its value in place; a new one goes last. *)
Fixpoint assoc_set (k : string) (x : value) (props : list (string * value))
  : list (string * value) :=
  match props with
  | [] => [(k, x)]
  | (k', x') :: rest =>
      if String.eqb k k' then (k, x) :: rest else (k', x') :: assoc_set k x rest
  end.

(** The double quote character *)
Definition dquote : ascii := "034".

Definition is_digit (c : ascii) : bool :=
  match c with
  | "0" | "1" | "2" | "3" | "4" | "5" | "6" | "7" | "8" | "9" => true
  | _ => false
  end%char.

Fixpoint all_digits (s : string) : bool :=
  match s with
  | EmptyString => true
  | String c s' => is_digit c && all_digits s'
  end.

(** Property names that are array indices ("0", "17") are enumerated first
    by the engine, whatever their creation order.  The model keeps creation
    order only, so it excludes every name made of decimal digits. *)
Definition index_like (k : string) : bool :=
  negb (String.eqb k "") && all_digits k.

Fixpoint distinct (ks : list string) : bool :=
  match ks with
  | [] => true
  | k :: rest => negb (existsb (String.eqb k) rest) && distinct rest
  end.

(** The values of the model that [JSON.parse] can return: no [undefined], no
    NaN, exact integers, and objects whose names are distinct and not index
    names. *)
Fixpoint json_value (v : value) : bool :=
  match v with
  | JUndefined | JNaN => false
  | JNull | JBool _ | JStr _ => true
  | JNum n => exact_integer n
  | JArr l => forallb json_value l
  | JObj props =>
      distinct (map fst props) &&
      forallb (fun kx => negb (index_like (fst kx)) && json_value (snd kx)) props
  end.

Definition member_ok (kx : string * value) : bool :=
  negb (index_like (fst kx)) && json_value (snd kx).

(** [v.k] for a name [k] that no prototype defines (the program reads [id],
    [title] and [completed] only). *)
Definition get_prop (v : value) (k : string) : completion value :=
  match v with
  | JUndefined =>
      Throw (TypeError ("Cannot read properties of undefined (reading '" +:+ k +:+ "')"))
  | JNull =>
      Throw (TypeError ("Cannot read properties of null (reading '" +:+ k +:+ "')"))
  | JObj props => Normal (default JUndefined (assoc_get k props))
  | _ => Normal JUndefined
  end.

(** [v === n] for a number [n] that is not NaN *)
Definition strict_eq_num (v : value) (n : Z) : bool :=
  match v with
  | JNum m => (m =? n)%Z
  | _ => false
  end.

(** Number to string, for integers below 10^21 *)
Definition number_to_string (n : Z) : string :=
  NilZero.string_of_int (Z.to_int n).

(** [v + 1].  The sum of an integer of the model and 1 is exact, but for
    2^53 + 1, which no double holds: it is rounded to the neighbour with the
    even significand, 2^53 itself.  Arrays and objects go through
    ToPrimitive, which is not modelled. *)
Definition js_add_one (v : value) : completion value :=
  let num (n : Z) :=
    if exact_integer n then
      Normal (JNum (if (n =? MAX_SAFE_INTEGER + 1)%Z then n else n + 1))
    else Unmodelled in
  match v with
  | JUndefined | JNaN => Normal JNaN
  | JNull => Normal (JNum 1)
  | JBool b => Normal (JNum (if b then 2 else 1))
  | JNum n => num n
  | JStr s => Normal (JStr (s +:+ "1"))
  | JArr _ | JObj _ => Unmodelled
  end.

(** * JSON *)

Module JSON.

Inductive token : Type :=
| TLBrace | TRBrace | TLBracket | TRBracket | TColon | TComma
| TString (s : string)
| TNumber (n : Z)
| TTrue | TFalse | TNull.

Definition syntax_error : js_error :=
  SyntaxError "Unexpected token in JSON".

(** ** Lexing *)

Definition is_ws (c : ascii) : bool :=
  match c with
  | " " | "009" | "010" | "013" => true
  | _ => false
  end%char.

Definition digit_cons (c : ascii) : option (Decimal.uint -> Decimal.uint) :=
  match c with
  | "0" => Some Decimal.D0 | "1" => Some Decimal.D1 | "2" => Some Decimal.D2
  | "3" => Some Decimal.D3 | "4" => Some Decimal.D4 | "5" => Some Decimal.D5
  | "6" => Some Decimal.D6 | "7" => Some Decimal.D7 | "8" => Some Decimal.D8
  | "9" => Some Decimal.D9
  | _ => None
  end%char.

(** The longest run of decimal digits at the head of [s] *)
Fixpoint lex_digits (s : string) : Decimal.uint * string :=
  match s with
  | EmptyString => (Decimal.Nil, s)
  | String c s' =>
      match digit_cons c with
      | Some D => let (d, rest) := lex_digits s' in (D d, rest)
      | None => (Decimal.Nil, s)
      end
  end.

Definition starts_fraction_or_exponent (s : string) : bool :=
  match s with
  | String c _ =>
      match c with "." | "e" | "E" => true | _ => false end%char
  | EmptyString => false
  end.

(** JSON has no leading zeros: after a first digit 0 no digit follows. *)
Definition leading_zero (d : Decimal.uint) : bool :=
  match d with
  | Decimal.D0 Decimal.Nil => false
  | Decimal.D0 _ => true
  | _ => false
  end.

Definition no_digit (d : Decimal.uint) : bool :=
  match d with
  | Decimal.Nil => true
  | _ => false
  end.

(** The digits of a number literal, after its sign.  Literals with a
    fraction or an exponent, and integers that a double does not hold
    exactly, are outside the model. *)
Definition lex_unsigned (neg : bool) (s : string) : completion (Z * string) :=
  let (d, rest) := lex_digits s in
  if no_digit d || leading_zero d then Throw syntax_error
  else if starts_fraction_or_exponent rest then Unmodelled
  else
    let n := Z.of_uint d in
    let z := if neg then (- n)%Z else n in
    if exact_integer z then Normal (z, rest) else Unmodelled.

Definition lex_number (s : string) : completion (Z * string) :=
  match s with
  | String c s' =>
      if Ascii.eqb c "-" then lex_unsigned true s' else lex_unsigned false s
  | EmptyString => lex_unsigned false s
  end.

(** The value of a hexadecimal digit, from its character code *)
Definition hex_digit (c : ascii) : option N :=
  let code := N_of_ascii c in
  if (48 <=? code)%N && (code <=? 57)%N then Some (code - 48)%N
  else if (97 <=? code)%N && (code <=? 102)%N then Some (code - 87)%N
  else if (65 <=? code)%N && (code <=? 70)%N then Some (code - 55)%N
  else None.

Definition hex4 (h1 h2 h3 h4 : ascii) : option N :=
  match hex_digit h1, hex_digit h2, hex_digit h3, hex_digit h4 with
  | Some a, Some b, Some c, Some d => Some (((a * 16 + b) * 16 + c) * 16 + d)%N
  | _, _, _, _ => None
  end.

Definition push_char (c : ascii) (r : completion (string * string))
  : completion (string * string) :=
  '(str, rest) <~ r ; Normal (String c str, rest).

(** The characters of a string literal after its opening quote, decoded, and
    the input after the closing quote.  [\uXXXX] escapes above U+007F would
    need UTF-8 encoding and pairing of surrogates: not modelled. *)
Fixpoint lex_string (s : string) : completion (string * string) :=
  match s with
  | EmptyString => Throw syntax_error
  | String c s' =>
      if Ascii.eqb c dquote then Normal (EmptyString, s')
      else if Ascii.eqb c "\" then
        match s' with
        | EmptyString => Throw syntax_error
        | String e s'' =>
            if Ascii.eqb e dquote then push_char dquote (lex_string s'')
            else if Ascii.eqb e "\" then push_char "\" (lex_string s'')
            else if Ascii.eqb e "/" then push_char "/" (lex_string s'')
            else if Ascii.eqb e "b" then push_char "008" (lex_string s'')
            else if Ascii.eqb e "f" then push_char "012" (lex_string s'')
            else if Ascii.eqb e "n" then push_char "010" (lex_string s'')
            else if Ascii.eqb e "r" then push_char "013" (lex_string s'')
            else if Ascii.eqb e "t" then push_char "009" (lex_string s'')
            else if Ascii.eqb e "u" then
              match s'' with
              | String h1 (String h2 (String h3 (String h4 s3))) =>
                  match hex4 h1 h2 h3 h4 with
                  | Some code =>
                      if (code <? 128)%N
                      then push_char (ascii_of_N code) (lex_string s3)
                      else Unmodelled
                  | None => Throw syntax_error
                  end
              | _ => Throw syntax_error
              end
            else Throw syntax_error
        end
      else if (N_of_ascii c <? 32)%N then Throw syntax_error
      else push_char c (lex_string s')
  end.

Fixpoint strip_prefix (p s : string) : option string :=
  match p with
  | EmptyString => Some s
  | String a p' =>
      match s with
      | String b s' => if Ascii.eqb a b then strip_prefix p' s' else None
      | EmptyString => None
      end
  end.

Definition prepend (ts : list token) (r : completion (list token))
  : completion (list token) :=
  l <~ r ; Normal (ts ++ l).

Definition lex_literal (rec : string -> completion (list token))
    (s : string) : completion (list token) :=
  match strip_prefix "true" s with
  | Some rest => prepend [TTrue] (rec rest)
  | None =>
  match strip_prefix "false" s with
  | Some rest => prepend [TFalse] (rec rest)
  | None =>
  match strip_prefix "null" s with
  | Some rest => prepend [TNull] (rec rest)
  | None => Throw syntax_error
  end end end.

(** One step of the lexer: the first token of [s], followed by what [rec]
    makes of the rest of the input. *)
Definition lex_step (rec : string -> completion (list token)) (s : string)
  : completion (list token) :=
  match s with
  | EmptyString => Normal []
  | String c s' =>
      if is_ws c then rec s'
      else if Ascii.eqb c "{" then prepend [TLBrace] (rec s')
      else if Ascii.eqb c "}" then prepend [TRBrace] (rec s')
      else if Ascii.eqb c "[" then prepend [TLBracket] (rec s')
      else if Ascii.eqb c "]" then prepend [TRBracket] (rec s')
      else if Ascii.eqb c ":" then prepend [TColon] (rec s')
      else if Ascii.eqb c "," then prepend [TComma] (rec s')
      else if Ascii.eqb c dquote then
        '(str, rest) <~ lex_string s' ;
        prepend [TString str] (rec rest)
      else if Ascii.eqb c "-" || is_digit c then
        '(n, rest) <~ lex_number s ;
        prepend [TNumber n] (rec rest)
      else lex_literal rec s
  end.

(** The token sequence of a text.  Each step consumes at least one
    character, so [String.length s] steps are enough. *)
Fixpoint lex (fuel : nat) (s : string) : completion (list token) :=
  match fuel with
  | O => match s with EmptyString => Normal [] | _ => Unmodelled end
  | S fuel => lex_step (lex fuel) s
  end.

Definition lexer (s : string) : completion (list token) :=
  lex (String.length s) s.

(** ** Parsing *)

(** CreateDataProperty on the object under construction: a repeated name
    keeps its first position and takes the last value. *)
Definition define_prop (props : list (string * value)) (k : string) (x : value)
  : completion (list (string * value)) :=
  if index_like k then Unmodelled else Normal (assoc_set k x props).

(** Recursive descent over the tokens.  Every call consumes a token, so as
    much fuel as there are tokens is enough. *)
Fixpoint parse_value (fuel : nat) (ts : list token)
  : completion (value * list token) :=
  match fuel with
  | O => Unmodelled
  | S fuel =>
      match ts with
      | TNull :: r => Normal (JNull, r)
      | TTrue :: r => Normal (JBool true, r)
      | TFalse :: r => Normal (JBool false, r)
      | TNumber n :: r => Normal (JNum n, r)
      | TString s :: r => Normal (JStr s, r)
      | TLBracket :: TRBracket :: r => Normal (JArr [], r)
      | TLBracket :: r => parse_elements fuel r []
      | TLBrace :: TRBrace :: r => Normal (JObj [], r)
      | TLBrace :: r => parse_members fuel r []
      | _ => Throw syntax_error
      end
  end
with parse_elements (fuel : nat) (ts : list token) (acc : list value)
  : completion (value * list token) :=
  match fuel with
  | O => Unmodelled
  | S fuel =>
      '(x, r) <~ parse_value fuel ts ;
      match r with
      | TComma :: r' => parse_elements fuel r' (acc ++ [x])
      | TRBracket :: r' => Normal (JArr (acc ++ [x]), r')
      | _ => Throw syntax_error
      end
  end
with parse_members (fuel : nat) (ts : list token) (acc : list (string * value))
  : completion (value * list token) :=
  match fuel with
  | O => Unmodelled
  | S fuel =>
      match ts with
      | TString k :: TColon :: r =>
          '(x, r1) <~ parse_value fuel r ;
          acc' <~ define_prop acc k x ;
          match r1 with
          | TComma :: r' => parse_members fuel r' acc'
          | TRBrace :: r' => Normal (JObj acc', r')
          | _ => Throw syntax_error
          end
      | _ => Throw syntax_error
      end
  end.

(** [JSON.parse(text)] *)
Definition parse (text : string) : completion value :=
  ts <~ lexer text ;
  '(v, rest) <~ parse_value (S (length ts)) ts ;
  match rest with
  | [] => Normal v
  | _ :: _ => Throw syntax_error
  end.

(** ** Serialising *)

Definition hex_char (n : N) : ascii :=
  match n with
  | 0 => "0" | 1 => "1" | 2 => "2" | 3 => "3" | 4 => "4" | 5 => "5"
  | 6 => "6" | 7 => "7" | 8 => "8" | 9 => "9" | 10 => "a" | 11 => "b"
  | 12 => "c" | 13 => "d" | 14 => "e" | _ => "f"
  end%N%char.

(** QuoteJSONString, one character *)
Definition escape_char (c : ascii) : string :=
  if Ascii.eqb c dquote then String "\" (String dquote "")
  else if Ascii.eqb c "\" then "\\"
  else if Ascii.eqb c "008" then "\b"
  else if Ascii.eqb c "012" then "\f"
  else if Ascii.eqb c "010" then "\n"
  else if Ascii.eqb c "013" then "\r"
  else if Ascii.eqb c "009" then "\t"
  else if (N_of_ascii c <? 32)%N then
    "\u00" +:+ String (hex_char (N_of_ascii c / 16))
                 (String (hex_char (N_of_ascii c mod 16)) "")
  else String c "".

Fixpoint escape (s : string) : string :=
  match s with
  | EmptyString => ""
  | String c s' => escape_char c +:+ escape s'
  end.

Definition quote (s : string) : string :=
  String dquote (escape s +:+ String dquote "").

Definition newline : string := String "010" "".

Fixpoint join (sep : string) (parts : list string) : string :=
  match parts with
  | [] => ""
  | [p] => p
  | p :: rest => p +:+ sep +:+ join sep rest
  end.

(** The text between the brackets of a non-empty array or object *)
Definition wrap (gap indent stepback : string) (parts : list string) : string :=
  if String.eqb gap "" then join "," parts
  else newline +:+ indent +:+ join ("," +:+ newline +:+ indent) parts
       +:+ newline +:+ stepback.

(** SerializeJSONProperty, with [None] for [undefined] *)
Fixpoint serialize (gap indent : string) (v : value) : option string :=
  match v with
  | JUndefined => None
  | JNull | JNaN => Some "null"
  | JBool true => Some "true"
  | JBool false => Some "false"
  | JNum n => Some (number_to_string n)
  | JStr s => Some (quote s)
  | JArr l =>
      let stepback := indent in
      let indent := indent +:+ gap in
      let parts := map (fun x => default "null" (serialize gap indent x)) l in
      match parts with
      | [] => Some "[]"
      | _ => Some ("[" +:+ wrap gap indent stepback parts +:+ "]")
      end
  | JObj props =>
      let stepback := indent in
      let indent := indent +:+ gap in
      let member (kx : string * value) : list string :=
        match serialize gap indent (snd kx) with
        | Some str =>
            [quote (fst kx) +:+ (if String.eqb gap "" then ":" else ": ") +:+ str]
        | None => []
        end in
      let parts := flat_map member props in
      match parts with
      | [] => Some "{}"
      | _ => Some ("{" +:+ wrap gap indent stepback parts +:+ "}")
      end
  end.

(** The members that [serialize] lists for a property *)
Definition member (gap indent : string) (kx : string * value) : list string :=
  match serialize gap indent (snd kx) with
  | Some str =>
      [quote (fst kx) +:+ (if String.eqb gap "" then ":" else ": ") +:+ str]
  | None => []
  end.

(** ** The tokens of a value *)

(** The first token of a value is not a closing bracket. *)
Definition opens_value (t : token) : bool :=
  match t with
  | TRBrace | TRBracket | TColon | TComma => false
  | _ => true
  end.

(** Number tokens hold exact integers. *)
Definition token_ok (t : token) : bool :=
  match t with
  | TNumber n => exact_integer n
  | _ => true
  end.


Fixpoint join_tokens (groups : list (list token)) : list token :=
  match groups with
  | [] => []
  | [g] => g
  | g :: rest => g ++ TComma :: join_tokens rest
  end.

Definition member_tokens (k : string) (ts : list token) : list token :=
  TString k :: TColon :: ts.

(** What the lexer makes of a serialised value, whatever the white space *)
Fixpoint tokens (v : value) : list token :=
  match v with
  | JUndefined | JNull | JNaN => [TNull]
  | JBool true => [TTrue]
  | JBool false => [TFalse]
  | JNum n => [TNumber n]
  | JStr s => [TString s]
  | JArr l => TLBracket :: join_tokens (map tokens l) ++ [TRBracket]
  | JObj props =>
      TLBrace ::
      join_tokens (map (fun kx => member_tokens (fst kx) (tokens (snd kx))) props)
      ++ [TRBrace]
  end.

Fixpoint all_ws (s : string) : bool :=
  match s with
  | EmptyString => true
  | String c s' => is_ws c && all_ws s'
  end.

(** Input at which a number literal ends *)
Definition boundary (s : string) : bool :=
  match s with
  | EmptyString => true
  | String c _ => negb (is_digit c) && negb (starts_fraction_or_exponent s)
  end.

(** [str] always lexes to [ts], whatever follows it. *)
Definition lexes (str : string) (ts : list token) : Prop :=
  forall rest, boundary rest = true ->
    lexer (str +:+ rest) = prepend ts (lexer rest).

(** [JSON.stringify(v)] *)
Definition stringify (v : value) : option string := serialize "" "" v.

(** [JSON.stringify(v, null, 2)] *)
Definition stringify_2 (v : value) : option string := serialize "  " "" v.

End JSON.

(** * More of the standard library *)

(** [s.includes(sub)] *)
Fixpoint includes (s sub : string) : bool :=
  String.prefix sub s ||
  match s with
  | EmptyString => false
  | String _ s' => includes s' sub
  end.

(** [s.startsWith(p)] *)
Definition startsWith (s p : string) : bool := String.prefix p s.

(** ToString, for the values a query parameter can take.  An array is joined
    with commas, [null] and [undefined] elements giving the empty string. *)
Fixpoint to_string (v : value) : completion string :=
  match v with
  | JUndefined => Normal "undefined"
  | JNull => Normal "null"
  | JBool true => Normal "true"
  | JBool false => Normal "false"
  | JNum n => Normal (number_to_string n)
  | JNaN => Normal "NaN"
  | JStr s => Normal s
  | JArr l =>
      (fix elements (l : list value) : completion string :=
         match l with
         | [] => Normal ""
         | x :: rest =>
             sx <~ match x with
                   | JUndefined | JNull => Normal ""
                   | _ => to_string x
                   end ;
             match rest with
             | [] => Normal sx
             | _ :: _ => sr <~ elements rest ; Normal (sx +:+ "," +:+ sr)
             end
         end) l
  | JObj _ => Unmodelled
  end.

Fixpoint trim_start (s : string) : string :=
  match s with
  | String c s' => if Ascii.is_space c then trim_start s' else s
  | EmptyString => s
  end.

Definition radix_digit (radix : Z) (c : ascii) : option Z :=
  match JSON.hex_digit c with
  | Some d => if (Z.of_N d <? radix)%Z then Some (Z.of_N d) else None
  | None => None
  end.

(** The value of the longest run of radix digits at the head of [s];
    [None] when there is no digit. *)
Fixpoint radix_prefix (radix : Z) (acc : option Z) (s : string) : option Z :=
  match s with
  | EmptyString => acc
  | String c s' =>
      match radix_digit radix c with
      | Some d => radix_prefix radix (Some (default 0 acc * radix + d)%Z) s'
      | None => acc
      end
  end.

(** [parseInt(v)], with [None] for NaN.  White space beyond ASCII is not
    modelled, so a string whose first significant byte is not ASCII is left
    out; so is a value that a double does not hold exactly. *)
Definition parseInt (v : value) : completion (option Z) :=
  inputString <~ to_string v ;
  let S := trim_start inputString in
  match S with
  | String c _ =>
      if (128 <=? N_of_ascii c)%N then Unmodelled else
      let (sign, S) :=
        match S with
        | String "-"%char rest => ((-1)%Z, rest)
        | String "+"%char rest => (1%Z, rest)
        | _ => (1%Z, S)
        end in
      let (R, S) :=
        match JSON.strip_prefix "0x" S, JSON.strip_prefix "0X" S with
        | Some rest, _ | None, Some rest => (16%Z, rest)
        | None, None => (10%Z, S)
        end in
      match radix_prefix R None S with
      | None => Normal None
      | Some mathInt =>
          if exact_integer (sign * mathInt) then Normal (Some (sign * mathInt)%Z)
          else Unmodelled
      end
  | EmptyString => Normal None
  end.

(** [Array.prototype.findIndex], with [None] for -1 *)
Fixpoint array_findIndex (f : value -> completion bool) (l : list value)
  : completion (option nat) :=
  match l with
  | [] => Normal None
  | x :: rest =>
      b <~ f x ;
      if b : bool then Normal (Some O)
      else i <~ array_findIndex f rest ; Normal (S <$> i)
  end.

(** [Array.prototype.find] *)
Fixpoint array_find (f : value -> completion bool) (l : list value)
  : completion value :=
  match l with
  | [] => Normal JUndefined
  | x :: rest =>
      b <~ f x ;
      if b : bool then Normal x else array_find f rest
  end.

(** What [todos.find], [todos.findIndex] and [todos.push] need: every value
    that [JSON.parse] returns other than an array has no callable property
    of that name, and [undefined] has no properties at all. *)
Definition array_of (method : string) (todos : value) : completion (list value) :=
  match todos with
  | JArr l => Normal l
  | JUndefined =>
      Throw (TypeError ("Cannot read properties of undefined (reading '" +:+ method +:+ "')"))
  | JNull =>
      Throw (TypeError ("Cannot read properties of null (reading '" +:+ method +:+ "')"))
  | _ => Throw (TypeError ("todos." +:+ method +:+ " is not a function"))
  end.

(** The own enumerable properties that [{...v}] copies.  The characters of a
    string and the elements of an array are copied under index names, which
    the model excludes. *)
Definition spread (v : value) : completion (list (string * value)) :=
  match v with
  | JObj props => Normal props
  | JStr (String _ _) | JArr (_ :: _) => Unmodelled
  | _ => Normal []
  end.

(** The object that receives, in order, the properties in [entries] *)
Definition object_from (entries : list (string * value)) : value :=
  JObj (fold_left (fun acc kx => assoc_set (fst kx) (snd kx) acc) entries []).

(** * The process and its files *)

Inductive fs_call : Type :=
| ReadFile (path : string)
| WriteFile (path : string) (data : string)
| AppendFile (path : string) (data : string).

Record world := World {
  (** content of [todos.json]; [None] when reading it fails *)
  todos_json : option string;
  (** whether writing [todos.json] succeeds *)
  todos_writable : bool;
  (** content of [logs.txt] *)
  logs_txt : string;
  (** whether appending to [logs.txt] succeeds *)
  logs_appendable : bool;
  (** what [new Date().toLocaleString()] returns *)
  clock : string;
  (** the calls of [console.error], by their first argument *)
  stderr : list string;
  (** rejected promises that nothing handles *)
  unhandled_rejections : list js_error;
  (** the calls into [fs], oldest first *)
  fs_calls : list fs_call
}.

Definition set_todos_json (c : option string) (w : world) : world :=
  World c (todos_writable w) (logs_txt w) (logs_appendable w) (clock w)
        (stderr w) (unhandled_rejections w) (fs_calls w).
Definition set_logs_txt (c : string) (w : world) : world :=
  World (todos_json w) (todos_writable w) c (logs_appendable w) (clock w)
        (stderr w) (unhandled_rejections w) (fs_calls w).
Definition add_stderr (line : string) (w : world) : world :=
  World (todos_json w) (todos_writable w) (logs_txt w) (logs_appendable w)
        (clock w) (stderr w ++ [line]) (unhandled_rejections w) (fs_calls w).
Definition add_unhandled (e : js_error) (w : world) : world :=
  World (todos_json w) (todos_writable w) (logs_txt w) (logs_appendable w)
        (clock w) (stderr w) (unhandled_rejections w ++ [e]) (fs_calls w).
Definition add_fs_call (c : fs_call) (w : world) : world :=
  World (todos_json w) (todos_writable w) (logs_txt w) (logs_appendable w)
        (clock w) (stderr w) (unhandled_rejections w) (fs_calls w ++ [c]).

(** Code that runs in a world and completes *)
Definition prog (A : Type) : Type := world -> world * completion A.

Definition ret {A} (a : A) : prog A := fun w => (w, Normal a).
Definition throw {A} (e : js_error) : prog A := fun w => (w, Throw e).
Definition lift {A} (c : completion A) : prog A := fun w => (w, c).

Definition bind {A B} (m : prog A) (k : A -> prog B) : prog B :=
  fun w =>
    match m w with
    | (w', Normal a) => k a w'
    | (w', Throw e) => (w', Throw e)
    | (w', Unmodelled) => (w', Unmodelled)
    end.

(** [try { m } catch (err) { handler }], and [m.catch(err => handler)] *)
Definition try_catch {A} (m : prog A) (handler : js_error -> prog A) : prog A :=
  fun w =>
    match m w with
    | (w', Throw e) => handler e w'
    | r => r
    end.

Notation "x <- m ; k" := (bind m (fun x => k))
  (at level 20, m at level 100, k at level 200, only parsing).
Notation "m ;; k" := (bind m (fun _ => k))
  (at level 100, k at level 200, only parsing, right associativity).

(** An error of the operating system, such as ENOENT or EACCES *)
Definition system_error (syscall path : string) : js_error :=
  JsError "Error" (syscall +:+ " '" +:+ path +:+ "' failed").

(** [fs.readFile('todos.json', 'utf8')] *)
Definition readFile_todos : prog string := fun w =>
  let w := add_fs_call (ReadFile "todos.json") w in
  match todos_json w with
  | Some content => (w, Normal content)
  | None => (w, Throw (system_error "open" "todos.json"))
  end.

(** [fs.writeFile('todos.json', data)]; [data] must be a string *)
Definition writeFile_todos (data : option string) : prog unit := fun w =>
  match data with
  | None => (w, Throw (TypeError "The 'data' argument must be of type string"))
  | Some data =>
      let w := add_fs_call (WriteFile "todos.json" data) w in
      if todos_writable w then (set_todos_json (Some data) w, Normal tt)
      else (w, Throw (system_error "open" "todos.json"))
  end.

(** [console.error(label, ...)] *)
Definition console_error (label : string) : prog unit := fun w =>
  (add_stderr label w, Normal tt).

(** [fs.appendFile('logs.txt', data, callback)] where [fs] is the promise
    API: a function in the place of the options is ignored, so the callback
    never runs, and the promise that is returned is dropped. *)
Definition appendFile_logs (data : string) : prog unit := fun w =>
  let w := add_fs_call (AppendFile "logs.txt" data) w in
  if logs_appendable w then (set_logs_txt (logs_txt w +:+ data) w, Normal tt)
  else (add_unhandled (system_error "open" "logs.txt") w, Normal tt).

(** * The program *)

(** The listener of the [log] event *)
Definition log_listener (message : string) : prog unit := fun w =>
  let timeStamp := clock w in
  appendFile_logs (timeStamp +:+ " - " +:+ message +:+ JSON.newline) w.

(** [logs.emit('log', message)] runs the listener before it returns. *)
Definition logs_emit (message : string) : prog unit := log_listener message.

Definition readTodos : prog value :=
  try_catch
    (content <- readFile_todos ;
     lift (JSON.parse content))
    (fun err =>
       console_error "Error reading file:" ;;
       ret JUndefined).

(** [todo => todo.id === id] *)
Definition has_id (id : Z) (todo : value) : completion bool :=
  x <~ get_prop todo "id" ;
  Normal (strict_eq_num x id).

Definition getTodoById (id : Z) : prog value :=
  todos <- readTodos ;
  l <- lift (array_of "find" todos) ;
  todo <- lift (array_find (has_id id) l) ;
  if truthy todo then ret todo
  else
    (* the second argument of [new Error] is the undeclared name [err] *)
    throw (ReferenceError "err is not defined").

Definition createTodo (newTodo : value) : prog value :=
  try_catch
    (todos <- readTodos ;
     l <- lift (array_of "push" todos) ;
     lastId <- lift (match last l with
                     | Some x => get_prop x "id"
                     | None => Normal (JNum 0)
                     end) ;
     id <- lift (js_add_one lastId) ;
     title <- lift (get_prop newTodo "title") ;
     completed <- lift (get_prop newTodo "completed") ;
     let todo := JObj [("id", id); ("title", title);
                       ("completed", js_or completed (JBool false))] in
     let todos := l ++ [todo] in
     writeFile_todos (JSON.stringify_2 (JArr todos)) ;;
     ret todo)
    (fun err => throw (new_Error "Error creating todo:")).

Definition updateTodo (id : Z) (updates : value) : prog value :=
  try_catch
    (todos <- readTodos ;
     l <- lift (array_of "findIndex" todos) ;
     index <- lift (array_findIndex (has_id id) l) ;
     match index with
     | None => throw (new_Error "Todo id not found")
     | Some index =>
         old <- lift (spread (default JUndefined (l !! index))) ;
         new <- lift (spread updates) ;
         let todos := <[index := object_from (old ++ new)]> l in
         writeFile_todos (JSON.stringify_2 (JArr todos)) ;;
         ret (default JUndefined (todos !! index))
     end)
    (fun err => throw (new_Error "Error updating todo:")).

Definition deleteTodo (id : Z) : prog value :=
  try_catch
    (todos <- readTodos ;
     l <- lift (array_of "findIndex" todos) ;
     index <- lift (array_findIndex (has_id id) l) ;
     match index with
     | None => throw (new_Error "Todo id not found")
     | Some index =>
         let removedTodo := default JUndefined (l !! index) in
         let todos := delete index l in
         writeFile_todos (JSON.stringify_2 (JArr todos)) ;;
         ret removedTodo
     end)
    (fun err => throw (new_Error "Error deleting todo:")).

(** ** The server *)

Record request := Request {
  method : string;
  url : string;
  (** [url.parse(req.url, true).query.id]: [undefined], a string, or an array
      of strings when the parameter is repeated *)
  query_id : value;
  (** the chunks of the body, concatenated *)
  body : string
}.

Record response := Response {
  statusCode : Z;
  content_type : option string;
  sent : string
}.

(** [res.end(data)]: nothing is written for [undefined]. *)
Definition end_with (data : option string) : string := default "" data.

Definition text_plain : option string := Some "text/plain".
Definition application_json : option string := Some "application/json".

(** [{ error: message }] *)
Definition error_object (message : string) : value :=
  JObj [("error", JStr message)].

Definition get_todos (req : request) : prog response :=
  logs_emit (method req +:+ " - " +:+ url req) ;;
  try_catch
    (todos <- readTodos ;
     ret (Response 200 application_json (end_with (JSON.stringify todos))))
    (fun err =>
       console_error "Failed to read todos:" ;;
       ret (Response 500 None "Failed to read todos")).

Definition get_todo (req : request) : prog response :=
  logs_emit (method req +:+ " - " +:+ url req) ;;
  id <- lift (parseInt (query_id req)) ;
  match id with
  | None => ret (Response 400 text_plain "Invalid id")
  | Some id =>
      try_catch
        (todo <- getTodoById id ;
         ret (Response 200 application_json (end_with (JSON.stringify todo))))
        (fun err =>
           console_error "Failed to fetch todo:" ;;
           ret (Response 500 None "Failed to read todo"))
  end.

Definition post_todo (req : request) : prog response :=
  logs_emit (method req +:+ " - " +:+ url req) ;;
  try_catch
    (parsedBody <- lift (JSON.parse (body req)) ;
     title <- lift (get_prop parsedBody "title") ;
     if negb (truthy title) then ret (Response 400 text_plain "Invalid title")
     else
       completed <- lift (get_prop parsedBody "completed") ;
       let newTodo := JObj [("title", title);
                            ("completed", js_or completed (JBool false))] in
       try_catch
         (todo <- createTodo newTodo ;
          ret (Response 200 application_json (end_with (JSON.stringify todo))))
         (fun err =>
            console_error "Failed to create newtodo:" ;;
            ret (Response 500 None "Failed to create newtodo")))
    (fun err =>
       console_error "Error parsing request body:" ;;
       ret (Response 400 None "Invalid request body")).

(** The PUT handler, with its listener of [end] *)
Definition put_todo (req : request) : prog response :=
  logs_emit (method req +:+ " - " +:+ url req) ;;
  id <- lift (parseInt (query_id req)) ;
  match id with
  | None => ret (Response 400 text_plain "Invalid id")
  | Some id =>
      try_catch
        (updates <- lift (JSON.parse (body req)) ;
         title <- lift (get_prop updates "title") ;
         if negb (truthy title) then
           ret (Response 400 application_json
                  (end_with (JSON.stringify (error_object "Title is requireed"))))
         else
           try_catch
             (updatedTodo <- updateTodo id updates ;
              ret (Response 200 application_json
                     (end_with (JSON.stringify updatedTodo))))
             (fun err =>
                console_error "Failed to update todo:" ;;
                ret (Response 404 None
                       (end_with (JSON.stringify (error_object (message err)))))))
        (fun err =>
           console_error "Error parsing JSON in Put request" ;;
           ret (Response 400 None
                  (end_with (JSON.stringify (error_object "Invalid JSON")))))
  end.

(** The PUT handler, with its listener of [error]: what the handler does
    when receiving the body fails, so that [end] is not emitted.  The
    listeners are attached once the id has been found valid; before that,
    an invalid id has been answered. *)
Definition put_todo_error (req : request) : prog response :=
  logs_emit (method req +:+ " - " +:+ url req) ;;
  id <- lift (parseInt (query_id req)) ;
  match id with
  | None => ret (Response 400 text_plain "Invalid id")
  | Some id =>
      console_error "Error receiving request data:" ;;
      ret (Response 500 None "Failed to process request")
  end.

Definition delete_todo (req : request) : prog response :=
  logs_emit (method req +:+ " - " +:+ url req) ;;
  id <- lift (parseInt (query_id req)) ;
  match id with
  | None => ret (Response 400 text_plain "Invalid id")
  | Some id =>
      try_catch
        (removedTodo <- deleteTodo id ;
         ret (Response 200 application_json
                (end_with (JSON.stringify removedTodo))))
        (fun err =>
           console_error "Failed to delete todo:" ;;
           if includes (message err) "not found" then
             ret (Response 404 None
                    (end_with (JSON.stringify (error_object "Todo not found"))))
           else
             ret (Response 500 None
                    (end_with (JSON.stringify (error_object "Failed to delete todo")))))
  end.

(** The request listener of [http.createServer] *)
Definition server (req : request) : prog response :=
  if String.eqb (url req) "/todos" && String.eqb (method req) "GET" then
    get_todos req
  else if startsWith (url req) "/todos/" && String.eqb (method req) "GET" then
    get_todo req
  else if String.eqb (url req) "/todos" && String.eqb (method req) "POST" then
    post_todo req
  else if startsWith (url req) "/todos/" && String.eqb (method req) "PUT" then
    put_todo req
  else if startsWith (url req) "/todos/" && String.eqb (method req) "DELETE" then
    delete_todo req
  else
    ret (Response 404 None "Endpoint not found").

(** * Vocabulary of the specification *)

(** JSON text is written with single quotes in the examples below. *)
Fixpoint js (s : string) : string :=
  match s with
  | EmptyString => EmptyString
  | String c s' => String (if Ascii.eqb c "'" then dquote else c) (js s')
  end.

(** The stored collection: [todos.json] is readable and parses to the array
    [todos]. *)
Definition stored (w : world) (todos : list value) : Prop :=
  exists content,
    todos_json w = Some content /\ JSON.parse content = Normal (JArr todos).

(** The id of a todo that is an object with a numeric [id] *)
Definition todo_id (todo : value) : option Z :=
  match todo with
  | JObj props =>
      match assoc_get "id" props with
      | Some (JNum n) => Some n
      | _ => None
      end
  | _ => None
  end.

(** The ids of a collection in which every entry is such a todo *)
Fixpoint todo_ids (todos : list value) : option (list Z) :=
  match todos with
  | [] => Some []
  | todo :: rest =>
      match todo_id todo, todo_ids rest with
      | Some n, Some ns => Some (n :: ns)
      | _, _ => None
      end
  end.

(** Each id is below the next one. *)
Fixpoint ascending (ids : list Z) : bool :=
  match ids with
  | a :: ((b :: _) as rest) => (a <? b)%Z && ascending rest
  | _ => true
  end.

(** No id is above the next one. *)
Fixpoint nondecreasing (ids : list Z) : bool :=
  match ids with
  | a :: ((b :: _) as rest) => (a <=? b)%Z && nondecreasing rest
  | _ => true
  end.

(** No id occurs twice. *)
Fixpoint unique (ids : list Z) : bool :=
  match ids with
  | [] => true
  | a :: rest => negb (existsb (Z.eqb a) rest) && unique rest
  end.

(** The greatest id, 0 for the empty collection *)
Definition max_id (ids : list Z) : Z :=
  match ids with
  | [] => 0%Z
  | a :: rest => fold_left Z.max rest a
  end.

(** The calls into [fs] that touch [todos.json] *)
Definition touches_todos (c : fs_call) : bool :=
  match c with
  | ReadFile path | WriteFile path _ | AppendFile path _ =>
      String.eqb path "todos.json"
  end.

Definition repository_calls (w : world) : list fs_call :=
  filter (fun c => touches_todos c = true) (fs_calls w).

(** A world with the given [todos.json], working files and nothing logged *)
Definition fresh_world (content : option string) : world :=
  World content true "" true "1/1/2025, 12:00:00 AM" [] [] [].

(** The routes that take the id of a todo in the query *)
Definition by_id_route (req : request) : Prop :=
  startsWith (url req) "/todos/" = true /\
  (method req = "GET" \/ method req = "PUT" \/ method req = "DELETE").

(** The title is missing, empty, or another falsy value. *)
Definition no_title (parsedBody : value) : Prop :=
  exists title,
    get_prop parsedBody "title" = Normal title /\ truthy title = false.

(** The requests that input validation rejects *)
Inductive validation_error (req : request) : Prop :=
| invalid_id :
    by_id_route req ->
    parseInt (query_id req) = Normal None ->
    validation_error req
| post_malformed_body e :
    method req = "POST" -> url req = "/todos" ->
    JSON.parse (body req) = Throw e ->
    validation_error req
| post_no_title parsedBody :
    method req = "POST" -> url req = "/todos" ->
    JSON.parse (body req) = Normal parsedBody ->
    no_title parsedBody ->
    validation_error req
| put_malformed_body id e :
    method req = "PUT" -> startsWith (url req) "/todos/" = true ->
    parseInt (query_id req) = Normal (Some id) ->
    JSON.parse (body req) = Throw e ->
    validation_error req
| put_no_title id updates :
    method req = "PUT" -> startsWith (url req) "/todos/" = true ->
    parseInt (query_id req) = Normal (Some id) ->
    JSON.parse (body req) = Normal updates ->
    no_title updates ->
    validation_error req.

Definition with_query_id (q : value) (req : request) : request :=
  Request (method req) (url req) q (body req).

(** The ids of the stored collection are strictly ascending. *)
Definition ids_ascending (w : world) : Prop :=
  exists todos ids,
    stored w todos /\ todo_ids todos = Some ids /\ ascending ids = true.

(** A request that does not overwrite an id: the body of a PUT has no [id]
    field, or the id that the request addresses. *)
Definition keeps_id (req : request) : Prop :=
  method req = "PUT" ->
  forall updates id,
    JSON.parse (body req) = Normal updates ->
    parseInt (query_id req) = Normal (Some id) ->
    get_prop updates "id" = Normal JUndefined \/
    get_prop updates "id" = Normal (JNum id).

(** The stored ids are safe integers: at most [Number.MAX_SAFE_INTEGER] in
    absolute value, so that the id after the last one is exact. *)
Definition ids_safe (w : world) : Prop :=
  exists todos ids,
    stored w todos /\ todo_ids todos = Some ids /\
    forallb safe_integer ids = true.

(** The worlds that the server reaches from [w0] by answering such
    requests, a POST being made only while the stored ids are safe
    integers *)
Inductive reachable (w0 : world) : world -> Prop :=
| reachable_start : reachable w0 w0
| reachable_step w req w' resp :
    reachable w0 w ->
    keeps_id req ->
    (method req = "POST" -> ids_safe w) ->
    server req w = (w', Normal resp) ->
    reachable w0 w'.

(** Requests and worlds of the examples *)
Definition post_t : request :=
  Request "POST" "/todos" JUndefined (js "{'title':'t'}").
Definition put_id (n : string) : request :=
  Request "PUT" "/todos/?id=1" (JStr "1") (js ("{'title':'t','id':" +:+ n +:+ "}")).
(** The world after two POSTs on the empty collection *)
Definition two_todos : world :=
  fst (server post_t (fst (server post_t (fresh_world (Some "[]"))))).
Definition todo_t (id : Z) : value :=
  JObj [("id", JNum id); ("title", JStr "t"); ("completed", JBool false)].
(** The world after two POSTs on a collection whose one todo has the id
    [Number.MAX_SAFE_INTEGER] *)
Definition past_the_limit : world :=
  fst (server post_t
         (fst (server post_t
                 (fresh_world
                    (Some (js "[{'id':9007199254740991,'title':'t','completed':false}]")))))).

Definition is_undefined (v : value) : bool :=
  match v with
  | JUndefined => true
  | _ => false
  end.

(** What [JSON.stringify] makes of a value: NaN and an [undefined] element
    of an array are written as [null], a property that is [undefined] is
    left out. *)
Fixpoint to_json (v : value) : value :=
  match v with
  | JUndefined | JNaN => JNull
  | JArr l => JArr (map to_json l)
  | JObj props =>
      JObj (flat_map
              (fun kx =>
                 if is_undefined (snd kx) then []
                 else [(fst kx, to_json (snd kx))]) props)
  | _ => v
  end.

(** The values that the program can hand to [JSON.stringify]: JSON values in
    which NaN and [undefined] may occur. *)
Fixpoint serializable (v : value) : bool :=
  match v with
  | JUndefined | JNaN | JNull | JBool _ | JStr _ => true
  | JNum n => exact_integer n
  | JArr l => forallb serializable l
  | JObj props =>
      distinct (map fst props) &&
      forallb (fun kx => negb (index_like (fst kx)) && serializable (snd kx)) props
  end.

(** What a request for a todo by id is answered when the id is not a number *)
Definition invalid_id_response : response := Response 400 text_plain "Invalid id".

(** What a request can have done to [todos.json]: nothing, or written the
    text of a serializable array. *)
Definition saved (w w' : world) : Prop :=
  todos_json w' = todos_json w \/
  exists todos,
    serializable (JArr todos) = true /\
    todos_json w' = JSON.stringify_2 (JArr todos).

(** ** Vocabulary of the further properties *)

(** The two routes on the collection itself *)
Definition collection_route (req : request) : Prop :=
  url req = "/todos" /\ (method req = "GET" \/ method req = "POST").

(** The five routes that the server knows *)
Definition known_route (req : request) : Prop :=
  collection_route req \/ by_id_route req.

(** What is answered on every other route *)
Definition endpoint_not_found : response := Response 404 None "Endpoint not found".

(** The line that the listener of [log] appends for a request *)
Definition log_line (w : world) (req : request) : string :=
  clock w +:+ " - " +:+ (method req +:+ " - " +:+ url req) +:+ JSON.newline.

(** Running [m] leaves the component [f] of the world as it is. *)
Definition preserves {A X} (f : world -> X) (m : prog A) : Prop :=
  forall w, f (fst (m w)) = f w.

(** The calls of [fs.writeFile] *)
Definition is_write (c : fs_call) : bool :=
  match c with
  | WriteFile _ _ => true
  | _ => false
  end.

Definition write_calls (w : world) : list fs_call :=
  List.filter is_write (fs_calls w).

(** No exception leaves [m]. *)
Definition never_throws {A} (m : prog A) : Prop :=
  forall w e, snd (m w) <> Throw e.

(** The collection cannot be loaded as an array: [todos.json] is missing,
    or its text is not JSON, or it holds a JSON value that is no array. *)
Definition no_collection (w : world) : Prop :=
  todos_json w = None \/
  (exists content e, todos_json w = Some content /\ JSON.parse content = Throw e) \/
  (exists content v, todos_json w = Some content /\
                     JSON.parse content = Normal v /\ forall l, v <> JArr l).

(** What may follow the digits of [n] in a query parameter for [parseInt]
    to read [n]: nothing, or a character that is no digit and that does not
    turn a 0 into the prefix of a hexadecimal number. *)
Definition ends_integer (n : Z) (rest : string) : bool :=
  match rest with
  | EmptyString => true
  | String c _ =>
      negb (is_digit c) &&
      negb ((n =? 0)%Z && (Ascii.eqb c "x" || Ascii.eqb c "X"))
  end.

(** What a repository function has done when it returns in [w'] with [r],
    having started in [w]: it has written [todos.json], once, and returns a
    todo; or it returns none, and has written nothing if the file can be
    written at all. *)
Definition all_or_nothing (w w' : world) (r : completion value) : Prop :=
  (exists todo data,
     r = Normal todo /\ todos_writable w = true /\
     todos_json w' = Some data /\
     write_calls w' = write_calls w ++ [WriteFile "todos.json" data]) \/
  ((forall todo, r <> Normal todo) /\
   (todos_writable w = true ->
    todos_json w' = todos_json w /\ write_calls w' = write_calls w)).

(** The same for a request that is answered [resp]: a POST, PUT or DELETE
    that is answered 200 has written [todos.json], once; with any other
    answer, and for a GET, nothing was written. *)
Definition written_iff_200 (req : request) (w w' : world) (resp : response) : Prop :=
  (statusCode resp = 200%Z /\ method req <> "GET" /\
   todos_writable w = true /\
   exists data,
     todos_json w' = Some data /\
     write_calls w' = write_calls w ++ [WriteFile "todos.json" data]) \/
  ((statusCode resp <> 200%Z \/ method req = "GET") /\
   (todos_writable w = true ->
    todos_json w' = todos_json w /\ write_calls w' = write_calls w)).

(** * Properties of the JSON functions *)

Import JSON.

Lemma append_cons (x : ascii) (a b : string) :
  String x a +:+ b = String x (a +:+ b).
Proof. reflexivity. Qed.

Lemma append_empty_l (a : string) : "" +:+ a = a.
Proof. reflexivity. Qed.

Lemma append_assoc (a b c : string) : (a +:+ b) +:+ c = a +:+ (b +:+ c).
Proof.
  induction a as [|x a IH]; [reflexivity|].
  rewrite !append_cons. now f_equal.
Qed.

Lemma append_empty_r (a : string) : a +:+ "" = a.
Proof.
  induction a as [|x a IH]; [reflexivity|].
  rewrite append_cons. now f_equal.
Qed.

Lemma strip_prefix_length p s rest :
  strip_prefix p s = Some rest ->
  String.length s = String.length p + String.length rest.
Proof.
  revert s; induction p as [|a p IH]; intros s H; simpl in *.
  - now inversion H.
  - destruct s as [|b s]; [discriminate|].
    destruct (Ascii.eqb a b); [|discriminate].
    simpl. now rewrite (IH _ H).
Qed.

Lemma lex_digits_length s d rest :
  lex_digits s = (d, rest) -> String.length rest <= String.length s.
Proof.
  revert d rest; induction s as [|c s IH]; intros d rest H; simpl in *.
  - inversion H; subst; simpl; lia.
  - destruct (digit_cons c).
    + destruct (lex_digits s) as [d' r'] eqn:E. inversion H; subst.
      specialize (IH _ _ eq_refl). lia.
    + inversion H; subst; simpl; lia.
Qed.

Lemma lex_digits_consumes s d rest :
  lex_digits s = (d, rest) -> no_digit d = false ->
  String.length rest < String.length s.
Proof.
  destruct s as [|c s]; simpl; intros H Hd.
  - inversion H; subst; discriminate.
  - destruct (digit_cons c).
    + destruct (lex_digits s) as [d' r'] eqn:E. inversion H; subst.
      apply lex_digits_length in E. lia.
    + inversion H; subst; discriminate.
Qed.

Lemma lex_unsigned_length neg s n rest :
  lex_unsigned neg s = Normal (n, rest) ->
  String.length rest < String.length s.
Proof.
  unfold lex_unsigned. destruct (lex_digits s) as [d r] eqn:E.
  destruct (no_digit d) eqn:Hd; [discriminate|]. simpl.
  destruct (leading_zero d); [discriminate|].
  destruct (starts_fraction_or_exponent r); [discriminate|].
  destruct (exact_integer _); [|discriminate].
  intros H; inversion H; subst. eapply lex_digits_consumes; eauto.
Qed.

Lemma lex_number_length s n rest :
  lex_number s = Normal (n, rest) -> String.length rest < String.length s.
Proof.
  unfold lex_number. intros H.
  destruct s as [|c s].
  - now apply lex_unsigned_length in H.
  - destruct (Ascii.eqb c "-").
    + apply lex_unsigned_length in H. simpl. lia.
    + now apply lex_unsigned_length in H.
Qed.

Lemma push_char_inv c r str rest :
  push_char c r = Normal (str, rest) ->
  exists str', r = Normal (str', rest) /\ str = String c str'.
Proof.
  destruct r as [[s' r']| |]; simpl; intros H; inversion H; subst; eauto.
Qed.

Lemma lex_string_length s str rest :
  lex_string s = Normal (str, rest) -> String.length rest < String.length s.
Proof.
  remember (String.length s) as n eqn:Hn.
  revert s Hn str rest.
  induction n as [n IH] using lt_wf_ind. intros s Hn str rest H. subst n.
  destruct s as [|c s]; simpl in H; [discriminate|].
  destruct (Ascii.eqb c dquote).
  { inversion H; subst. simpl. lia. }
  destruct (Ascii.eqb c "\").
  - destruct s as [|e s]; [discriminate|].
    repeat match type of H with
    | (if ?b then _ else _) = _ => destruct b
    | push_char _ _ = _ =>
        apply push_char_inv in H; destruct H as (? & H & _);
        apply IH with (m := String.length s) in H; simpl; try lia
    end.
    + destruct s as [|h1 [|h2 [|h3 [|h4 s3]]]]; try discriminate.
      destruct (hex4 h1 h2 h3 h4); [|discriminate].
      destruct (_ <? _)%N; [|discriminate].
      apply push_char_inv in H; destruct H as (? & H & _).
      apply IH with (m := String.length s3) in H; simpl; lia.
    + discriminate.
  - destruct (_ <? _)%N; [discriminate|].
    apply push_char_inv in H; destruct H as (? & H & _).
    apply IH with (m := String.length s) in H; simpl; lia.
Qed.

Lemma lex_step_ext rec1 rec2 s :
  (forall r, String.length r < String.length s -> rec1 r = rec2 r) ->
  lex_step rec1 s = lex_step rec2 s.
Proof.
  intros H. destruct s as [|c s]; [reflexivity|].
  unfold lex_step.
  assert (Hs : rec1 s = rec2 s) by (apply H; simpl; lia).
  repeat match goal with
  | |- (if ?b then _ else _) = _ => destruct b; [now rewrite ?Hs|]
  end.
  destruct (Ascii.eqb c dquote).
  { destruct (lex_string s) as [[str rest]| |] eqn:E; simpl; try reflexivity.
    rewrite H; [reflexivity|]. apply lex_string_length in E. simpl. lia. }
  destruct (Ascii.eqb c "-" || is_digit c).
  { destruct (lex_number (String c s)) as [[n rest]| |] eqn:E; simpl; try reflexivity.
    rewrite H; [reflexivity|]. now apply lex_number_length in E. }
  unfold lex_literal.
  destruct (strip_prefix "true" (String c s)) as [rest|] eqn:E1.
  { rewrite H; [reflexivity|]. apply strip_prefix_length in E1. simpl in *. lia. }
  destruct (strip_prefix "false" (String c s)) as [rest|] eqn:E2.
  { rewrite H; [reflexivity|]. apply strip_prefix_length in E2. simpl in *. lia. }
  destruct (strip_prefix "null" (String c s)) as [rest|] eqn:E3.
  { rewrite H; [reflexivity|]. apply strip_prefix_length in E3. simpl in *. lia. }
  reflexivity.
Qed.

Lemma lex_S fuel s : lex (S fuel) s = lex_step (lex fuel) s.
Proof. reflexivity. Qed.

Lemma lex_fuel_irrelevant f1 f2 s :
  String.length s <= f1 -> String.length s <= f2 -> lex f1 s = lex f2 s.
Proof.
  revert f2 s. induction f1 as [|f1 IH]; intros f2 s H1 H2.
  - destruct s; simpl in *; [|lia]. now destruct f2.
  - destruct f2 as [|f2].
    + destruct s; simpl in *; [reflexivity | lia].
    + rewrite !lex_S. apply lex_step_ext. intros r Hr. apply IH; lia.
Qed.

Lemma lex_enough fuel s :
  String.length s <= fuel -> lex fuel s = lexer s.
Proof. intros H. apply lex_fuel_irrelevant; [assumption | reflexivity]. Qed.

Lemma lexer_unfold s : lexer s = lex_step lexer s.
Proof.
  destruct s as [|c s]; [reflexivity|].
  unfold lexer at 1. simpl String.length. rewrite lex_S.
  apply lex_step_ext. intros r Hr. simpl in Hr. apply lex_enough. lia.
Qed.

Lemma lex_string_escape_char c r :
  lex_string (escape_char c +:+ r) = push_char c (lex_string r).
Proof.
  destruct c as [[] [] [] [] [] [] [] []]; reflexivity.
Qed.

Lemma lex_string_escape s rest :
  lex_string (escape s +:+ String dquote rest) = Normal (s, rest).
Proof.
  induction s as [|c s IH]; [reflexivity|].
  simpl escape. rewrite append_assoc, lex_string_escape_char, IH. reflexivity.
Qed.

Lemma digit_cons_is_digit c : is_digit c = false -> digit_cons c = None.
Proof. destruct c as [[] [] [] [] [] [] [] []]; simpl; intros; congruence. Qed.

Lemma lex_digits_print d rest :
  boundary rest = true ->
  lex_digits (NilEmpty.string_of_uint d +:+ rest) = (d, rest).
Proof.
  intros Hb. induction d; simpl NilEmpty.string_of_uint;
    rewrite ?append_cons; simpl; rewrite ?IHd; try reflexivity.
  destruct rest as [|c r]; [reflexivity|].
  simpl in Hb. apply andb_true_iff in Hb as [Hd _].
  apply negb_true_iff in Hd. simpl. now rewrite (digit_cons_is_digit _ Hd).
Qed.

Lemma unorm_shape d :
  no_digit (Decimal.unorm d) = false /\ leading_zero (Decimal.unorm d) = false.
Proof.
  induction d; simpl; auto.
Qed.

Lemma pos_to_uint_shape p :
  no_digit (Pos.to_uint p) = false /\ leading_zero (Pos.to_uint p) = false.
Proof.
  assert (H : Pos.to_uint p = Decimal.unorm (Pos.to_uint p)).
  { rewrite <- (DecimalN.Unsigned.to_of (Pos.to_uint p)).
    change (N.of_uint (Pos.to_uint p)) with (Pos.of_uint (Pos.to_uint p)).
    rewrite DecimalPos.Unsigned.of_to. reflexivity. }
  rewrite H. apply unorm_shape.
Qed.

Lemma string_of_uint_nonnil d :
  no_digit d = false -> NilZero.string_of_uint d = NilEmpty.string_of_uint d.
Proof. destruct d; simpl; intros; congruence || reflexivity. Qed.

Lemma pos_to_uint_head p :
  exists c s, NilEmpty.string_of_uint (Pos.to_uint p) = String c s /\ is_digit c = true.
Proof.
  destruct (pos_to_uint_shape p) as [H _].
  destruct (Pos.to_uint p); simpl in *; try discriminate; eauto.
Qed.

Lemma lex_unsigned_print neg d rest :
  no_digit d = false -> leading_zero d = false ->
  boundary rest = true ->
  exact_integer (if neg : bool then - Z.of_uint d else Z.of_uint d)%Z = true ->
  lex_unsigned neg (NilEmpty.string_of_uint d +:+ rest) =
  Normal ((if neg : bool then - Z.of_uint d else Z.of_uint d)%Z, rest).
Proof.
  intros H1 H2 Hb Hn. unfold lex_unsigned.
  rewrite (lex_digits_print _ _ Hb), H1, H2. simpl.
  assert (Hfe : starts_fraction_or_exponent rest = false).
  { destruct rest; [reflexivity|]. simpl in Hb. apply andb_true_iff in Hb as [_ H].
    now apply negb_true_iff in H. }
  rewrite Hfe, Hn. reflexivity.
Qed.

Lemma lex_number_print n rest :
  exact_integer n = true -> boundary rest = true ->
  lex_number (number_to_string n +:+ rest) = Normal (n, rest).
Proof.
  intros Hn Hb. unfold number_to_string, lex_number.
  destruct n as [|p|p]; simpl Z.to_int; simpl NilZero.string_of_int.
  - exact (lex_unsigned_print false (Decimal.D0 Decimal.Nil) rest eq_refl eq_refl Hb Hn).
  - destruct (pos_to_uint_shape p) as [H1 H2].
    rewrite (string_of_uint_nonnil _ H1).
    destruct (pos_to_uint_head p) as (c & s & Hs & Hc).
    assert (Hminus : Ascii.eqb c "-" = false).
    { destruct c as [[] [] [] [] [] [] [] []]; simpl in Hc; try discriminate; reflexivity. }
    assert (Hz : Z.of_uint (Pos.to_uint p) = Z.pos p).
    { change (Z.of_int (Z.to_int (Z.pos p)) = Z.pos p). apply DecimalZ.of_to. }
    pose proof (lex_unsigned_print false (Pos.to_uint p) rest H1 H2 Hb) as L.
    simpl in L. rewrite Hz in L. specialize (L Hn).
    rewrite Hs in *. rewrite append_cons in *. now rewrite Hminus.
  - destruct (pos_to_uint_shape p) as [H1 H2].
    rewrite (string_of_uint_nonnil _ H1).
    rewrite append_cons. rewrite Ascii.eqb_refl.
    assert (Hz : (- Z.of_uint (Pos.to_uint p))%Z = Z.neg p).
    { change (Z.of_int (Z.to_int (Z.neg p)) = Z.neg p). apply DecimalZ.of_to. }
    pose proof (lex_unsigned_print true (Pos.to_uint p) rest H1 H2 Hb) as L.
    simpl in L. rewrite Hz in L. now apply L.
Qed.


Lemma prepend_prepend a b r : prepend a (prepend b r) = prepend (a ++ b) r.
Proof. destruct r; simpl; try reflexivity. now rewrite app_assoc. Qed.

Lemma prepend_nil r : prepend [] r = r.
Proof. now destruct r. Qed.

Lemma is_ws_boundary c r : is_ws c = true -> boundary (String c r) = true.
Proof. destruct c as [[] [] [] [] [] [] [] []]; simpl; intros; congruence. Qed.

Lemma lexer_ws_char c s : is_ws c = true -> lexer (String c s) = lexer s.
Proof. intros H. rewrite lexer_unfold. simpl. now rewrite H. Qed.

Lemma lexer_ws p s : all_ws p = true -> lexer (p +:+ s) = lexer s.
Proof.
  induction p as [|c p IH]; intros H; [reflexivity|].
  simpl in H. apply andb_true_iff in H as [Hc Hp].
  rewrite append_cons, lexer_ws_char; auto.
Qed.

Lemma all_ws_app a b : all_ws a = true -> all_ws b = true -> all_ws (a +:+ b) = true.
Proof.
  induction a as [|c a IH]; intros Ha Hb; [assumption|].
  simpl in Ha. apply andb_true_iff in Ha as [Hc Ha].
  rewrite append_cons. simpl. rewrite Hc. simpl. auto.
Qed.

Lemma lexer_lbracket s : lexer (String "[" s) = prepend [TLBracket] (lexer s).
Proof. now rewrite lexer_unfold. Qed.
Lemma lexer_rbracket s : lexer (String "]" s) = prepend [TRBracket] (lexer s).
Proof. now rewrite lexer_unfold. Qed.
Lemma lexer_lbrace s : lexer (String "{" s) = prepend [TLBrace] (lexer s).
Proof. now rewrite lexer_unfold. Qed.
Lemma lexer_rbrace s : lexer (String "}" s) = prepend [TRBrace] (lexer s).
Proof. now rewrite lexer_unfold. Qed.
Lemma lexer_colon s : lexer (String ":" s) = prepend [TColon] (lexer s).
Proof. now rewrite lexer_unfold. Qed.
Lemma lexer_comma s : lexer (String "," s) = prepend [TComma] (lexer s).
Proof. now rewrite lexer_unfold. Qed.

Lemma lexes_null : lexes "null" [TNull].
Proof. intros rest _. now rewrite lexer_unfold. Qed.
Lemma lexes_true : lexes "true" [TTrue].
Proof. intros rest _. now rewrite lexer_unfold. Qed.
Lemma lexes_false : lexes "false" [TFalse].
Proof. intros rest _. now rewrite lexer_unfold. Qed.

Lemma lexes_quote s : lexes (quote s) [TString s].
Proof.
  intros rest _. unfold quote. rewrite append_cons, lexer_unfold.
  change (lex_step lexer (String dquote ?x)) with
    ('(str, r) <~ lex_string x ; prepend [TString str] (lexer r)).
  rewrite append_assoc, append_cons, append_empty_l, lex_string_escape.
  reflexivity.
Qed.

Lemma lex_step_number rec c s :
  Ascii.eqb c "-" || is_digit c = true ->
  lex_step rec (String c s) =
  ('(n, rest) <~ lex_number (String c s) ; prepend [TNumber n] (rec rest)).
Proof.
  destruct c as [[] [] [] [] [] [] [] []]; simpl; intros H;
    try discriminate H; reflexivity.
Qed.

Lemma number_to_string_head n :
  exists c s, number_to_string n = String c s /\ Ascii.eqb c "-" || is_digit c = true.
Proof.
  unfold number_to_string. destruct n as [|p|p]; simpl.
  - eauto.
  - destruct (pos_to_uint_shape p) as [H1 _].
    rewrite (string_of_uint_nonnil _ H1).
    destruct (pos_to_uint_head p) as (c & s & Hs & Hc).
    exists c, s. split; [assumption|]. rewrite Hc. apply orb_true_r.
  - eauto.
Qed.

Lemma lexes_number n : exact_integer n = true -> lexes (number_to_string n) [TNumber n].
Proof.
  intros Hn rest Hb.
  destruct (number_to_string_head n) as (c & s & Hs & Hc).
  pose proof (lex_number_print n rest Hn Hb) as L.
  rewrite Hs in *. rewrite append_cons in *.
  rewrite lexer_unfold, (lex_step_number _ _ _ Hc), L. reflexivity.
Qed.

Ltac norm_append :=
  repeat (rewrite append_cons || rewrite append_empty_l || rewrite append_assoc).

(** Items separated by a comma and white space *)
Lemma lexes_join sepws parts groups :
  all_ws sepws = true ->
  Forall2 lexes parts groups ->
  lexes (join ("," +:+ sepws) parts) (join_tokens groups).
Proof.
  intros Hws H. induction H as [|p g parts groups Hp Hrest IH].
  - intros rest _. simpl. now rewrite prepend_nil.
  - destruct Hrest as [|p' g' parts' groups' Hp' Hrest'].
    + exact Hp.
    + change (join ("," +:+ sepws) (p :: p' :: parts'))
        with (p +:+ ("," +:+ sepws) +:+ join ("," +:+ sepws) (p' :: parts')).
      change (join_tokens (g :: g' :: groups'))
        with (g ++ TComma :: join_tokens (g' :: groups')).
      intros rest Hr.
      rewrite !append_assoc. rewrite Hp by reflexivity.
      rewrite append_cons, append_empty_l, lexer_comma.
      rewrite lexer_ws by assumption.
      rewrite (IH rest Hr).
      rewrite !prepend_prepend, <- app_assoc. reflexivity.
Qed.

Lemma lexes_wrap gap indent stepback parts groups :
  all_ws gap = true -> all_ws indent = true -> all_ws stepback = true ->
  Forall2 lexes parts groups ->
  forall rest, boundary rest = true ->
    lexer (wrap gap indent stepback parts +:+ rest)
    = prepend (join_tokens groups) (lexer rest).
Proof.
  intros Hg Hi Hs H rest Hr. unfold wrap.
  destruct (String.eqb gap "").
  - change "," with ("," +:+ ""). now apply lexes_join.
  - rewrite !append_assoc.
    rewrite (lexer_ws newline) by reflexivity.
    rewrite lexer_ws by assumption.
    pose proof (lexes_join (newline +:+ indent) parts groups
                  (all_ws_app newline indent eq_refl Hi) H) as L.
    rewrite L by reflexivity.
    rewrite (lexer_ws newline) by reflexivity.
    now rewrite lexer_ws by assumption.
Qed.

Lemma serialize_JArr gap indent l :
  serialize gap indent (JArr l) =
  let parts := map (fun x => default "null" (serialize gap (indent +:+ gap) x)) l in
  match parts with
  | [] => Some "[]"
  | _ => Some ("[" +:+ wrap gap (indent +:+ gap) indent parts +:+ "]")
  end.
Proof. reflexivity. Qed.


Lemma serialize_JObj gap indent props :
  serialize gap indent (JObj props) =
  let parts := flat_map (member gap (indent +:+ gap)) props in
  match parts with
  | [] => Some "{}"
  | _ => Some ("{" +:+ wrap gap (indent +:+ gap) indent parts +:+ "}")
  end.
Proof. reflexivity. Qed.

Lemma lexes_member gap k str ts :
  lexes str ts ->
  lexes (quote k +:+ (if String.eqb gap "" then ":" else ": ") +:+ str)
        (member_tokens k ts).
Proof.
  intros H rest Hr. rewrite !append_assoc.
  rewrite lexes_quote by now destruct (String.eqb gap "").
  destruct (String.eqb gap "").
  - rewrite append_cons, append_empty_l, lexer_colon, (H _ Hr).
    now rewrite !prepend_prepend.
  - rewrite !append_cons, append_empty_l, lexer_colon.
    rewrite lexer_ws_char by reflexivity. rewrite (H _ Hr).
    now rewrite !prepend_prepend.
Qed.

Theorem serialize_lexes v :
  json_value v = true ->
  forall gap indent, all_ws gap = true -> all_ws indent = true ->
  exists str, serialize gap indent v = Some str /\ lexes str (tokens v).
Proof.
  induction v as [| |b|n| |s|l IH|props IH] using value_ind;
    intros Hv gap indent Hg Hi; try discriminate Hv.
  - eexists; split; [reflexivity | apply lexes_null].
  - destruct b; eexists; (split; [reflexivity|]); [apply lexes_true | apply lexes_false].
  - eexists; split; [reflexivity | now apply lexes_number].
  - eexists; split; [reflexivity | apply lexes_quote].
  - (* arrays *)
    rewrite serialize_JArr. cbv zeta.
    assert (Hparts : Forall2 lexes
              (map (fun x => default "null" (serialize gap (indent +:+ gap) x)) l)
              (map tokens l)).
    { simpl in Hv. induction IH as [|x l Hx _ IHl]; simpl; [constructor|].
      simpl in Hv. apply andb_true_iff in Hv as [Hvx Hvl].
      constructor; [|now apply IHl].
      destruct (Hx Hvx gap (indent +:+ gap)) as (str & -> & Hstr);
        auto using all_ws_app. }
    destruct l as [|x l].
    + eexists; split; [reflexivity|]. intros rest _. simpl.
      now rewrite !append_cons, append_empty_l, lexer_lbracket, lexer_rbracket, prepend_prepend.
    + remember (x :: l) as xs. simpl tokens.
      destruct (map _ xs) as [|p parts] eqn:E; [subst; discriminate|].
      eexists; split; [reflexivity|]. rewrite <- E in *. clear E.
      intros rest Hr. norm_append. rewrite lexer_lbracket.
      rewrite (lexes_wrap _ _ _ _ _ Hg (all_ws_app _ _ Hi Hg) Hi Hparts) by reflexivity.
      norm_append. rewrite lexer_rbracket.
      rewrite !prepend_prepend; f_equal; simpl; rewrite <- ?app_assoc; reflexivity.
  - (* objects *)
    rewrite serialize_JObj. cbv zeta.
    assert (Hparts : Forall2 lexes
              (flat_map (member gap (indent +:+ gap)) props)
              (map (fun kx => member_tokens (fst kx) (tokens (snd kx))) props)).
    { simpl in Hv. apply andb_true_iff in Hv as [_ Hv].
      induction IH as [|[k x] props Hx _ IHl]; simpl; [constructor|].
      simpl in Hv. apply andb_true_iff in Hv as [Hvx Hvl].
      apply andb_true_iff in Hvx as [_ Hvx].
      destruct (Hx Hvx gap (indent +:+ gap)) as (str & Hs & Hstr);
        auto using all_ws_app.
      unfold member at 1. simpl in *. rewrite Hs. simpl.
      constructor; [|now apply IHl]. now apply lexes_member. }
    destruct props as [|kx props].
    + eexists; split; [reflexivity|]. intros rest _. simpl.
      now rewrite !append_cons, append_empty_l, lexer_lbrace, lexer_rbrace, prepend_prepend.
    + remember (kx :: props) as xs. simpl tokens.
      destruct (flat_map _ xs) as [|p parts] eqn:E.
      { subst. inversion Hparts. }
      eexists; split; [reflexivity|]. rewrite <- E in *. clear E.
      intros rest Hr. norm_append. rewrite lexer_lbrace.
      rewrite (lexes_wrap _ _ _ _ _ Hg (all_ws_app _ _ Hi Hg) Hi Hparts) by reflexivity.
      norm_append. rewrite lexer_rbrace.
      rewrite !prepend_prepend; f_equal; simpl; rewrite <- ?app_assoc; reflexivity.
Qed.

Lemma parse_value_S fuel ts :
  parse_value (S fuel) ts =
  match ts with
  | TNull :: r => Normal (JNull, r)
  | TTrue :: r => Normal (JBool true, r)
  | TFalse :: r => Normal (JBool false, r)
  | TNumber n :: r => Normal (JNum n, r)
  | TString s :: r => Normal (JStr s, r)
  | TLBracket :: TRBracket :: r => Normal (JArr [], r)
  | TLBracket :: r => parse_elements fuel r []
  | TLBrace :: TRBrace :: r => Normal (JObj [], r)
  | TLBrace :: r => parse_members fuel r []
  | _ => Throw syntax_error
  end.
Proof. reflexivity. Qed.

Lemma parse_elements_S fuel ts acc :
  parse_elements (S fuel) ts acc =
  ('(x, r) <~ parse_value fuel ts ;
   match r with
   | TComma :: r' => parse_elements fuel r' (acc ++ [x])
   | TRBracket :: r' => Normal (JArr (acc ++ [x]), r')
   | _ => Throw syntax_error
   end).
Proof. reflexivity. Qed.

Lemma parse_members_S fuel ts acc :
  parse_members (S fuel) ts acc =
  match ts with
  | TString k :: TColon :: r =>
      '(x, r1) <~ parse_value fuel r ;
      acc' <~ define_prop acc k x ;
      match r1 with
      | TComma :: r' => parse_members fuel r' acc'
      | TRBrace :: r' => Normal (JObj acc', r')
      | _ => Throw syntax_error
      end
  | _ => Throw syntax_error
  end.
Proof. reflexivity. Qed.


Lemma tokens_head v : exists t ts, tokens v = t :: ts /\ opens_value t = true.
Proof. destruct v as [| |[]| | | | |]; simpl; eauto. Qed.

Lemma join_tokens_cons2 g g' groups :
  join_tokens (g :: g' :: groups) = g ++ TComma :: join_tokens (g' :: groups).
Proof. reflexivity. Qed.

Lemma assoc_set_fresh k x props :
  existsb (String.eqb k) (map fst props) = false ->
  assoc_set k x props = props ++ [(k, x)].
Proof.
  induction props as [|[k' x'] props IH]; simpl; intros H; [reflexivity|].
  apply orb_false_iff in H as [H1 H2]. rewrite H1. now rewrite IH.
Qed.


Local Arguments join_tokens : simpl never.

Lemma distinct_app_head ks k rest :
  distinct (ks ++ k :: rest) = true ->
  existsb (String.eqb k) ks = false.
Proof.
  induction ks as [|k' ks IH]; simpl; intros H; [reflexivity|].
  apply andb_true_iff in H as [H1 H2]. apply negb_true_iff in H1.
  rewrite existsb_app in H1. apply orb_false_iff in H1 as [_ H1].
  simpl in H1. apply orb_false_iff in H1 as [H1 _].
  rewrite String.eqb_sym, H1. simpl. auto.
Qed.

Section parse_tokens.
Let ok (v : value) : Prop :=
  forall fuel rest, length (tokens v) <= fuel ->
    parse_value fuel (tokens v ++ rest) = Normal (v, rest).

Lemma parse_elements_tokens xs :
  Forall ok xs -> forall x acc fuel rest,
  ok x ->
  length (join_tokens (map tokens (x :: xs))) < fuel ->
  parse_elements fuel (join_tokens (map tokens (x :: xs)) ++ TRBracket :: rest) acc
  = Normal (JArr (acc ++ x :: xs), rest).
Proof.
  induction 1 as [|x' xs Hx' Hxs IH]; intros x acc fuel rest Hx Hf.
  - destruct fuel as [|fuel]; [lia|]. simpl in Hf.
    rewrite parse_elements_S. simpl map. unfold join_tokens in *.
    rewrite Hx by lia. reflexivity.
  - destruct fuel as [|fuel]; [lia|].
    rewrite parse_elements_S.
    simpl map in *. rewrite join_tokens_cons2 in *.
    rewrite length_app in Hf. simpl length in Hf.
    rewrite <- app_assoc. rewrite Hx by lia. simpl.
    rewrite IH; auto.
    + now rewrite <- app_assoc.
    + destruct (tokens_head x) as (t & ts & E & _). rewrite E in Hf. simpl in *. lia.
Qed.

Let mtoks (kx : string * value) : list token :=
  member_tokens (fst kx) (tokens (snd kx)).

Lemma parse_members_tokens props :
  Forall (fun kx => ok (snd kx)) props -> forall k x acc fuel rest,
  ok x ->
  distinct (map fst acc ++ k :: map fst props) = true ->
  forallb (fun kx => negb (index_like (fst kx))) ((k, x) :: props) = true ->
  length (join_tokens (map mtoks ((k, x) :: props))) < fuel ->
  parse_members fuel
    (join_tokens (map mtoks ((k, x) :: props)) ++ TRBrace :: rest) acc
  = Normal (JObj (acc ++ (k, x) :: props), rest).
Proof.
  induction 1 as [|[k' x'] props Hx' Hxs IH];
    intros k x acc fuel rest Hx Hd Hi Hf.
  - destruct fuel as [|fuel]; [lia|].
    change (map mtoks [(k, x)]) with [TString k :: TColon :: tokens x] in *.
    unfold join_tokens in *. simpl length in Hf. simpl app.
    rewrite parse_members_S. rewrite Hx by lia. simpl.
    simpl in Hi. apply andb_true_iff in Hi as [Hi _]. apply negb_true_iff in Hi.
    unfold define_prop. rewrite Hi. simpl.
    rewrite assoc_set_fresh; [reflexivity|].
    apply distinct_app_head in Hd. apply Hd.
  - destruct fuel as [|fuel]; [lia|].
    change (map mtoks ((k, x) :: (k', x') :: props))
      with ((TString k :: TColon :: tokens x) :: map mtoks ((k', x') :: props)) in *.
    simpl map in *. rewrite join_tokens_cons2 in *.
    rewrite length_app in Hf. simpl length in Hf.
    rewrite <- app_assoc. simpl app.
    rewrite parse_members_S. rewrite Hx by lia. simpl.
    simpl in Hi. apply andb_true_iff in Hi as [Hi Hi']. apply negb_true_iff in Hi.
    unfold define_prop. rewrite Hi. simpl.
    rewrite assoc_set_fresh by (apply distinct_app_head in Hd; apply Hd).
    rewrite (IH k' x' (acc ++ [(k, x)]) fuel rest); auto.
    + now rewrite <- app_assoc.
    + rewrite map_app. simpl. rewrite <- app_assoc. exact Hd.
    + simpl. simpl in Hf. lia.
Qed.
End parse_tokens.


Lemma parse_value_tokens v :
  json_value v = true ->
  forall fuel rest, length (tokens v) <= fuel ->
    parse_value fuel (tokens v ++ rest) = Normal (v, rest).
Proof.
  induction v as [| |b|n| |s|l IH|props IH] using value_ind;
    intros Hv fuel rest Hf; try discriminate Hv;
    (destruct fuel as [|fuel];
     [ match type of Hf with
       | length (tokens ?v) <= _ =>
           destruct (tokens_head v) as (t & ts & E & _);
           rewrite E in Hf; simpl in Hf; lia
       end |]).
  - reflexivity.
  - now destruct b.
  - reflexivity.
  - reflexivity.
  - destruct l as [|x l].
    + reflexivity.
    + simpl in Hv. apply andb_true_iff in Hv as [Hx Hl].
      inversion IH as [|? ? IHx IHl]; subst.
      simpl tokens in *. simpl length in Hf. rewrite length_app in Hf.
      simpl length in Hf.
      rewrite <- app_comm_cons, <- app_assoc. cbn [app].
      rewrite parse_value_S.
      destruct (tokens_head x) as (t & ts & E & Ht).
      change (tokens x :: map tokens l) with (map tokens (x :: l)) in *.
      assert (Hj : exists ts', join_tokens (map tokens (x :: l)) = t :: ts').
      { simpl map. destruct (map tokens l); unfold join_tokens; fold join_tokens;
          rewrite E; simpl; eauto. }
      destruct Hj as (ts' & Hj). rewrite Hj at 1. simpl app.
      assert (Hgo : parse_elements fuel (join_tokens (map tokens (x :: l)) ++ TRBracket :: rest) []
                    = Normal (JArr (x :: l), rest)).
      { apply (parse_elements_tokens l) with (acc := []).
        - clear -IHl Hl. induction IHl as [|y l Hy _ IHl']; constructor.
          + intros f r. apply Hy. simpl in Hl. now apply andb_true_iff in Hl as [? _].
          + apply IHl'. simpl in Hl. now apply andb_true_iff in Hl as [_ ?].
        - intros f r. now apply IHx.
        - lia. }
      destruct t; try discriminate Ht; exact Hgo.
  - destruct props as [|[k x] props].
    + reflexivity.
    + simpl in Hv. apply andb_true_iff in Hv as [Hd Hall].
      pose proof Hall as Hall'.
      apply andb_true_iff in Hall as [Hx Hl]. apply andb_true_iff in Hx as [Hk Hx].
      inversion IH as [|? ? IHx IHl]; subst. simpl in IHx.
      simpl tokens in *. simpl length in Hf. rewrite length_app in Hf.
      simpl length in Hf.
      rewrite <- app_comm_cons, <- app_assoc. cbn [app].
      rewrite parse_value_S.
      set (mtoks := fun kx : string * value => member_tokens kx.1 (tokens kx.2)) in *.
      change (member_tokens k (tokens x) :: map mtoks props)
        with (map mtoks ((k, x) :: props)) in *.
      assert (Hj : exists ts', join_tokens (map mtoks ((k, x) :: props)) = TString k :: ts').
      { simpl map. destruct (map mtoks props); unfold join_tokens; fold join_tokens;
          simpl; eauto. }
      destruct Hj as (ts' & Hj). rewrite Hj at 1. simpl app.
      assert (Hgo : parse_members fuel (join_tokens (map mtoks ((k, x) :: props)) ++ TRBrace :: rest) []
                    = Normal (JObj ((k, x) :: props), rest)).
      { apply (parse_members_tokens props) with (acc := []).
        - clear -IHl Hl. induction IHl as [|y l Hy _ IHl']; constructor.
          + intros f r. apply Hy. simpl in Hl.
            apply andb_true_iff in Hl as [Hl _]. now apply andb_true_iff in Hl as [_ ?].
          + apply IHl'. simpl in Hl. now apply andb_true_iff in Hl as [_ ?].
        - intros f r. now apply IHx.
        - exact Hd.
        - simpl. simpl in Hk. rewrite Hk. simpl.
          clear -Hl. induction props as [|[k' x'] props IHp]; simpl in *; [reflexivity|].
          apply andb_true_iff in Hl as [H1 H2]. apply andb_true_iff in H1 as [H1 _].
          rewrite H1. simpl. auto.
        - subst mtoks. cbv beta in *. lia. }
      exact Hgo.
Qed.

(** Parsing what [serialize] wrote gives the value back. *)
Theorem parse_serialize v gap :
  json_value v = true -> all_ws gap = true ->
  exists str, serialize gap "" v = Some str /\ parse str = Normal v.
Proof.
  intros Hv Hg.
  destruct (serialize_lexes v Hv gap "" Hg eq_refl) as (str & Hs & Hl).
  exists str. split; [assumption|].
  unfold parse. specialize (Hl "" eq_refl). rewrite append_empty_r in Hl.
  rewrite Hl. change (lexer "") with (Normal (@nil token)).
  unfold prepend. cbn [cbind]. rewrite app_nil_r.
  pose proof (parse_value_tokens v Hv (S (length (tokens v))) [] ltac:(lia)) as Hp.
  rewrite app_nil_r in Hp. rewrite Hp. reflexivity.
Qed.


Lemma prepend_inv ts r l :
  prepend ts r = Normal l -> exists l', r = Normal l' /\ l = ts ++ l'.
Proof. destruct r; simpl; intros H; inversion H; eauto. Qed.

Lemma cbind_inv {A B} (c : completion A) (k : A -> completion B) b :
  cbind c k = Normal b -> exists a, c = Normal a /\ k a = Normal b.
Proof. destruct c; simpl; intros H; try discriminate; eauto. Qed.

Lemma lex_unsigned_safe neg s n rest :
  lex_unsigned neg s = Normal (n, rest) -> exact_integer n = true.
Proof.
  unfold lex_unsigned. destruct (lex_digits s) as [d r].
  destruct (_ || _); [discriminate|].
  destruct (starts_fraction_or_exponent r); [discriminate|].
  destruct (exact_integer _) eqn:E; [|discriminate].
  intros H; inversion H; subst. exact E.
Qed.

Lemma lex_number_safe s n rest :
  lex_number s = Normal (n, rest) -> exact_integer n = true.
Proof.
  unfold lex_number. destruct s as [|c s]; [apply lex_unsigned_safe|].
  destruct (Ascii.eqb c "-"); apply lex_unsigned_safe.
Qed.

Lemma lex_tokens_ok fuel s ts :
  lex fuel s = Normal ts -> forallb token_ok ts = true.
Proof.
  revert s ts. induction fuel as [|fuel IH]; intros s ts H.
  - destruct s; simpl in H; inversion H; reflexivity.
  - rewrite lex_S in H. destruct s as [|c s]; simpl in H.
    { inversion H; reflexivity. }
    repeat match type of H with
    | (if ?b then _ else _) = _ => destruct b
    | prepend _ _ = _ =>
        apply prepend_inv in H as (l' & H & ->); simpl; eauto
    end; eauto.
    + apply cbind_inv in H as ([str rest] & _ & H).
      apply prepend_inv in H as (l' & H & ->); simpl; eauto.
    + apply cbind_inv in H as ([n rest] & Hn & H).
      apply prepend_inv in H as (l' & H & ->). simpl.
      rewrite (lex_number_safe (String c s) _ _ Hn). simpl. eauto.
    + unfold lex_literal in H.
      repeat match type of H with
      | match ?o with _ => _ end = _ => destruct o
      | prepend _ _ = _ =>
          apply prepend_inv in H as (l' & H & ->); simpl; eauto
      end. discriminate.
Qed.

Lemma existsb_assoc_set k0 k x props :
  k0 <> k ->
  existsb (String.eqb k0) (map fst (assoc_set k x props))
  = existsb (String.eqb k0) (map fst props).
Proof.
  intros Hne. apply String.eqb_neq in Hne.
  induction props as [|[k' x'] props IHp]; simpl.
  - now rewrite Hne.
  - destruct (String.eqb_spec k k') as [->|Hk]; simpl; [reflexivity|].
    now rewrite IHp.
Qed.

Lemma distinct_assoc_set k x props :
  distinct (map fst props) = true ->
  distinct (map fst (assoc_set k x props)) = true.
Proof.
  induction props as [|[k' x'] props IHp]; simpl; intros H; [reflexivity|].
  apply andb_true_iff in H as [H1 H2].
  destruct (String.eqb_spec k k') as [->|Hne]; simpl.
  - now rewrite H1, H2.
  - rewrite IHp by assumption. rewrite andb_true_r.
    rewrite existsb_assoc_set by congruence. exact H1.
Qed.

Lemma forallb_assoc_set (p : string * value -> bool) k x props :
  p (k, x) = true -> forallb p props = true ->
  forallb p (assoc_set k x props) = true.
Proof.
  intros Hp. induction props as [|[k' x'] props IHp]; simpl; intros H.
  - now rewrite Hp.
  - apply andb_true_iff in H as [H1 H2].
    destruct (String.eqb k k'); simpl.
    + now rewrite Hp, H2.
    + now rewrite H1, IHp.
Qed.


Lemma parse_value_json fuel :
  (forall ts v rest, forallb token_ok ts = true ->
     parse_value fuel ts = Normal (v, rest) ->
     json_value v = true /\ forallb token_ok rest = true) /\
  (forall ts acc v rest, forallb token_ok ts = true ->
     forallb json_value acc = true ->
     parse_elements fuel ts acc = Normal (v, rest) ->
     json_value v = true /\ forallb token_ok rest = true) /\
  (forall ts acc v rest, forallb token_ok ts = true ->
     distinct (map fst acc) = true -> forallb member_ok acc = true ->
     parse_members fuel ts acc = Normal (v, rest) ->
     json_value v = true /\ forallb token_ok rest = true).
Proof.
  induction fuel as [|fuel (IHv & IHe & IHm)].
  { split; [|split]; intros; discriminate. }
  split; [|split].
  - intros ts v rest Hts H. rewrite parse_value_S in H.
    destruct ts as [|t ts0]; [discriminate|]. simpl in Hts.
    apply andb_true_iff in Hts as [Ht Hts].
    destruct t; try discriminate; try (inversion H; subst; auto; fail).
    + destruct ts0 as [|t' ts']; [eapply (IHm _ []); eauto|].
      destruct t'; try (inversion H; subst; simpl in Hts; auto; fail);
        try (eapply (IHm _ []); eauto; fail).
    + destruct ts0 as [|t' ts']; [eapply (IHe _ []); eauto|].
      destruct t'; try (inversion H; subst; simpl in Hts; auto; fail);
        try (eapply (IHe _ []); eauto; fail).
  - intros ts acc v rest Hts Hacc H. rewrite parse_elements_S in H.
    apply cbind_inv in H as ([x r] & Hx & H).
    destruct (IHv _ _ _ Hts Hx) as [Hjx Hr].
    destruct r as [|t r]; [discriminate|].
    simpl in Hr. apply andb_true_iff in Hr as [_ Hr].
    assert (Hacc' : forallb json_value (acc ++ [x]) = true).
    { rewrite forallb_app, Hacc. simpl. now rewrite Hjx. }
    destruct t; try discriminate.
    + inversion H; subst. auto.
    + eapply IHe; eauto.
  - intros ts acc v rest Hts Hd Hacc H. rewrite parse_members_S in H.
    destruct ts as [|[] [|[] ts0]]; try discriminate.
    simpl in Hts.
    apply cbind_inv in H as ([x r] & Hx & H).
    destruct (IHv _ _ _ Hts Hx) as [Hjx Hr].
    apply cbind_inv in H as (acc' & Hdef & H).
    unfold define_prop in Hdef. destruct (index_like s) eqn:Hidx; [discriminate|].
    inversion Hdef; subst acc'.
    assert (Hd' := distinct_assoc_set s x acc Hd).
    assert (Hacc' : forallb member_ok (assoc_set s x acc) = true).
    { apply forallb_assoc_set; [|assumption]. unfold member_ok. simpl.
      now rewrite Hidx, Hjx. }
    destruct r as [|t r]; [discriminate|].
    simpl in Hr. apply andb_true_iff in Hr as [_ Hr].
    destruct t; try discriminate.
    + inversion H; subst. split; [|assumption]. simpl. now rewrite Hd'.
    + eapply IHm; eauto.
Qed.

(** Whatever [JSON.parse] returns is a JSON value of the model. *)
Theorem parse_json_value text v : parse text = Normal v -> json_value v = true.
Proof.
  unfold parse. intros H.
  apply cbind_inv in H as (ts & Hts & H).
  apply cbind_inv in H as ([v' rest] & Hv & H).
  destruct rest; [|discriminate]. inversion H; subst.
  apply lex_tokens_ok in Hts.
  eapply (proj1 (parse_value_json _)); eauto.
Qed.


(** * Properties of the program *)

(** ** Running the repository functions *)

Lemma stored_same w w' todos :
  todos_json w' = todos_json w -> stored w todos -> stored w' todos.
Proof. intros E (c & Hc & Hp). exists c. now rewrite E. Qed.

Lemma readTodos_stored w todos :
  stored w todos ->
  readTodos w = (add_fs_call (ReadFile "todos.json") w, Normal (JArr todos)).
Proof.
  intros (content & Hc & Hp).
  unfold readTodos, try_catch, bind, readFile_todos, lift.
  cbn [todos_json add_fs_call]. rewrite Hc, Hp. reflexivity.
Qed.

(** [readTodos] never throws: an unreadable or malformed file makes it
    return [undefined], after a line on stderr. *)
Lemma readTodos_failure w :
  (todos_json w = None \/
   exists content e, todos_json w = Some content /\ JSON.parse content = Throw e) ->
  readTodos w
  = (add_stderr "Error reading file:" (add_fs_call (ReadFile "todos.json") w),
     Normal JUndefined).
Proof.
  unfold readTodos, try_catch, bind, readFile_todos, lift, console_error, ret.
  cbn [todos_json add_fs_call].
  intros [H | (content & e & Hc & Hp)].
  - rewrite H. reflexivity.
  - rewrite Hc, Hp. reflexivity.
Qed.

Lemma logs_emit_spec message w :
  exists w1, logs_emit message w = (w1, Normal tt) /\
    todos_json w1 = todos_json w /\ todos_writable w1 = todos_writable w /\
    stderr w1 = stderr w /\ repository_calls w1 = repository_calls w.
Proof.
  unfold logs_emit, log_listener, appendFile_logs, repository_calls.
  cbn [logs_appendable add_fs_call].
  destruct (logs_appendable w); eexists; (split; [reflexivity|]);
    cbn; rewrite filter_app; cbn; rewrite app_nil_r; auto.
Qed.

Lemma writeFile_todos_ok data w :
  todos_writable w = true ->
  writeFile_todos (Some data) w
  = (set_todos_json (Some data) (add_fs_call (WriteFile "todos.json" data) w),
     Normal tt).
Proof. intros H. unfold writeFile_todos. cbn. now rewrite H. Qed.

Lemma deleteTodo_not_found w todos id :
  stored w todos ->
  array_findIndex (has_id id) todos = Normal None ->
  deleteTodo id w
  = (add_fs_call (ReadFile "todos.json") w, Throw (new_Error "Error deleting todo:")).
Proof.
  intros Hs Hi. unfold deleteTodo, try_catch, bind.
  rewrite (readTodos_stored _ _ Hs). unfold lift, array_of. rewrite Hi.
  reflexivity.
Qed.

(** A DELETE for an id that no stored todo has is answered with 500: the
    message of the error that [deleteTodo] rethrows is "Error deleting
    todo:", in which the handler finds no "not found". *)
Lemma delete_todo_not_found w todos id req :
  stored w todos ->
  array_findIndex (has_id id) todos = Normal None ->
  parseInt (query_id req) = Normal (Some id) ->
  snd (delete_todo req w)
  = Normal (Response 500 None (js "{'error':'Failed to delete todo'}")).
Proof.
  intros Hs Hi Hq. unfold delete_todo, bind, try_catch, lift.
  destruct (logs_emit_spec (method req +:+ " - " +:+ url req) w)
    as (w1 & -> & Hj & _).
  rewrite Hq.
  rewrite (deleteTodo_not_found w1 todos id (stored_same _ _ _ Hj Hs) Hi).
  reflexivity.
Qed.

(** C1, at the input of the scenario: DELETE /todos/?id=99 on the empty
    collection is answered with 500 and the body
    {"error":"Failed to delete todo"}, not with 404. *)
Example delete_missing_id_scenario :
  snd (server (Request "DELETE" "/todos/?id=99" (JStr "99") "")
              (fresh_world (Some "[]")))
  = Normal (Response 500 None (js "{'error':'Failed to delete todo'}")).
Proof. vm_compute. reflexivity. Qed.

(** C2: with [todos.json] missing, or holding text that is not JSON,
    [readTodos] returns [undefined] instead of failing, and GET /todos
    answers 200 with an empty body. *)
Example get_todos_storage_failure :
  snd (readTodos (fresh_world None)) = Normal JUndefined /\
  snd (readTodos (fresh_world (Some "{"))) = Normal JUndefined /\
  snd (server (Request "GET" "/todos" JUndefined "") (fresh_world None))
  = Normal (Response 200 application_json "") /\
  snd (server (Request "GET" "/todos" JUndefined "") (fresh_world (Some "{")))
  = Normal (Response 200 application_json "").
Proof. vm_compute. auto. Qed.

(** The same on every world: GET /todos answers 200 with an empty body
    whenever the collection cannot be loaded. *)
Lemma get_todos_failure req w :
  (todos_json w = None \/
   exists content e, todos_json w = Some content /\ JSON.parse content = Throw e) ->
  snd (get_todos req w) = Normal (Response 200 application_json "").
Proof.
  intros H. unfold get_todos, bind, try_catch.
  destruct (logs_emit_spec (method req +:+ " - " +:+ url req) w)
    as (w1 & -> & Hj & _).
  rewrite readTodos_failure by now rewrite Hj. reflexivity.
Qed.

(** ** Routing *)

Lemma by_id_url req :
  startsWith (url req) "/todos/" = true -> String.eqb (url req) "/todos" = false.
Proof.
  intros H. destruct (String.eqb_spec (url req) "/todos") as [E|]; [|reflexivity].
  rewrite E in H. discriminate H.
Qed.

Lemma server_get_todos req :
  url req = "/todos" -> method req = "GET" -> server req = get_todos req.
Proof. intros Hu Hm. unfold server. now rewrite Hu, Hm. Qed.

Lemma server_get_todo req :
  startsWith (url req) "/todos/" = true -> method req = "GET" ->
  server req = get_todo req.
Proof. intros Hu Hm. unfold server. now rewrite (by_id_url _ Hu), Hu, Hm. Qed.

Lemma server_post_todo req :
  url req = "/todos" -> method req = "POST" -> server req = post_todo req.
Proof. intros Hu Hm. unfold server. now rewrite Hu, Hm. Qed.

Lemma server_put_todo req :
  startsWith (url req) "/todos/" = true -> method req = "PUT" ->
  server req = put_todo req.
Proof. intros Hu Hm. unfold server. now rewrite (by_id_url _ Hu), Hu, Hm. Qed.

Lemma server_delete_todo req :
  startsWith (url req) "/todos/" = true -> method req = "DELETE" ->
  server req = delete_todo req.
Proof. intros Hu Hm. unfold server. now rewrite (by_id_url _ Hu), Hu, Hm. Qed.

Lemma by_id_invalid req w :
  by_id_route req -> parseInt (query_id req) = Normal None ->
  exists w', server req w = (w', Normal invalid_id_response) /\
    todos_json w' = todos_json w /\ repository_calls w' = repository_calls w.
Proof.
  intros [Hu Hm] Hq.
  destruct (logs_emit_spec (method req +:+ " - " +:+ url req) w)
    as (w1 & Hlog & Hj & _ & _ & Hc).
  exists w1. split; [|auto].
  destruct Hm as [Hm | [Hm | Hm]];
    [ rewrite (server_get_todo _ Hu Hm); unfold get_todo
    | rewrite (server_put_todo _ Hu Hm); unfold put_todo
    | rewrite (server_delete_todo _ Hu Hm); unfold delete_todo ];
    unfold bind, lift; rewrite Hlog, Hq; reflexivity.
Qed.

Lemma by_id_valid req w id :
  by_id_route req -> parseInt (query_id req) = Normal (Some id) ->
  snd (server req w) <> Normal invalid_id_response.
Proof.
  intros [Hu Hm] Hq.
  destruct (logs_emit_spec (method req +:+ " - " +:+ url req) w)
    as (w1 & Hlog & _).
  destruct Hm as [Hm | [Hm | Hm]].
  - rewrite (server_get_todo _ Hu Hm). unfold get_todo, bind, lift, try_catch.
    rewrite Hlog, Hq.
    destruct (getTodoById id w1) as [w2 [todo|e|]]; cbn; discriminate.
  - rewrite (server_put_todo _ Hu Hm). unfold put_todo, bind, lift, try_catch.
    rewrite Hlog, Hq.
    destruct (JSON.parse (body req)) as [updates|e|]; cbn; try discriminate.
    destruct (get_prop updates "title") as [title|e|]; cbn; try discriminate.
    destruct (truthy title); cbn; try discriminate.
    destruct (updateTodo id updates w1) as [w2 [todo|e|]]; cbn; discriminate.
  - rewrite (server_delete_todo _ Hu Hm). unfold delete_todo, bind, lift, try_catch.
    rewrite Hlog, Hq.
    destruct (deleteTodo id w1) as [w2 [todo|e|]]; cbn; try discriminate.
    destruct (includes (message e) "not found"); cbn; discriminate.
Qed.

(** C10: the id check takes the integer prefix that [parseInt] finds.
    "12abc", "1.9", "-5" and "0" are the ids 12, 1, -5 and 0; a GET, PUT or
    DELETE by id is answered 400 "Invalid id" exactly when [parseInt] gives
    NaN; and what follows the integer prefix changes nothing. *)
Theorem id_check_is_parseInt :
  parseInt (JStr "12abc") = Normal (Some 12%Z) /\
  parseInt (JStr "1.9") = Normal (Some 1%Z) /\
  parseInt (JStr "-5") = Normal (Some (-5)%Z) /\
  parseInt (JStr "0") = Normal (Some 0%Z) /\
  (forall req w, by_id_route req ->
     (snd (server req w) = Normal invalid_id_response
      <-> parseInt (query_id req) = Normal None)) /\
  (forall req q w, by_id_route req ->
     parseInt q = parseInt (query_id req) ->
     server (with_query_id q req) w = server req w).
Proof.
  repeat (split; [reflexivity|]). split.
  - intros req w Hr. split.
    + intros H. destruct (parseInt (query_id req)) as [[id|]|e|] eqn:Hq.
      * now destruct (by_id_valid req w id Hr Hq).
      * reflexivity.
      * exfalso. destruct Hr as [Hu Hm].
        destruct (logs_emit_spec (method req +:+ " - " +:+ url req) w)
          as (w1 & Hlog & _).
        destruct Hm as [Hm | [Hm | Hm]];
          [ rewrite (server_get_todo _ Hu Hm) in H; unfold get_todo in H
          | rewrite (server_put_todo _ Hu Hm) in H; unfold put_todo in H
          | rewrite (server_delete_todo _ Hu Hm) in H; unfold delete_todo in H ];
          unfold bind, lift in H; rewrite Hlog, Hq in H; discriminate H.
      * exfalso. destruct Hr as [Hu Hm].
        destruct (logs_emit_spec (method req +:+ " - " +:+ url req) w)
          as (w1 & Hlog & _).
        destruct Hm as [Hm | [Hm | Hm]];
          [ rewrite (server_get_todo _ Hu Hm) in H; unfold get_todo in H
          | rewrite (server_put_todo _ Hu Hm) in H; unfold put_todo in H
          | rewrite (server_delete_todo _ Hu Hm) in H; unfold delete_todo in H ];
          unfold bind, lift in H; rewrite Hlog, Hq in H; discriminate H.
    + intros Hq. destruct (by_id_invalid req w Hr Hq) as (w' & -> & _). reflexivity.
  - intros req q w [Hu Hm] Hq.
    assert (Hu' : startsWith (url (with_query_id q req)) "/todos/" = true) by exact Hu.
    destruct Hm as [Hm | [Hm | Hm]];
      [ rewrite (server_get_todo _ Hu Hm), (server_get_todo _ Hu' Hm); unfold get_todo
      | rewrite (server_put_todo _ Hu Hm), (server_put_todo _ Hu' Hm); unfold put_todo
      | rewrite (server_delete_todo _ Hu Hm), (server_delete_todo _ Hu' Hm);
        unfold delete_todo ];
      cbn [with_query_id method url query_id body]; now rewrite Hq.
Qed.

Lemma id_check_is_parseInt_witness :
  snd (server (Request "GET" "/todos/?id=12abc" (JStr "12abc") "")
              (fresh_world (Some (js "[{'id':12,'title':'a','completed':false}]"))))
  = Normal (Response 200 application_json
              (js "{'id':12,'title':'a','completed':false}")) /\
  (snd (server (Request "DELETE" "/todos/?id=x" (JStr "x") "") (fresh_world (Some "[]")))
   = Normal invalid_id_response
   <-> parseInt (JStr "x") = Normal None).
Proof.
  split; [vm_compute; reflexivity|].
  apply (proj1 (proj2 (proj2 (proj2 (proj2 id_check_is_parseInt))))
           (Request "DELETE" "/todos/?id=x" (JStr "x") "") (fresh_world (Some "[]"))).
  split; [reflexivity | auto].
Defined.

(** ** Input validation *)

Lemma console_error_spec label w :
  console_error label w = (add_stderr label w, Normal tt).
Proof. reflexivity. Qed.

(** C8: a request that fails input validation is answered with status 400;
    no call into [fs] touches [todos.json] and the stored collection is what
    it was. *)
Theorem validation_error_responds_400 req w :
  validation_error req ->
  exists w' resp,
    server req w = (w', Normal resp) /\
    statusCode resp = 400%Z /\
    todos_json w' = todos_json w /\
    repository_calls w' = repository_calls w.
Proof.
  destruct (logs_emit_spec (method req +:+ " - " +:+ url req) w)
    as (w1 & Hlog & Hj & _ & _ & Hc).
  assert (Herr : forall label,
            todos_json (add_stderr label w1) = todos_json w /\
            repository_calls (add_stderr label w1) = repository_calls w).
  { intros label. split; [exact Hj | exact Hc]. }
  intros [Hr Hq | e Hm Hu Hp | parsedBody Hm Hu Hp (title & Ht & Hf)
         | id e Hm Hu Hq Hp | id updates Hm Hu Hq Hp (title & Ht & Hf)].
  - destruct (by_id_invalid req w Hr Hq) as (w' & Hs & Hj' & Hc').
    exists w', invalid_id_response. auto.
  - rewrite (server_post_todo _ Hu Hm).
    unfold post_todo, bind, try_catch, lift. rewrite Hlog, Hp.
    rewrite console_error_spec. cbn [ret].
    eexists _, _. split; [reflexivity|]. split; [reflexivity | apply Herr].
  - rewrite (server_post_todo _ Hu Hm).
    unfold post_todo, bind, try_catch, lift. rewrite Hlog, Hp, Ht, Hf.
    cbn [negb ret].
    eexists _, _. split; [reflexivity|]. auto.
  - rewrite (server_put_todo _ Hu Hm).
    unfold put_todo, bind, try_catch, lift. rewrite Hlog, Hq, Hp.
    rewrite console_error_spec. cbn [ret].
    eexists _, _. split; [reflexivity|]. split; [reflexivity | apply Herr].
  - rewrite (server_put_todo _ Hu Hm).
    unfold put_todo, bind, try_catch, lift. rewrite Hlog, Hq, Hp, Ht, Hf.
    cbn [negb ret].
    eexists _, _. split; [reflexivity|]. auto.
Qed.

Lemma validation_error_responds_400_witness :
  exists w' resp,
    server (Request "PUT" "/todos/?id=1" (JStr "1") (js "{'title':''}"))
           (fresh_world (Some "[]")) = (w', Normal resp) /\
    statusCode resp = 400%Z /\
    todos_json w' = Some "[]" /\
    repository_calls w' = [].
Proof.
  apply (validation_error_responds_400
           (Request "PUT" "/todos/?id=1" (JStr "1") (js "{'title':''}"))
           (fresh_world (Some "[]"))).
  apply (put_no_title _ 1%Z (JObj [("title", JStr "")])); try reflexivity.
  exists (JStr ""). split; reflexivity.
Defined.

(** ** Arrays, objects and ids *)

Lemma serialize_array gap indent l :
  exists data, JSON.serialize gap indent (JArr l) = Some data.
Proof.
  rewrite serialize_JArr. cbv zeta. destruct (map _ l); eauto.
Qed.

Lemma array_findIndex_Some f l i :
  array_findIndex f l = Normal (Some i) ->
  exists x, l !! i = Some x /\ f x = Normal true.
Proof.
  revert i. induction l as [|y l IH]; intros i H; simpl in H; [discriminate|].
  destruct (f y) as [[]| |] eqn:Hy; simpl in H; try discriminate.
  - inversion H; subst. exists y. auto.
  - destruct (array_findIndex f l) as [[j|]| |]; simpl in H; try discriminate.
    inversion H; subst. destruct (IH j eq_refl) as (x & Hx & Hfx). eauto.
Qed.

Lemma array_findIndex_None f l :
  array_findIndex f l = Normal None -> array_find f l = Normal JUndefined.
Proof.
  induction l as [|y l IH]; intros H; simpl in *; [reflexivity|].
  destruct (f y) as [[]| |]; simpl in *; try discriminate.
  destruct (array_findIndex f l) as [[j|]| |]; simpl in H; try discriminate.
  now apply IH.
Qed.

Lemma has_id_true id x :
  has_id id x = Normal true ->
  exists props, x = JObj props /\ assoc_get "id" props = Some (JNum id).
Proof.
  unfold has_id. destruct x as [| |b|n| |s|l|props]; simpl; intros H;
    try discriminate.
  exists props. split; [reflexivity|].
  destruct (assoc_get "id" props) as [[| |b|n| |s|l|ps]|]; simpl in H;
    try discriminate.
  inversion H as [Hn]. apply Z.eqb_eq in Hn. now subst.
Qed.

Lemma todo_id_has_id id x n :
  todo_id x = Some n -> has_id id x = Normal (n =? id)%Z.
Proof.
  unfold todo_id, has_id. destruct x as [| |b|m| |s|l|props]; try discriminate.
  simpl. destruct (assoc_get "id" props) as [[| |b|m| |s|l|ps]|]; try discriminate.
  intros H; inversion H; subst. reflexivity.
Qed.

Lemma todo_ids_lookup todos ids i x :
  todo_ids todos = Some ids -> todos !! i = Some x ->
  exists n, ids !! i = Some n /\ todo_id x = Some n.
Proof.
  revert ids i. induction todos as [|y todos IH]; intros ids i H Hx; [discriminate|].
  simpl in H. destruct (todo_id y) as [m|] eqn:Hy; [|discriminate].
  destruct (todo_ids todos) as [ms|] eqn:Hms; [|discriminate].
  inversion H; subst. destruct i as [|i]; simpl in *.
  - inversion Hx; subst. eauto.
  - eapply IH; eauto.
Qed.

Lemma todo_ids_app todos ids x n :
  todo_ids todos = Some ids -> todo_id x = Some n ->
  todo_ids (todos ++ [x]) = Some (ids ++ [n]).
Proof.
  revert ids. induction todos as [|y todos IH]; intros ids H Hx; simpl in *.
  - inversion H; subst. now rewrite Hx.
  - destruct (todo_id y); [|discriminate].
    destruct (todo_ids todos); [|discriminate].
    inversion H; subst. now rewrite (IH _ eq_refl Hx).
Qed.

Lemma todo_ids_delete todos ids i :
  todo_ids todos = Some ids -> todo_ids (delete i todos) = Some (delete i ids).
Proof.
  revert ids i. induction todos as [|y todos IH]; intros ids i H; simpl in H.
  - inversion H; subst. now destruct i.
  - destruct (todo_id y) eqn:Hy; [|discriminate].
    destruct (todo_ids todos) eqn:Hr; [|discriminate].
    inversion H; subst. destruct i as [|i]; simpl.
    + assumption.
    + change (todo_ids (y :: delete i todos) = Some (z :: delete i l)).
      simpl. now rewrite Hy, (IH _ i eq_refl).
Qed.

Lemma todo_ids_insert todos ids i x n :
  todo_ids todos = Some ids -> ids !! i = Some n -> todo_id x = Some n ->
  todo_ids (<[i := x]> todos) = Some ids.
Proof.
  revert ids i. induction todos as [|y todos IH]; intros ids i H Hn Hx; simpl in H.
  - inversion H; subst. now destruct i.
  - destruct (todo_id y) eqn:Hy; [|discriminate].
    destruct (todo_ids todos) eqn:Hr; [|discriminate].
    inversion H; subst. destruct i as [|i]; simpl in *.
    + inversion Hn; subst. now rewrite Hx, Hr.
    + change (todo_ids (y :: <[i:=x]> todos) = Some (z :: l)).
      simpl. now rewrite Hy, (IH _ i eq_refl Hn Hx).
Qed.

Lemma todo_ids_last todos ids :
  todo_ids todos = Some ids ->
  match last todos with
  | Some x => get_prop x "id"
  | None => Normal (JNum 0)
  end = Normal (JNum (default 0%Z (last ids))).
Proof.
  revert ids. induction todos as [|y todos IH]; intros ids H; simpl in H.
  - inversion H; subst. reflexivity.
  - destruct (todo_id y) as [n|] eqn:Hy; [|discriminate].
    destruct (todo_ids todos) as [ns|] eqn:Hr; [|discriminate].
    inversion H; subst. specialize (IH _ eq_refl).
    destruct todos as [|y' todos].
    + simpl in Hr. inversion Hr; subst. simpl.
      unfold todo_id in Hy. destruct y; try discriminate. simpl.
      destruct (assoc_get "id" props) as [[]|]; try discriminate.
      now inversion Hy.
    + destruct ns as [|n' ns].
      { simpl in Hr. destruct (todo_id y'); [|discriminate].
        destruct (todo_ids todos); discriminate. }
      exact IH.
Qed.

Lemma nondecreasing_last ids n :
  nondecreasing ids = true -> last ids = Some n ->
  Forall (fun i => (i <= n)%Z) ids.
Proof.
  induction ids as [|a ids IH]; intros H Hl; [constructor|].
  destruct ids as [|b ids].
  - simpl in Hl. inversion Hl; subst. repeat constructor. lia.
  - simpl in H. apply andb_true_iff in H as [Hab H].
    specialize (IH H Hl). constructor; [|exact IH].
    inversion IH; subst. apply Z.leb_le in Hab. lia.
Qed.

Lemma ascending_app ids n :
  ascending ids = true ->
  (forall m, last ids = Some m -> (m < n)%Z) ->
  ascending (ids ++ [n]) = true.
Proof.
  induction ids as [|a ids IH]; intros H Hl; [reflexivity|].
  destruct ids as [|b ids].
  - simpl. rewrite andb_true_r. apply Z.ltb_lt. now apply Hl.
  - simpl in H. apply andb_true_iff in H as [Hab H].
    change ((a <? b)%Z && ascending ((b :: ids) ++ [n]) = true).
    rewrite Hab. simpl. apply IH; auto.
Qed.

Lemma ascending_lt a ids :
  ascending (a :: ids) = true -> Forall (fun i => (a < i)%Z) ids.
Proof.
  revert a. induction ids as [|b ids IH]; intros a H; [constructor|].
  simpl in H. apply andb_true_iff in H as [Hab H]. apply Z.ltb_lt in Hab.
  constructor; [assumption|].
  specialize (IH b H). eapply Forall_impl; [exact IH|].
  intros i Hi. simpl in Hi. lia.
Qed.

Lemma ascending_tail a ids : ascending (a :: ids) = true -> ascending ids = true.
Proof.
  destruct ids as [|b ids]; [reflexivity|]. simpl.
  intros H. now apply andb_true_iff in H as [_ H].
Qed.

Lemma ascending_delete ids i :
  ascending ids = true -> ascending (delete i ids) = true.
Proof.
  revert i. induction ids as [|a ids IH]; intros i H; [now destruct i|].
  destruct i as [|i]; simpl.
  - now apply ascending_tail in H.
  - change (ascending (a :: delete i ids) = true).
    pose proof (ascending_lt _ _ H) as Hlt.
    pose proof (IH i (ascending_tail _ _ H)) as Hd.
    destruct (delete i ids) as [|b rest] eqn:E; [reflexivity|].
    change ((a <? b)%Z && ascending (b :: rest) = true).
    rewrite Hd, andb_true_r. apply Z.ltb_lt.
    assert (Hin : b ∈ delete i ids) by (rewrite E; left).
    apply list_elem_of_delete_inv in Hin.
    rewrite Forall_forall in Hlt. now apply Hlt.
Qed.

Lemma ascending_unique ids : ascending ids = true -> unique ids = true.
Proof.
  induction ids as [|a ids IH]; intros H; [reflexivity|].
  simpl. rewrite (IH (ascending_tail _ _ H)), andb_true_r.
  apply negb_true_iff. apply not_true_is_false. intros Hex.
  apply existsb_exists in Hex as (b & Hb & Hab). apply Z.eqb_eq in Hab. subst b.
  pose proof (ascending_lt _ _ H) as Hlt. rewrite Forall_forall in Hlt.
  apply list_elem_of_In in Hb. specialize (Hlt _ Hb). simpl in Hlt. lia.
Qed.

Lemma max_id_ascending ids :
  ascending ids = true -> max_id ids = default 0%Z (last ids).
Proof.
  destruct ids as [|a ids]; [reflexivity|]. simpl max_id.
  revert a. induction ids as [|b ids IH]; intros a H; [reflexivity|].
  simpl in H. apply andb_true_iff in H as [Hab H]. apply Z.ltb_lt in Hab.
  simpl fold_left. rewrite Z.max_r by lia. rewrite (IH b H).
  reflexivity.
Qed.

(** ** Objects *)

Lemma assoc_get_set k k' x props :
  assoc_get k (assoc_set k' x props)
  = if String.eqb k k' then Some x else assoc_get k props.
Proof.
  induction props as [|[k0 x0] props IH]; simpl.
  - reflexivity.
  - destruct (String.eqb_spec k' k0) as [->|Hne]; simpl.
    + destruct (String.eqb k k0); reflexivity.
    + rewrite IH. destruct (String.eqb_spec k k0) as [->|Hne'].
      * apply not_eq_sym in Hne. apply String.eqb_neq in Hne. now rewrite Hne.
      * reflexivity.
Qed.

Lemma assoc_get_app k l1 l2 :
  assoc_get k (l1 ++ l2)
  = match assoc_get k l1 with Some x => Some x | None => assoc_get k l2 end.
Proof.
  induction l1 as [|[k0 x0] l1 IH]; simpl; [reflexivity|].
  destruct (String.eqb k k0); [reflexivity | exact IH].
Qed.

Lemma assoc_get_fold k entries acc :
  assoc_get k (fold_left (fun acc kx => assoc_set (fst kx) (snd kx) acc) entries acc)
  = match assoc_get k (rev entries) with
    | Some x => Some x
    | None => assoc_get k acc
    end.
Proof.
  revert acc. induction entries as [|[k0 x0] entries IH]; intros acc; simpl.
  - reflexivity.
  - rewrite IH, assoc_get_app, assoc_get_set. simpl.
    destruct (assoc_get k (rev entries)); [reflexivity|].
    destruct (String.eqb k k0); reflexivity.
Qed.

Lemma assoc_get_None k props :
  existsb (String.eqb k) (map fst props) = false -> assoc_get k props = None.
Proof.
  induction props as [|[k0 x0] props IH]; simpl; intros H; [reflexivity|].
  apply orb_false_iff in H as [H1 H2]. rewrite H1. auto.
Qed.

Lemma assoc_get_rev k props :
  distinct (map fst props) = true -> assoc_get k (rev props) = assoc_get k props.
Proof.
  induction props as [|[k0 x0] props IH]; simpl; intros H; [reflexivity|].
  apply andb_true_iff in H as [H1 H2]. apply negb_true_iff in H1.
  rewrite assoc_get_app, (IH H2). simpl.
  destruct (String.eqb_spec k k0) as [->|Hne].
  - now rewrite (assoc_get_None _ _ H1).
  - now destruct (assoc_get k props).
Qed.

(** The shallow merge [{...a, ...b}] of two objects: a property of [b] wins,
    and a property that [b] lacks is the one of [a]. *)
Lemma object_from_merge k a b merged :
  distinct (map fst a) = true -> distinct (map fst b) = true ->
  object_from (a ++ b) = JObj merged ->
  assoc_get k merged
  = match assoc_get k b with Some x => Some x | None => assoc_get k a end.
Proof.
  intros Ha Hb H. unfold object_from in H. inversion H; subst merged.
  rewrite assoc_get_fold, rev_app_distr, assoc_get_app.
  rewrite (assoc_get_rev _ _ Ha), (assoc_get_rev _ _ Hb).
  destruct (assoc_get k b); [reflexivity|]. now destruct (assoc_get k a).
Qed.

(** ** The mutating operations on a stored collection *)

Lemma assoc_get_forallb (p : string * value -> bool) k props x :
  assoc_get k props = Some x -> forallb p props = true ->
  exists k', p (k', x) = true.
Proof.
  induction props as [|[k0 x0] props IH]; cbn [assoc_get forallb]; intros Hg Hp;
    [discriminate|].
  apply andb_true_iff in Hp as [Hp0 Hp].
  destruct (String.eqb k k0).
  - inversion Hg; subst. eauto.
  - auto.
Qed.

Lemma json_value_todo_ids todos ids :
  json_value (JArr todos) = true -> todo_ids todos = Some ids ->
  Forall (fun n => exact_integer n = true) ids.
Proof.
  revert ids. induction todos as [|y todos IH]; intros ids Hj H; simpl in H.
  - inversion H; subst. constructor.
  - destruct (todo_id y) as [n|] eqn:Hy; [|discriminate].
    destruct (todo_ids todos) as [ns|] eqn:Hr; [|discriminate].
    inversion H; subst. simpl in Hj. apply andb_true_iff in Hj as [Hjy Hjt].
    constructor; [|now apply IH].
    unfold todo_id in Hy. destruct y as [| |b|m| |s|l|props]; try discriminate.
    simpl in Hjy. apply andb_true_iff in Hjy as [_ Hjy].
    destruct (assoc_get "id" props) as [[| |b|m| |s|l|ps]|] eqn:Hg; try discriminate.
    inversion Hy; subst.
    destruct (assoc_get_forallb _ _ _ _ Hg Hjy) as (k' & Hk').
    now apply andb_true_iff in Hk' as [_ Hk'].
Qed.

Lemma stored_json_value w todos : stored w todos -> json_value (JArr todos) = true.
Proof. intros (c & _ & Hp). now apply parse_json_value in Hp. Qed.

Lemma createTodo_ok w todos newTodo lastId id title completed :
  stored w todos ->
  match last todos with
  | Some x => get_prop x "id"
  | None => Normal (JNum 0)
  end = Normal lastId ->
  js_add_one lastId = Normal id ->
  get_prop newTodo "title" = Normal title ->
  get_prop newTodo "completed" = Normal completed ->
  todos_writable w = true ->
  let todo := JObj [("id", id); ("title", title);
                    ("completed", js_or completed (JBool false))] in
  exists data,
    JSON.stringify_2 (JArr (todos ++ [todo])) = Some data /\
    createTodo newTodo w
    = (set_todos_json (Some data)
         (add_fs_call (WriteFile "todos.json" data)
            (add_fs_call (ReadFile "todos.json") w)),
       Normal todo).
Proof.
  intros Hs Hl Hi Ht Hc Hw todo.
  destruct (serialize_array "  " "" (todos ++ [todo])) as (data & Hd).
  exists data. split; [exact Hd|].
  unfold createTodo, try_catch, bind.
  rewrite (readTodos_stored _ _ Hs). unfold lift, array_of.
  rewrite Hl, Hi, Ht, Hc. fold todo. unfold JSON.stringify_2. rewrite Hd.
  rewrite writeFile_todos_ok by exact Hw. reflexivity.
Qed.

Lemma updateTodo_ok w todos id updates index old new :
  stored w todos ->
  array_findIndex (has_id id) todos = Normal (Some index) ->
  spread (default JUndefined (todos !! index)) = Normal old ->
  spread updates = Normal new ->
  todos_writable w = true ->
  let merged := object_from (old ++ new) in
  exists data,
    JSON.stringify_2 (JArr (<[index := merged]> todos)) = Some data /\
    updateTodo id updates w
    = (set_todos_json (Some data)
         (add_fs_call (WriteFile "todos.json" data)
            (add_fs_call (ReadFile "todos.json") w)),
       Normal merged).
Proof.
  intros Hs Hi Ho Hn Hw merged.
  destruct (serialize_array "  " "" (<[index := merged]> todos)) as (data & Hd).
  exists data. split; [exact Hd|].
  unfold updateTodo, try_catch, bind.
  rewrite (readTodos_stored _ _ Hs). unfold lift, array_of.
  rewrite Hi, Ho, Hn. fold merged. unfold JSON.stringify_2. rewrite Hd.
  rewrite writeFile_todos_ok by exact Hw. unfold ret.
  destruct (array_findIndex_Some _ _ _ Hi) as (x & Hx & _).
  rewrite list_lookup_insert_eq by (eapply lookup_lt_Some; eauto).
  reflexivity.
Qed.

Lemma deleteTodo_ok w todos id index :
  stored w todos ->
  array_findIndex (has_id id) todos = Normal (Some index) ->
  todos_writable w = true ->
  exists data,
    JSON.stringify_2 (JArr (delete index todos)) = Some data /\
    deleteTodo id w
    = (set_todos_json (Some data)
         (add_fs_call (WriteFile "todos.json" data)
            (add_fs_call (ReadFile "todos.json") w)),
       Normal (default JUndefined (todos !! index))).
Proof.
  intros Hs Hi Hw.
  destruct (serialize_array "  " "" (delete index todos)) as (data & Hd).
  exists data. split; [exact Hd|].
  unfold deleteTodo, try_catch, bind.
  rewrite (readTodos_stored _ _ Hs). unfold lift, array_of.
  rewrite Hi. unfold JSON.stringify_2. rewrite Hd.
  rewrite writeFile_todos_ok by exact Hw. reflexivity.
Qed.

(** What was saved can be loaded: the collection written by a mutating
    operation is the stored collection of the next one. *)
Lemma stored_after_save w todos data :
  json_value (JArr todos) = true ->
  JSON.stringify_2 (JArr todos) = Some data ->
  todos_json w = Some data ->
  stored w todos.
Proof.
  intros Hj Hd Hw.
  destruct (parse_serialize (JArr todos) "  " Hj eq_refl) as (str & Hs & Hp).
  unfold JSON.stringify_2 in Hd. rewrite Hd in Hs. inversion Hs; subst str.
  exists data. auto.
Qed.

(** ** Creating a todo *)

Lemma get_prop_json_value v k x :
  json_value v = true -> get_prop v k = Normal x ->
  x = JUndefined \/ json_value x = true.
Proof.
  destruct v as [| |b|n| |s|l|props]; simpl; intros Hj H; try discriminate;
    inversion H; subst; auto.
  destruct (assoc_get k props) as [y|] eqn:Hy; simpl; auto.
  right. apply andb_true_iff in Hj as [_ Hj].
  destruct (assoc_get_forallb _ _ _ _ Hy Hj) as (k' & Hk').
  now apply andb_true_iff in Hk' as [_ Hk'].
Qed.

Lemma js_or_json_value c :
  c = JUndefined \/ json_value c = true ->
  json_value (js_or c (JBool false)) = true.
Proof.
  unfold js_or. intros [-> | H]; [reflexivity|].
  destruct (truthy c); [exact H | reflexivity].
Qed.

Lemma js_or_idem c : js_or (js_or c (JBool false)) (JBool false) = js_or c (JBool false).
Proof. unfold js_or. destruct (truthy c) eqn:E; [now rewrite E | reflexivity]. Qed.

Lemma safe_exact n : safe_integer n = true -> exact_integer n = true.
Proof.
  unfold safe_integer, exact_integer. intros H.
  apply andb_true_iff in H as [H1 H2]. apply Z.leb_le in H1, H2.
  apply andb_true_iff. split; apply Z.leb_le; lia.
Qed.

(** Below 2^53 adding 1 is exact. *)
Lemma js_add_one_below n :
  exact_integer n = true -> (n <= MAX_SAFE_INTEGER)%Z ->
  js_add_one (JNum n) = Normal (JNum (n + 1)) /\ exact_integer (n + 1) = true.
Proof.
  intros He Hn. simpl. rewrite He.
  replace (n =? MAX_SAFE_INTEGER + 1)%Z with false by (symmetry; apply Z.eqb_neq; lia).
  split; [reflexivity|].
  unfold exact_integer in *. apply andb_true_iff in He as [H1 H2].
  apply Z.leb_le in H1, H2. apply andb_true_iff. split; apply Z.leb_le; lia.
Qed.

(** The id of the last entry, or 0, of a stored collection is a number of
    the model, and it is at most [m] when every id is. *)
Lemma last_id_exact todos ids m :
  json_value (JArr todos) = true -> todo_ids todos = Some ids ->
  (0 <= m <= MAX_SAFE_INTEGER)%Z ->
  forallb (fun i => (i <=? m)%Z) ids = true ->
  exact_integer (default 0%Z (last ids)) = true /\
  (default 0%Z (last ids) <= m)%Z.
Proof.
  intros Hjs Hids Hm Hbound. destruct (last ids) as [n|] eqn:El; simpl.
  - assert (Hin : n ∈ ids).
    { clear -El. induction ids as [|a ids IH]; [discriminate|].
      destruct ids as [|b ids]; [inversion El; left|]. right. now apply IH. }
    pose proof (json_value_todo_ids _ _ Hjs Hids) as Hall.
    rewrite Forall_forall in Hall. specialize (Hall _ Hin).
    rewrite forallb_forall in Hbound. apply list_elem_of_In in Hin.
    specialize (Hbound _ Hin). apply Z.leb_le in Hbound. auto.
  - split; [reflexivity | lia].
Qed.

Lemma safe_at_most ids :
  forallb safe_integer ids = true ->
  forallb (fun i => (i <=? MAX_SAFE_INTEGER)%Z) ids = true.
Proof.
  intros H. apply forallb_forall. intros i Hi.
  rewrite forallb_forall in H. specialize (H i Hi).
  unfold safe_integer in H. now apply andb_true_iff in H as [_ H].
Qed.

Lemma json_value_app todos todo :
  json_value (JArr todos) = true -> json_value todo = true ->
  json_value (JArr (todos ++ [todo])) = true.
Proof.
  simpl. intros H1 H2. rewrite forallb_app, H1. simpl. now rewrite H2.
Qed.

(** C4 as stated fails where doubles stop being exact: on a collection
    whose only todo has the id 2^53 (its ids are ascending), the todo that a
    POST creates has the id 2^53 again, since 2^53 + 1 is rounded to 2^53.
    The returned id is not greater than the id that was there. *)
Example create_repeats_id_at_2_53 :
  snd (server post_t
         (fresh_world (Some (js "[{'id':9007199254740992,'title':'a','completed':false}]"))))
  = Normal (Response 200 application_json
              (js "{'id':9007199254740992,'title':'t','completed':false}")) /\
  todo_ids [JObj [("id", JNum 9007199254740992); ("title", JStr "a");
                  ("completed", JBool false)]]
  = Some [9007199254740992%Z] /\
  ascending [9007199254740992%Z] = true /\
  snd (readTodos
         (fst (server post_t
                 (fresh_world
                    (Some (js "[{'id':9007199254740992,'title':'a','completed':false}]"))))))
  = Normal (JArr [JObj [("id", JNum 9007199254740992); ("title", JStr "a");
                        ("completed", JBool false)];
                  todo_t 9007199254740992]).
Proof. vm_compute. repeat split; reflexivity. Qed.

(** C4, amended: a POST with a title, on a stored collection whose ids do
    not decrease (ascending ids in particular) and are safe integers, at
    most [Number.MAX_SAFE_INTEGER] in absolute value, is answered with a
    todo whose id is greater than every id of the collection; its
    [completed] is [false] when the body has none; and the collection that
    is saved is the old one followed by the new todo. *)
Theorem create_returns_greater_id w req todos ids parsedBody title :
  method req = "POST" -> url req = "/todos" ->
  JSON.parse (body req) = Normal parsedBody ->
  get_prop parsedBody "title" = Normal title -> truthy title = true ->
  stored w todos -> todo_ids todos = Some ids -> nondecreasing ids = true ->
  forallb safe_integer ids = true ->
  todos_writable w = true ->
  exists w' n completed,
    let todo := JObj [("id", JNum n); ("title", title); ("completed", completed)] in
    server req w
    = (w', Normal (Response 200 application_json (end_with (JSON.stringify todo)))) /\
    Forall (fun i => (i < n)%Z) ids /\
    (get_prop parsedBody "completed" = Normal JUndefined -> completed = JBool false) /\
    stored w' (todos ++ [todo]).
Proof.
  intros Hm Hu Hp Ht Htt Hs Hids Hnd Hbound Hw.
  pose proof (parse_json_value _ _ Hp) as Hjb.
  (* the body is an object, since it has a title *)
  assert (Hc : exists c, get_prop parsedBody "completed" = Normal c /\
                 (c = JUndefined \/ json_value c = true)).
  { destruct parsedBody as [| |b|n| |s|l|props]; simpl in Ht; try discriminate;
      try (inversion Ht; subst; discriminate).
    eexists. split; [reflexivity|]. eapply get_prop_json_value; eauto. }
  destruct Hc as (c & Hc & Hjc).
  assert (Hjt : json_value title = true).
  { destruct (get_prop_json_value _ _ _ Hjb Ht) as [-> | H]; [discriminate | exact H]. }
  set (n := default 0%Z (last ids)).
  assert (Hlast : Forall (fun i => (i <= n)%Z) ids).
  { subst n. destruct (last ids) as [m|] eqn:El.
    - now apply nondecreasing_last.
    - destruct ids as [|a ids]; [constructor|].
      exfalso. clear -El. revert a El. induction ids as [|b ids IH]; intros a El.
      + discriminate.
      + apply (IH b). exact El. }
  pose proof (stored_json_value _ _ Hs) as Hjs.
  destruct (last_id_exact todos ids MAX_SAFE_INTEGER Hjs Hids) as [Hen Hn];
    [unfold MAX_SAFE_INTEGER; lia | now apply safe_at_most |].
  fold n in Hen, Hn.
  destruct (js_add_one_below n Hen Hn) as [Hadd Hsafe].
  destruct (logs_emit_spec (method req +:+ " - " +:+ url req) w)
    as (w1 & Hlog & Hj1 & Hw1 & _).
  pose proof (stored_same _ _ _ Hj1 Hs) as Hs1.
  set (newTodo := JObj [("title", title); ("completed", js_or c (JBool false))]).
  destruct (createTodo_ok w1 todos newTodo (JNum n) (JNum (n + 1)) title
              (js_or c (JBool false)) Hs1 (todo_ids_last _ _ Hids))
    as (data & Hdata & Hrun).
  { exact Hadd. }
  { reflexivity. }
  { reflexivity. }
  { now rewrite Hw1. }
  rewrite js_or_idem in Hdata, Hrun.
  eexists _, (n + 1)%Z, (js_or c (JBool false)). cbv zeta.
  split; [|split; [|split]].
  - rewrite (server_post_todo _ Hu Hm).
    unfold post_todo, bind, try_catch, lift. rewrite Hlog, Hp, Ht, Htt.
    cbn [negb]. rewrite Hc. fold newTodo. rewrite Hrun. reflexivity.
  - eapply Forall_impl; [exact Hlast|]. intros i Hi. simpl in Hi. lia.
  - intros Hundef. rewrite Hundef in Hc. inversion Hc; subst c. reflexivity.
  - eapply stored_after_save; [| exact Hdata | reflexivity].
    apply json_value_app; [exact Hjs|].
    simpl. rewrite Hsafe, Hjt, (js_or_json_value _ Hjc). reflexivity.
Qed.

Lemma create_returns_greater_id_witness :
  exists w' n completed,
    server (Request "POST" "/todos" JUndefined (js "{'title':'buy milk'}"))
           (fresh_world (Some (js "[{'id':1,'title':'a','completed':true}]")))
    = (w', Normal (Response 200 application_json
                     (end_with (JSON.stringify
                        (JObj [("id", JNum n); ("title", JStr "buy milk");
                               ("completed", completed)]))))) /\
    Forall (fun i => (i < n)%Z) [1%Z] /\
    completed = JBool false.
Proof.
  destruct (create_returns_greater_id
              (fresh_world (Some (js "[{'id':1,'title':'a','completed':true}]")))
              (Request "POST" "/todos" JUndefined (js "{'title':'buy milk'}"))
              [JObj [("id", JNum 1); ("title", JStr "a"); ("completed", JBool true)]]
              [1%Z] (JObj [("title", JStr "buy milk")]) (JStr "buy milk"))
    as (w' & n & completed & Hrun & Hgt & Hdef & _);
    try reflexivity.
  { eexists. split; reflexivity. }
  exists w', n, completed. repeat split; auto.
Defined.

(** ** Updating a todo *)

Lemma fold_assoc_set_json_value entries acc :
  distinct (map fst acc) = true -> forallb member_ok acc = true ->
  forallb member_ok entries = true ->
  let props := fold_left (fun acc kx => assoc_set (fst kx) (snd kx) acc) entries acc in
  distinct (map fst props) = true /\ forallb member_ok props = true.
Proof.
  revert acc. induction entries as [|[k x] entries IH]; intros acc Hd Ha He; simpl.
  - auto.
  - simpl in He. apply andb_true_iff in He as [Hkx He].
    apply IH; [now apply distinct_assoc_set | | exact He].
    now apply forallb_assoc_set.
Qed.

Lemma object_from_json_value entries :
  forallb member_ok entries = true -> json_value (object_from entries) = true.
Proof.
  intros H. destruct (fold_assoc_set_json_value entries [] eq_refl eq_refl H) as [Hd Hm].
  unfold object_from. simpl. rewrite Hd. exact Hm.
Qed.

Lemma json_value_members props :
  json_value (JObj props) = true ->
  distinct (map fst props) = true /\ forallb member_ok props = true.
Proof. simpl. intros H. now apply andb_true_iff in H. Qed.

Lemma json_value_lookup (l : list value) i x :
  forallb json_value l = true -> l !! i = Some x -> json_value x = true.
Proof.
  intros H Hx. rewrite forallb_forall in H. apply H.
  apply list_elem_of_In. eapply list_elem_of_lookup_2; eauto.
Qed.

Lemma json_value_insert (l : list value) i x :
  forallb json_value l = true -> json_value x = true ->
  forallb json_value (<[i := x]> l) = true.
Proof.
  revert i. induction l as [|y l IH]; intros i H Hx; [now destruct i|].
  simpl in H. apply andb_true_iff in H as [Hy Hl].
  destruct i as [|i]; simpl.
  - now rewrite Hx, Hl.
  - change (json_value y && forallb json_value (<[i:=x]> l) = true).
    now rewrite Hy, IH.
Qed.

Lemma json_value_delete (l : list value) i :
  forallb json_value l = true -> forallb json_value (delete i l) = true.
Proof.
  revert i. induction l as [|y l IH]; intros i H; [now destruct i|].
  simpl in H. apply andb_true_iff in H as [Hy Hl].
  destruct i as [|i]; simpl; [exact Hl|].
  change (json_value y && forallb json_value (delete i l) = true).
  now rewrite Hy, IH.
Qed.

(** C5: updating a stored todo merges the fields of [updates] over it.  A
    field of [updates] replaces the field of the same name, every other
    field keeps its value; the merged todo is returned and the collection
    with the merged todo in the place of the old one is saved. *)
Theorem update_is_shallow_merge w todos id index updates :
  stored w todos ->
  array_findIndex (has_id id) todos = Normal (Some index) ->
  json_value (JObj updates) = true ->
  todos_writable w = true ->
  exists w' old merged,
    todos !! index = Some (JObj old) /\
    updateTodo id (JObj updates) w = (w', Normal (JObj merged)) /\
    (forall k,
       assoc_get k merged
       = match assoc_get k updates with
         | Some x => Some x
         | None => assoc_get k old
         end) /\
    stored w' (<[index := JObj merged]> todos).
Proof.
  intros Hs Hi Hju Hw.
  destruct (array_findIndex_Some _ _ _ Hi) as (x & Hx & Hid).
  destruct (has_id_true _ _ Hid) as (old & -> & Hold).
  pose proof (stored_json_value _ _ Hs) as Hjs. simpl in Hjs.
  pose proof (json_value_lookup _ _ _ Hjs Hx) as Hjo.
  destruct (json_value_members _ Hjo) as [Hdo Hmo].
  destruct (json_value_members _ Hju) as [Hdu Hmu].
  destruct (updateTodo_ok w todos id (JObj updates) index old updates Hs Hi)
    as (data & Hdata & Hrun); auto.
  { now rewrite Hx. }
  cbv zeta in Hdata, Hrun.
  destruct (object_from (old ++ updates)) as [| |b|n| |s|l|merged] eqn:Em;
    try discriminate Em.
  eexists _, old, merged. split; [exact Hx|]. split; [exact Hrun|]. split.
  - intros k. eapply object_from_merge; eauto.
  - eapply stored_after_save; [| exact Hdata | reflexivity].
    simpl. apply json_value_insert; [exact Hjs|].
    rewrite <- Em. apply object_from_json_value.
    rewrite forallb_app, Hmo, Hmu. reflexivity.
Qed.

Lemma update_is_shallow_merge_witness :
  exists w' old merged,
    [JObj [("id", JNum 1); ("title", JStr "a"); ("completed", JBool false)]] !! 0
    = Some (JObj old) /\
    updateTodo 1 (JObj [("completed", JBool true)])
      (fresh_world (Some (js "[{'id':1,'title':'a','completed':false}]")))
    = (w', Normal (JObj merged)) /\
    (forall k,
       assoc_get k merged
       = match assoc_get k [("completed", JBool true)] with
         | Some x => Some x
         | None => assoc_get k old
         end) /\
    stored w' (<[0 := JObj merged]>
                 [JObj [("id", JNum 1); ("title", JStr "a"); ("completed", JBool false)]]).
Proof.
  apply (update_is_shallow_merge
           (fresh_world (Some (js "[{'id':1,'title':'a','completed':false}]")))
           [JObj [("id", JNum 1); ("title", JStr "a"); ("completed", JBool false)]]
           1%Z 0 [("completed", JBool true)]); try reflexivity.
  eexists. split; reflexivity.
Defined.

(** The example of the specification: updating only [completed] on
    {id:1, title:"a", completed:false} gives {id:1, title:"a",
    completed:true}. *)
Example update_completed_only :
  snd (updateTodo 1 (JObj [("completed", JBool true)])
         (fresh_world (Some (js "[{'id':1,'title':'a','completed':false}]"))))
  = Normal (JObj [("id", JNum 1); ("title", JStr "a"); ("completed", JBool true)]).
Proof. vm_compute. reflexivity. Qed.

(** ** Deleting a todo *)

Lemma unique_delete ids i n :
  unique ids = true -> ids !! i = Some n -> Forall (fun m => m <> n) (delete i ids).
Proof.
  revert i. induction ids as [|a ids IH]; intros i H Hn; [now destruct i|].
  simpl in H. apply andb_true_iff in H as [Ha Hu]. apply negb_true_iff in Ha.
  assert (Hnot : Forall (fun m => m <> a) ids).
  { rewrite Forall_forall. intros m Hm ->.
    assert (existsb (Z.eqb a) ids = true); [|congruence].
    apply existsb_exists. exists a. split; [now apply list_elem_of_In | apply Z.eqb_refl]. }
  destruct i as [|i]; simpl in *.
  - inversion Hn; subst. exact Hnot.
  - change (Forall (fun m => m <> n) (a :: delete i ids)).
    constructor; [|now apply IH].
    rewrite Forall_forall in Hnot. intros ->.
    apply (Hnot n); [|reflexivity]. eapply list_elem_of_lookup_2; eauto.
Qed.

Lemma findIndex_absent id todos ids :
  todo_ids todos = Some ids -> Forall (fun m => m <> id) ids ->
  array_findIndex (has_id id) todos = Normal None.
Proof.
  revert ids. induction todos as [|y todos IH]; intros ids H Hall; [reflexivity|].
  simpl in H. destruct (todo_id y) as [m|] eqn:Hy; [|discriminate].
  destruct (todo_ids todos) as [ms|] eqn:Hr; [|discriminate].
  inversion H; subst. inversion Hall; subst.
  simpl. rewrite (todo_id_has_id id _ _ Hy).
  assert ((m =? id)%Z = false) as -> by now apply Z.eqb_neq.
  simpl. now rewrite (IH _ eq_refl).
Qed.

Lemma getTodoById_absent w todos id :
  stored w todos ->
  array_findIndex (has_id id) todos = Normal None ->
  getTodoById id w
  = (add_fs_call (ReadFile "todos.json") w,
     Throw (ReferenceError "err is not defined")).
Proof.
  intros Hs Hi. unfold getTodoById, bind.
  rewrite (readTodos_stored _ _ Hs). unfold lift, array_of.
  rewrite (array_findIndex_None _ _ Hi). reflexivity.
Qed.

(** C6 as stated fails when two todos share the id.  Two POSTs on the empty
    collection and a PUT that gives the first todo the id 2 make such a
    collection; [deleteTodo] removes the first of the two and [getTodoById]
    then finds the second. *)
Example delete_leaves_second_match :
  snd (readTodos (fst (server (put_id "2") two_todos)))
  = Normal (JArr [todo_t 2; todo_t 2]) /\
  snd (deleteTodo 2 (fst (server (put_id "2") two_todos)))
  = Normal (todo_t 2) /\
  snd (getTodoById 2 (fst (deleteTodo 2 (fst (server (put_id "2") two_todos)))))
  = Normal (todo_t 2).
Proof. vm_compute. repeat split; reflexivity. Qed.

(** C6, amended: when the ids of the stored collection are unique,
    [deleteTodo] returns the todo with the given id and saves the collection
    without that entry, the others unchanged and in their order; after that
    [getTodoById] for the id returns no todo. *)
Theorem delete_removes_one_entry w todos ids id index :
  stored w todos -> todo_ids todos = Some ids -> unique ids = true ->
  array_findIndex (has_id id) todos = Normal (Some index) ->
  todos_writable w = true ->
  exists w' removed,
    deleteTodo id w = (w', Normal removed) /\
    todos !! index = Some removed /\
    stored w' (take index todos ++ drop (S index) todos) /\
    exists w'' e, getTodoById id w' = (w'', Throw e).
Proof.
  intros Hs Hids Hu Hi Hw.
  destruct (array_findIndex_Some _ _ _ Hi) as (x & Hx & Hid).
  destruct (deleteTodo_ok w todos id index Hs Hi Hw) as (data & Hdata & Hrun).
  rewrite Hx in Hrun. simpl in Hrun.
  pose proof (stored_json_value _ _ Hs) as Hjs. simpl in Hjs.
  assert (Hs' : stored (set_todos_json (Some data)
                          (add_fs_call (WriteFile "todos.json" data)
                             (add_fs_call (ReadFile "todos.json") w)))
                       (delete index todos)).
  { eapply stored_after_save; [| exact Hdata | reflexivity].
    simpl. now apply json_value_delete. }
  eexists _, x. split; [exact Hrun|]. split; [exact Hx|]. split.
  - rewrite <- delete_take_drop. exact Hs'.
  - destruct (todo_ids_lookup _ _ _ _ Hids Hx) as (n & Hn & Hxn).
    rewrite (todo_id_has_id id _ _ Hxn) in Hid. inversion Hid as [Hnid].
    apply Z.eqb_eq in Hnid. subst n.
    eexists _, _. apply (getTodoById_absent _ (delete index todos)); [exact Hs'|].
    eapply findIndex_absent; [exact (todo_ids_delete _ _ index Hids)|].
    now apply unique_delete.
Qed.

Lemma delete_removes_one_entry_witness :
  exists w' removed,
    deleteTodo 2
      (fresh_world (Some (js "[{'id':1,'title':'a'},{'id':2,'title':'b'},{'id':3,'title':'c'}]")))
    = (w', Normal removed) /\
    [JObj [("id", JNum 1); ("title", JStr "a")];
     JObj [("id", JNum 2); ("title", JStr "b")];
     JObj [("id", JNum 3); ("title", JStr "c")]] !! 1 = Some removed /\
    stored w' [JObj [("id", JNum 1); ("title", JStr "a")];
               JObj [("id", JNum 3); ("title", JStr "c")]] /\
    exists w'' e, getTodoById 2 w' = (w'', Throw e).
Proof.
  apply (delete_removes_one_entry
           (fresh_world (Some (js "[{'id':1,'title':'a'},{'id':2,'title':'b'},{'id':3,'title':'c'}]")))
           [JObj [("id", JNum 1); ("title", JStr "a")];
            JObj [("id", JNum 2); ("title", JStr "b")];
            JObj [("id", JNum 3); ("title", JStr "c")]]
           [1; 2; 3]%Z 2%Z 1); try reflexivity.
  eexists. split; reflexivity.
Defined.

(** ** The ids of the collections that the server reaches *)

(** What an operation can have done to [todos.json] *)
Lemma createTodo_inv w todos newTodo w' r :
  stored w todos ->
  createTodo newTodo w = (w', r) ->
  (todos_json w' = todos_json w /\ forall todo, r <> Normal todo) \/
  exists lastId id title completed data,
    match last todos with
    | Some x => get_prop x "id"
    | None => Normal (JNum 0)
    end = Normal lastId /\
    js_add_one lastId = Normal id /\
    get_prop newTodo "title" = Normal title /\
    get_prop newTodo "completed" = Normal completed /\
    let todo := JObj [("id", id); ("title", title);
                      ("completed", js_or completed (JBool false))] in
    r = Normal todo /\
    JSON.stringify_2 (JArr (todos ++ [todo])) = Some data /\
    todos_json w' = Some data.
Proof.
  intros Hs H. unfold createTodo, try_catch, bind in H.
  rewrite (readTodos_stored _ _ Hs) in H. unfold lift, array_of in H.
  destruct (match last todos with Some x => get_prop x "id" | None => Normal (JNum 0) end)
    as [lastId|e|] eqn:Hl; [| inversion H; left; split; [reflexivity | discriminate]
     | inversion H; left; split; [reflexivity | discriminate]].
  destruct (js_add_one lastId) as [id|e|] eqn:Hi; [| inversion H; left; split; [reflexivity | discriminate]
     | inversion H; left; split; [reflexivity | discriminate]].
  destruct (get_prop newTodo "title") as [title|e|] eqn:Ht;
    [| inversion H; left; split; [reflexivity | discriminate]
     | inversion H; left; split; [reflexivity | discriminate]].
  destruct (get_prop newTodo "completed") as [completed|e|] eqn:Hc;
    [| inversion H; left; split; [reflexivity | discriminate]
     | inversion H; left; split; [reflexivity | discriminate]].
  set (todo := JObj [("id", id); ("title", title);
                     ("completed", js_or completed (JBool false))]) in *.
  destruct (serialize_array "  " "" (todos ++ [todo])) as (data & Hd).
  unfold JSON.stringify_2 in H. rewrite Hd in H. unfold writeFile_todos in H.
  cbn [todos_writable add_fs_call] in H.
  destruct (todos_writable w); inversion H; subst;
    [| left; split; [reflexivity | discriminate]].
  right. exists lastId, id, title, completed, data. cbv zeta. auto 10.
Qed.

Lemma updateTodo_inv w todos id updates w' r :
  stored w todos ->
  updateTodo id updates w = (w', r) ->
  (todos_json w' = todos_json w /\ forall todo, r <> Normal todo) \/
  exists index old new data,
    array_findIndex (has_id id) todos = Normal (Some index) /\
    spread (default JUndefined (todos !! index)) = Normal old /\
    spread updates = Normal new /\
    JSON.stringify_2 (JArr (<[index := object_from (old ++ new)]> todos)) = Some data /\
    todos_json w' = Some data.
Proof.
  intros Hs H. unfold updateTodo, try_catch, bind in H.
  rewrite (readTodos_stored _ _ Hs) in H. unfold lift, array_of in H.
  destruct (array_findIndex (has_id id) todos) as [[index|]|e|] eqn:Hi;
    [| inversion H; left; split; [reflexivity | discriminate]
     | inversion H; left; split; [reflexivity | discriminate]
     | inversion H; left; split; [reflexivity | discriminate]].
  destruct (spread (default JUndefined (todos !! index))) as [old|e|] eqn:Ho;
    [| inversion H; left; split; [reflexivity | discriminate]
     | inversion H; left; split; [reflexivity | discriminate]].
  destruct (spread updates) as [new|e|] eqn:Hn;
    [| inversion H; left; split; [reflexivity | discriminate]
     | inversion H; left; split; [reflexivity | discriminate]].
  destruct (serialize_array "  " "" (<[index := object_from (old ++ new)]> todos))
    as (data & Hd).
  unfold JSON.stringify_2 in H. rewrite Hd in H. unfold writeFile_todos in H.
  cbn [todos_writable add_fs_call] in H.
  destruct (todos_writable w); inversion H; subst;
    [| left; split; [reflexivity | discriminate]].
  right. exists index, old, new, data. auto 10.
Qed.

Lemma deleteTodo_inv w todos id w' r :
  stored w todos ->
  deleteTodo id w = (w', r) ->
  (todos_json w' = todos_json w /\ forall todo, r <> Normal todo) \/
  exists index data,
    array_findIndex (has_id id) todos = Normal (Some index) /\
    JSON.stringify_2 (JArr (delete index todos)) = Some data /\
    todos_json w' = Some data.
Proof.
  intros Hs H. unfold deleteTodo, try_catch, bind in H.
  rewrite (readTodos_stored _ _ Hs) in H. unfold lift, array_of in H.
  destruct (array_findIndex (has_id id) todos) as [[index|]|e|] eqn:Hi;
    [| inversion H; left; split; [reflexivity | discriminate]
     | inversion H; left; split; [reflexivity | discriminate]
     | inversion H; left; split; [reflexivity | discriminate]].
  destruct (serialize_array "  " "" (delete index todos)) as (data & Hd).
  unfold JSON.stringify_2 in H. rewrite Hd in H. unfold writeFile_todos in H.
  cbn [todos_writable add_fs_call] in H.
  destruct (todos_writable w); inversion H; subst;
    [| left; split; [reflexivity | discriminate]].
  right. exists index, data. auto.
Qed.

Lemma readTodos_store w : todos_json (fst (readTodos w)) = todos_json w.
Proof.
  unfold readTodos, try_catch, bind, readFile_todos, lift, console_error, ret.
  cbn [todos_json add_fs_call].
  destruct (todos_json w) as [c|] eqn:E; [|simpl; exact E].
  destruct (JSON.parse c); simpl; exact E.
Qed.

Lemma getTodoById_store id w : todos_json (fst (getTodoById id w)) = todos_json w.
Proof.
  unfold getTodoById, bind. pose proof (readTodos_store w) as H.
  destruct (readTodos w) as [w1 [todos|e|]]; simpl in *; auto.
  unfold lift. destruct (array_of "find" todos) as [l|e|]; simpl; auto.
  destruct (array_find (has_id id) l) as [todo|e|]; simpl; auto.
  destruct (truthy todo); simpl; auto.
Qed.

Lemma ids_ascending_same w w' :
  todos_json w' = todos_json w -> ids_ascending w -> ids_ascending w'.
Proof.
  intros E (todos & ids & Hs & Hi & Ha). exists todos, ids.
  split; [eapply stored_same; eauto | auto].
Qed.

Lemma stored_fun w todos todos' :
  stored w todos -> stored w todos' -> todos = todos'.
Proof. intros (c & Hc & Hp) (c' & Hc' & Hp'). congruence. Qed.

(** The id that [createTodo] assigns on a collection with ascending ids
    that are safe integers *)
Lemma createTodo_id w todos ids newTodo w' todo :
  stored w todos -> todo_ids todos = Some ids -> ascending ids = true ->
  forallb safe_integer ids = true ->
  createTodo newTodo w = (w', Normal todo) ->
  exists title completed,
    todo = JObj [("id", JNum (max_id ids + 1)); ("title", title);
                 ("completed", completed)] /\
    exact_integer (max_id ids + 1) = true /\
    get_prop newTodo "title" = Normal title /\
    (exists c, get_prop newTodo "completed" = Normal c /\
               completed = js_or c (JBool false)) /\
    exists data,
      JSON.stringify_2 (JArr (todos ++ [todo])) = Some data /\
      todos_json w' = Some data.
Proof.
  intros Hs Hids Ha Hb H.
  destruct (createTodo_inv _ _ _ _ _ Hs H)
    as [Hsame | (lastId & id & title & completed & data & Hl & Hi & Ht & Hc & Hr & Hd & Hw)].
  - destruct Hsame as [_ Hne]. now destruct (Hne todo).
  - rewrite (todo_ids_last _ _ Hids) in Hl. inversion Hl; subst lastId.
    destruct (last_id_exact todos ids MAX_SAFE_INTEGER (stored_json_value _ _ Hs) Hids)
      as [Hen Hn]; [unfold MAX_SAFE_INTEGER; lia | now apply safe_at_most |].
    destruct (js_add_one_below _ Hen Hn) as [Hadd Hsafe].
    rewrite Hadd in Hi. rewrite <- (max_id_ascending _ Ha) in Hi, Hsafe.
    inversion Hi; subst id. cbv zeta in Hr, Hd. inversion Hr; subst todo.
    exists title, (js_or completed (JBool false)). eauto 10.
Qed.

Lemma ids_ascending_created w todos ids newTodo w' todo :
  stored w todos -> todo_ids todos = Some ids -> ascending ids = true ->
  forallb safe_integer ids = true ->
  (forall x, get_prop newTodo "title" = Normal x -> json_value x = true) ->
  (forall c, get_prop newTodo "completed" = Normal c ->
             c = JUndefined \/ json_value c = true) ->
  createTodo newTodo w = (w', Normal todo) ->
  ids_ascending w'.
Proof.
  intros Hs Hids Ha Hb Htitle Hcompleted H.
  destruct (createTodo_id _ _ _ _ _ _ Hs Hids Ha Hb H)
    as (title & completed & -> & Hsafe & Ht & (c & Hc & ->) & data & Hd & Hw).
  exists (todos ++ [JObj [("id", JNum (max_id ids + 1)); ("title", title);
                          ("completed", js_or c (JBool false))]]),
         (ids ++ [(max_id ids + 1)%Z]).
  split; [|split].
  - eapply stored_after_save; [| exact Hd | exact Hw].
    apply json_value_app; [now apply (stored_json_value w)|].
    simpl. rewrite Hsafe, (Htitle _ Ht), (js_or_json_value _ (Hcompleted _ Hc)).
    reflexivity.
  - now apply todo_ids_app.
  - apply ascending_app; [exact Ha|]. intros m Hm.
    rewrite (max_id_ascending _ Ha), Hm. simpl. lia.
Qed.

Lemma get_prop_undefined_absent props k :
  forallb member_ok props = true ->
  get_prop (JObj props) k = Normal JUndefined -> assoc_get k props = None.
Proof.
  simpl. intros Hm H. destruct (assoc_get k props) as [x|] eqn:Hx; [|reflexivity].
  simpl in H. inversion H; subst x.
  destruct (assoc_get_forallb _ _ _ _ Hx Hm) as (k' & Hk').
  unfold member_ok in Hk'. simpl in Hk'. now rewrite andb_false_r in Hk'.
Qed.

Lemma get_prop_defined props k x :
  x <> JUndefined ->
  get_prop (JObj props) k = Normal x -> assoc_get k props = Some x.
Proof.
  simpl. intros Hx H. destruct (assoc_get k props) as [y|]; simpl in H.
  - now inversion H.
  - inversion H; subst. now destruct Hx.
Qed.

Lemma ids_ascending_updated w todos ids id updates w' r :
  stored w todos -> todo_ids todos = Some ids -> ascending ids = true ->
  json_value updates = true ->
  get_prop updates "id" = Normal JUndefined \/
  get_prop updates "id" = Normal (JNum id) ->
  updateTodo id updates w = (w', r) ->
  ids_ascending w'.
Proof.
  intros Hs Hids Ha Hju Hnoid H.
  destruct (updateTodo_inv _ _ _ _ _ _ Hs H)
    as [[Hsame _] | (index & old & new & data & Hi & Ho & Hn & Hd & Hw)].
  { eapply ids_ascending_same; [exact Hsame|]. now exists todos, ids. }
  destruct (array_findIndex_Some _ _ _ Hi) as (x & Hx & Hid).
  destruct (has_id_true _ _ Hid) as (props & -> & Hprops).
  rewrite Hx in Ho. simpl in Ho. inversion Ho; subst old.
  pose proof (stored_json_value _ _ Hs) as Hjs. simpl in Hjs.
  pose proof (json_value_lookup _ _ _ Hjs Hx) as Hjo.
  destruct (json_value_members _ Hjo) as [Hdo Hmo].
  assert (Hnew : distinct (map fst new) = true /\ forallb member_ok new = true /\
                 (assoc_get "id" new = None \/ assoc_get "id" new = Some (JNum id))).
  { destruct updates as [| |b|n| |s|l|ups]; try discriminate Hju;
      simpl in Hn; try (inversion Hn; subst; auto; fail).
    - destruct s; [inversion Hn; subst; auto | discriminate].
    - destruct l; [inversion Hn; subst; auto | discriminate].
    - inversion Hn; subst new. destruct (json_value_members _ Hju) as [Hdu Hmu].
      split; [exact Hdu|]. split; [exact Hmu|].
      destruct Hnoid as [Hnoid | Hnoid].
      + left. now apply get_prop_undefined_absent.
      + right. apply get_prop_defined; [discriminate | exact Hnoid]. }
  destruct Hnew as (Hdn & Hmn & Hidn).
  destruct (object_from (props ++ new)) as [| |b|n| |s|l|merged] eqn:Em;
    try discriminate Em.
  assert (Hmid : todo_id (JObj merged) = Some id).
  { simpl. rewrite (object_from_merge "id" props new merged Hdo Hdn Em).
    destruct Hidn as [-> | ->]; [now rewrite Hprops | reflexivity]. }
  exists (<[index := JObj merged]> todos), ids. split; [|split; [|exact Ha]].
  - eapply stored_after_save; [| exact Hd | exact Hw].
    simpl. apply json_value_insert; [exact Hjs|].
    rewrite <- Em. apply object_from_json_value.
    now rewrite forallb_app, Hmo, Hmn.
  - destruct (todo_ids_lookup _ _ _ _ Hids Hx) as (n & Hn' & Hxn).
    simpl in Hxn. rewrite Hprops in Hxn. inversion Hxn; subst n.
    eapply todo_ids_insert; eauto.
Qed.

Lemma ids_ascending_deleted w todos ids id w' r :
  stored w todos -> todo_ids todos = Some ids -> ascending ids = true ->
  deleteTodo id w = (w', r) ->
  ids_ascending w'.
Proof.
  intros Hs Hids Ha H.
  destruct (deleteTodo_inv _ _ _ _ _ Hs H)
    as [[Hsame _] | (index & data & Hi & Hd & Hw)].
  { eapply ids_ascending_same; [exact Hsame|]. now exists todos, ids. }
  pose proof (stored_json_value _ _ Hs) as Hjs. simpl in Hjs.
  exists (delete index todos), (delete index ids). split; [|split].
  - eapply stored_after_save; [| exact Hd | exact Hw].
    simpl. now apply json_value_delete.
  - now apply todo_ids_delete.
  - now apply ascending_delete.
Qed.

(** Answering a request that keeps the ids keeps them ascending, when a
    POST finds safe integers. *)
Lemma server_keeps_ids_ascending req w w' r :
  ids_ascending w -> keeps_id req ->
  (method req = "POST" -> ids_safe w) ->
  server req w = (w', r) ->
  ids_ascending w'.
Proof.
  intros Hasc Hkeep Hsafe H.
  destruct (logs_emit_spec (method req +:+ " - " +:+ url req) w)
    as (w1 & Hlog & Hj1 & _).
  pose proof (ids_ascending_same _ _ Hj1 Hasc) as Hasc1.
  assert (Herr : forall label, ids_ascending (add_stderr label w1)).
  { intros label. eapply ids_ascending_same; [|exact Hasc1]. reflexivity. }
  unfold server in H.
  destruct (String.eqb (url req) "/todos" && String.eqb (method req) "GET").
  { (* GET /todos *)
    unfold get_todos, bind, try_catch in H. rewrite Hlog in H.
    pose proof (readTodos_store w1) as Hr.
    destruct (readTodos w1) as [w2 [todos|e|]]; simpl in *.
    - inversion H; subst. eapply ids_ascending_same; eauto.
    - inversion H; subst. eapply ids_ascending_same; [|exact Hasc1]. exact Hr.
    - inversion H; subst. eapply ids_ascending_same; eauto. }
  destruct (startsWith (url req) "/todos/" && String.eqb (method req) "GET").
  { (* GET /todos/?id=N *)
    unfold get_todo, bind, lift in H. rewrite Hlog in H.
    destruct (parseInt (query_id req)) as [[id|]|e|];
      try (inversion H; subst; exact Hasc1).
    unfold try_catch, bind in H.
    pose proof (getTodoById_store id w1) as Hr.
    destruct (getTodoById id w1) as [w2 [todo|e|]]; simpl in *;
      inversion H; subst; eapply ids_ascending_same; try exact Hasc1; exact Hr. }
  destruct (String.eqb (url req) "/todos" && String.eqb (method req) "POST") eqn:Hpost.
  { (* POST /todos *)
    apply andb_true_iff in Hpost as [_ Hpost]. apply String.eqb_eq in Hpost.
    unfold post_todo, bind, try_catch, lift in H. rewrite Hlog in H.
    destruct (JSON.parse (body req)) as [parsedBody|e|] eqn:Hp;
      try (inversion H; subst; auto; fail).
    pose proof (parse_json_value _ _ Hp) as Hjb.
    destruct (get_prop parsedBody "title") as [title|e|] eqn:Ht;
      try (inversion H; subst; auto; fail).
    destruct (truthy title) eqn:Htt; cbn [negb] in H;
      [| inversion H; subst; auto].
    destruct (get_prop parsedBody "completed") as [c|e|] eqn:Hc;
      try (inversion H; subst; auto; fail).
    destruct Hasc1 as (todos & ids & Hs & Hids & Ha).
    assert (Hb : forallb safe_integer ids = true).
    { destruct (Hsafe Hpost) as (todos' & ids' & Hs' & Hids' & Hb).
      rewrite (stored_fun w1 todos todos' Hs (stored_same _ _ _ Hj1 Hs')) in Hids.
      congruence. }
    destruct (createTodo _ w1) as [w2 [todo|e|]] eqn:Hrun.
    - inversion H; subst.
      eapply (ids_ascending_created w1); eauto.
      + simpl. intros x Hx. inversion Hx; subst x.
        destruct (get_prop_json_value _ _ _ Hjb Ht) as [-> | Hjt];
          [discriminate | exact Hjt].
      + simpl. intros c0 Hc0. inversion Hc0; subst c0. right.
        apply js_or_json_value. eapply get_prop_json_value; eauto.
    - destruct (createTodo_inv _ _ _ _ _ Hs Hrun)
        as [[Hsame _] | (? & ? & ? & ? & ? & _ & _ & _ & _ & Hr & _)];
        [| discriminate Hr].
      inversion H; subst. eapply ids_ascending_same; [exact Hsame|].
      now exists todos, ids.
    - destruct (createTodo_inv _ _ _ _ _ Hs Hrun)
        as [[Hsame _] | (? & ? & ? & ? & ? & _ & _ & _ & _ & Hr & _)];
        [| discriminate Hr].
      inversion H; subst. eapply ids_ascending_same; [exact Hsame|].
      now exists todos, ids. }
  destruct (startsWith (url req) "/todos/" && String.eqb (method req) "PUT") eqn:Hput.
  { (* PUT /todos/?id=N *)
    apply andb_true_iff in Hput as [_ Hput]. apply String.eqb_eq in Hput.
    unfold put_todo, bind, lift in H. rewrite Hlog in H.
    destruct (parseInt (query_id req)) as [[id|]|e|] eqn:Hq;
      try (inversion H; subst; exact Hasc1).
    unfold try_catch, bind in H.
    destruct (JSON.parse (body req)) as [updates|e|] eqn:Hp;
      try (inversion H; subst; auto; fail).
    pose proof (parse_json_value _ _ Hp) as Hju.
    destruct (get_prop updates "title") as [title|e|] eqn:Ht;
      try (inversion H; subst; auto; fail).
    destruct (truthy title) eqn:Htt; cbn [negb] in H;
      [| inversion H; subst; auto].
    destruct Hasc1 as (todos & ids & Hs & Hids & Ha).
    destruct (updateTodo id updates w1) as [w2 r2] eqn:Hrun.
    pose proof (ids_ascending_updated _ _ _ _ _ _ _ Hs Hids Ha Hju
                  (Hkeep Hput _ _ Hp Hq) Hrun) as Hasc2.
    destruct r2 as [todo|e|]; inversion H; subst; exact Hasc2. }
  destruct (startsWith (url req) "/todos/" && String.eqb (method req) "DELETE").
  { (* DELETE /todos/?id=N *)
    unfold delete_todo, bind, lift in H. rewrite Hlog in H.
    destruct (parseInt (query_id req)) as [[id|]|e|];
      try (inversion H; subst; exact Hasc1).
    unfold try_catch, bind in H.
    destruct Hasc1 as (todos & ids & Hs & Hids & Ha).
    destruct (deleteTodo id w1) as [w2 r2] eqn:Hrun.
    pose proof (ids_ascending_deleted _ _ _ _ _ _ Hs Hids Ha Hrun) as Hasc2.
    destruct r2 as [todo|e|]; [inversion H; subst; exact Hasc2 | | inversion H; subst; exact Hasc2].
    rewrite console_error_spec in H.
    destruct (includes (message e) "not found"); inversion H; subst;
      (eapply ids_ascending_same; [|exact Hasc2]; reflexivity). }
  inversion H; subst. exact Hasc.
Qed.

Lemma reachable_ids_ascending w0 w :
  ids_ascending w0 -> reachable w0 w -> ids_ascending w.
Proof.
  intros H0 Hr. induction Hr as [|w req w' resp _ IH Hkeep Hsafe Hrun]; [exact H0|].
  eapply server_keeps_ids_ascending; eauto.
Qed.

(** C3 as stated fails three times.  The body of a PUT can carry an [id],
    which overwrites the id of the todo: from the empty collection, two POSTs
    and such a PUT give a collection in which the id 2 occurs twice.  The new
    id is the id of the last entry plus 1: after a PUT has made the ids 5
    and 2, a POST assigns 3 while the greatest id plus 1 is 6.  And doubles
    stop being exact: from a collection whose one todo has the id
    [Number.MAX_SAFE_INTEGER], two POSTs store the id 2^53 twice. *)
Example update_breaks_unique_ids :
  (snd (readTodos (fst (server (put_id "2") two_todos)))
   = Normal (JArr [todo_t 2; todo_t 2]) /\
   todo_ids [todo_t 2; todo_t 2] = Some [2; 2]%Z /\
   unique [2; 2]%Z = false) /\
  (snd (readTodos (fst (server (put_id "5") two_todos)))
   = Normal (JArr [todo_t 5; todo_t 2]) /\
   snd (server post_t (fst (server (put_id "5") two_todos)))
   = Normal (Response 200 application_json
               (js "{'id':3,'title':'t','completed':false}")) /\
   (max_id [5; 2] + 1 = 6)%Z) /\
  (snd (readTodos past_the_limit)
   = Normal (JArr [todo_t 9007199254740991; todo_t 9007199254740992;
                   todo_t 9007199254740992]) /\
   unique [9007199254740991; 9007199254740992; 9007199254740992]%Z = false).
Proof. vm_compute. repeat split; reflexivity. Qed.

(** C3, amended: in every collection that the server reaches from a stored
    collection with strictly ascending ids (the empty one, say) by answering
    requests whose PUT bodies carry no [id] other than the id they address,
    every POST being made while the stored ids are safe integers, the ids
    are strictly ascending, hence unique.  And while they are safe integers
    and the file can be written, [createTodo] returns a todo whose id is the
    id of the last entry (or 0) plus 1, which is there the greatest id (or
    0) plus 1. *)
Theorem reachable_ids_unique w0 w :
  ids_ascending w0 -> reachable w0 w ->
  exists todos ids,
    stored w todos /\ todo_ids todos = Some ids /\
    ascending ids = true /\ unique ids = true /\
    (forallb safe_integer ids = true -> todos_writable w = true ->
     forall title completed,
     exists w' todo,
       createTodo (JObj [("title", title); ("completed", completed)]) w
       = (w', Normal todo) /\
       get_prop todo "id" = Normal (JNum (default 0%Z (last ids) + 1)) /\
       default 0%Z (last ids) = max_id ids).
Proof.
  intros H0 Hr.
  destruct (reachable_ids_ascending _ _ H0 Hr) as (todos & ids & Hs & Hids & Ha).
  exists todos, ids. repeat (split; [assumption || now apply ascending_unique|]).
  intros Hb Hw title completed.
  destruct (last_id_exact todos ids MAX_SAFE_INTEGER (stored_json_value _ _ Hs) Hids)
    as [Hen Hn]; [unfold MAX_SAFE_INTEGER; lia | now apply safe_at_most |].
  destruct (js_add_one_below _ Hen Hn) as [Hadd _].
  destruct (createTodo_ok w todos (JObj [("title", title); ("completed", completed)])
              (JNum (default 0%Z (last ids))) (JNum (default 0%Z (last ids) + 1))
              title completed Hs (todo_ids_last _ _ Hids) Hadd eq_refl eq_refl Hw)
    as (data & _ & Hrun).
  eexists _, _. split; [exact Hrun|]. split; [reflexivity|].
  symmetry. now apply max_id_ascending.
Qed.

Lemma reachable_ids_unique_witness :
  exists w,
    reachable (fresh_world (Some "[]")) w /\
    exists todos ids,
      stored w todos /\ todo_ids todos = Some ids /\
      ascending ids = true /\ unique ids = true /\
      (forallb safe_integer ids = true -> todos_writable w = true ->
       forall title completed,
       exists w' todo,
         createTodo (JObj [("title", title); ("completed", completed)]) w
         = (w', Normal todo) /\
         get_prop todo "id" = Normal (JNum (default 0%Z (last ids) + 1)) /\
         default 0%Z (last ids) = max_id ids).
Proof.
  destruct (server post_t (fresh_world (Some "[]"))) as [w r] eqn:E.
  assert (Hr : r = Normal (Response 200 application_json
                             (js "{'id':1,'title':'t','completed':false}"))).
  { pose proof (f_equal snd E) as E2. vm_compute in E2. now inversion E2. }
  subst r.
  assert (H0 : ids_ascending (fresh_world (Some "[]"))).
  { exists [], []. split; [eexists; split; reflexivity | split; reflexivity]. }
  assert (Hreach : reachable (fresh_world (Some "[]")) w).
  { eapply reachable_step; [apply reachable_start | | | exact E].
    - intros Hm. discriminate Hm.
    - intros _. exists [], []. split; [eexists; split; reflexivity | split; reflexivity]. }
  exists w. split; [exact Hreach|].
  exact (reachable_ids_unique _ w H0 Hreach).
Defined.

(** ** Values with NaN and undefined *)

Lemma classic_undefined (v : value) : v = JUndefined \/ v <> JUndefined.
Proof. destruct v; auto; right; discriminate. Qed.

Lemma serialize_to_json v :
  forall gap indent,
    default "null" (serialize gap indent (to_json v))
    = default "null" (serialize gap indent v) /\
    (v <> JUndefined ->
     serialize gap indent (to_json v) = serialize gap indent v).
Proof.
  induction v as [| |b|n| |s|l IH|props IH] using value_ind; intros gap indent;
    try (split; [reflexivity | intros _; reflexivity]).
  - split; [reflexivity | congruence].
  - assert (E : serialize gap indent (to_json (JArr l)) = serialize gap indent (JArr l)).
    { simpl to_json. rewrite !serialize_JArr. cbv zeta. rewrite map_map.
      assert (Hm : map (fun x => default "null" (serialize gap (indent +:+ gap) (to_json x))) l
                   = map (fun x => default "null" (serialize gap (indent +:+ gap) x)) l).
      { induction IH as [|x l Hx _ IHl]; simpl; [reflexivity|].
        f_equal; [apply Hx | exact IHl]. }
      now rewrite Hm. }
    split; [now rewrite E | intros _; exact E].
  - assert (E : serialize gap indent (to_json (JObj props)) = serialize gap indent (JObj props)).
    { simpl to_json. rewrite !serialize_JObj. cbv zeta.
      match goal with
      | |- match ?a with _ => _ end = match ?b with _ => _ end =>
          assert (Hm : a = b); [|now rewrite Hm]
      end.
      induction IH as [|[k x] props Hx _ IHl]; [reflexivity|].
      cbn [flat_map snd fst].
      destruct (classic_undefined x) as [-> | Hx'].
      - cbn [is_undefined app]. rewrite IHl. unfold member at 2. reflexivity.
      - replace (is_undefined x) with false by now destruct x.
        cbn [app flat_map]. rewrite IHl. f_equal.
        unfold member. simpl in Hx |- *.
        now rewrite (proj2 (Hx gap (indent +:+ gap)) Hx'). }
    split; [now rewrite E | intros _; exact E].
Qed.

Lemma json_value_serializable v : json_value v = true -> serializable v = true.
Proof.
  induction v as [| |b|n| |s|l IH|props IH] using value_ind; simpl; intros H;
    try discriminate; auto.
  - induction IH as [|x l Hx _ IHl]; simpl in *; [reflexivity|].
    apply andb_true_iff in H as [H1 H2]. now rewrite Hx, IHl.
  - apply andb_true_iff in H as [Hd H]. rewrite Hd. simpl.
    induction IH as [|[k x] props Hx _ IHl]; simpl in *; [reflexivity|].
    apply andb_true_iff in Hd as [_ Hd].
    apply andb_true_iff in H as [H1 H2]. apply andb_true_iff in H1 as [Hk H1].
    now rewrite Hk, Hx, IHl.
Qed.

Lemma existsb_to_json_keys k props :
  existsb (String.eqb k) (map fst props) = false ->
  existsb (String.eqb k)
    (map fst (flat_map (fun kx => if is_undefined (snd kx) then []
                                  else [(fst kx, to_json (snd kx))]) props))
  = false.
Proof.
  induction props as [|[k' x] props IH]; simpl; intros H; [reflexivity|].
  apply orb_false_iff in H as [H1 H2].
  destruct (is_undefined x); simpl; [auto|]. now rewrite H1, IH.
Qed.

Lemma to_json_json_value v :
  serializable v = true -> json_value (to_json v) = true.
Proof.
  induction v as [| |b|n| |s|l IH|props IH] using value_ind; simpl; intros H; auto.
  - induction IH as [|x l Hx _ IHl]; simpl in *; [reflexivity|].
    apply andb_true_iff in H as [H1 H2]. now rewrite Hx, IHl.
  - apply andb_true_iff in H as [Hd H].
    induction IH as [|[k x] props Hx _ IHl]; [reflexivity|].
    cbn [map fst distinct forallb snd] in Hd, H, Hx.
    apply andb_true_iff in Hd as [Hk Hd]. apply negb_true_iff in Hk.
    apply andb_true_iff in H as [H1 H2]. apply andb_true_iff in H1 as [Hi H1].
    specialize (IHl Hd H2). apply andb_true_iff in IHl as [IHd IHf].
    cbn [flat_map fst snd].
    destruct (is_undefined x); cbn [app]; [now rewrite IHd, IHf|].
    cbn [map fst distinct forallb snd].
    rewrite (existsb_to_json_keys _ _ Hk), IHd, Hi, (Hx H1), IHf. reflexivity.
Qed.

(** Loading what [JSON.stringify] wrote gives the JSON image of the value,
    and saving that image writes the same text. *)
Lemma stringify_parse_stringify v :
  serializable v = true -> v <> JUndefined ->
  exists data,
    JSON.stringify_2 v = Some data /\
    JSON.parse data = Normal (to_json v) /\
    JSON.stringify_2 (to_json v) = Some data.
Proof.
  intros Hs Hv.
  destruct (parse_serialize (to_json v) "  " (to_json_json_value _ Hs) eq_refl)
    as (data & Hd & Hp).
  exists data. unfold JSON.stringify_2.
  rewrite <- (proj2 (serialize_to_json v "  " "") Hv). auto.
Qed.

(** ** What the server saves *)

Lemma stored_or_not w : (exists l, stored w l) \/ (forall l, ~ stored w l).
Proof.
  unfold stored. destruct (todos_json w) as [c|] eqn:Hc.
  - destruct (JSON.parse c) as [[| |b|n| |s|l|props]|e|] eqn:Hp;
      try (right; intros l (c' & Hc' & Hp'); inversion Hc'; subst c'; congruence).
    left. exists l, c. auto.
  - right. intros l (c' & Hc' & _). discriminate.
Qed.

Lemma readTodos_cases w :
  exists w1 r,
    readTodos w = (w1, r) /\ todos_json w1 = todos_json w /\
    (forall l, r = Normal (JArr l) -> stored w l).
Proof.
  unfold readTodos, try_catch, bind, readFile_todos, lift, console_error, ret, stored.
  cbn [todos_json add_fs_call].
  destruct (todos_json w) as [c|] eqn:Hc.
  - destruct (JSON.parse c) as [v|e|] eqn:Hp; eexists _, _;
      (split; [reflexivity|]); (split; [exact Hc|]); intros l Hl;
      inversion Hl; subst. eauto.
  - eexists _, _. split; [reflexivity|]. split; [exact Hc|]. intros l Hl. inversion Hl.
Qed.

Lemma createTodo_unstored w newTodo w' r :
  (forall l, ~ stored w l) ->
  createTodo newTodo w = (w', r) -> todos_json w' = todos_json w.
Proof.
  intros Hn H. unfold createTodo, try_catch, bind in H.
  destruct (readTodos_cases w) as (w1 & r1 & Hr & Hj & Hl). rewrite Hr in H.
  destruct r1 as [v|e|]; try (inversion H; subst; exact Hj).
  unfold lift in H.
  destruct v; try (simpl in H; inversion H; subst; exact Hj).
  destruct (Hn l (Hl l eq_refl)).
Qed.

Lemma updateTodo_unstored w id updates w' r :
  (forall l, ~ stored w l) ->
  updateTodo id updates w = (w', r) -> todos_json w' = todos_json w.
Proof.
  intros Hn H. unfold updateTodo, try_catch, bind in H.
  destruct (readTodos_cases w) as (w1 & r1 & Hr & Hj & Hl). rewrite Hr in H.
  destruct r1 as [v|e|]; try (inversion H; subst; exact Hj).
  unfold lift in H.
  destruct v; try (simpl in H; inversion H; subst; exact Hj).
  destruct (Hn l (Hl l eq_refl)).
Qed.

Lemma deleteTodo_unstored w id w' r :
  (forall l, ~ stored w l) ->
  deleteTodo id w = (w', r) -> todos_json w' = todos_json w.
Proof.
  intros Hn H. unfold deleteTodo, try_catch, bind in H.
  destruct (readTodos_cases w) as (w1 & r1 & Hr & Hj & Hl). rewrite Hr in H.
  destruct r1 as [v|e|]; try (inversion H; subst; exact Hj).
  unfold lift in H.
  destruct v; try (simpl in H; inversion H; subst; exact Hj).
  destruct (Hn l (Hl l eq_refl)).
Qed.

Lemma js_add_one_serializable v id :
  v = JUndefined \/ json_value v = true ->
  js_add_one v = Normal id -> serializable id = true.
Proof.
  intros _. destruct v as [| |b|n| |s|l|props]; simpl; intros H;
    try discriminate; try (inversion H; subst; reflexivity).
  - inversion H; subst. now destruct b.
  - destruct (exact_integer n) eqn:E; inversion H; subst. simpl.
    destruct (Z.eqb_spec n (MAX_SAFE_INTEGER + 1)) as [_|Hne]; [exact E|].
    unfold exact_integer in *. apply andb_true_iff in E as [H1 H2].
    apply Z.leb_le in H1, H2. apply andb_true_iff. split; apply Z.leb_le; lia.
Qed.

Lemma last_json_value (l : list value) x :
  forallb json_value l = true -> last l = Some x -> json_value x = true.
Proof.
  intros H Hx. rewrite forallb_forall in H. apply H. apply list_elem_of_In.
  clear H. induction l as [|a l IH]; [discriminate|].
  destruct l as [|b l]; [inversion Hx; left|]. right. now apply IH.
Qed.

Lemma saved_same w w1 w' :
  todos_json w1 = todos_json w -> saved w1 w' -> saved w w'.
Proof. intros E [H | H]; [left; congruence | right; exact H]. Qed.

Lemma createTodo_saved w newTodo w' r :
  (forall x, get_prop newTodo "title" = Normal x -> serializable x = true) ->
  (forall c, get_prop newTodo "completed" = Normal c ->
             c = JUndefined \/ json_value c = true) ->
  createTodo newTodo w = (w', r) -> saved w w'.
Proof.
  intros Htitle Hcompleted H.
  destruct (stored_or_not w) as [(todos & Hs) | Hn];
    [| left; eapply createTodo_unstored; eauto].
  destruct (createTodo_inv _ _ _ _ _ Hs H)
    as [[Hsame _] | (lastId & id & title & completed & data & Hl & Hi & Ht & Hc & _ & Hd & Hw)];
    [now left|].
  right. eexists. split; [|rewrite Hw; symmetry; exact Hd].
  pose proof (stored_json_value _ _ Hs) as Hjs. simpl in Hjs.
  simpl. rewrite forallb_app. apply andb_true_iff. split.
  - clear -Hjs. induction todos as [|x l IH]; simpl in *; [reflexivity|].
    apply andb_true_iff in Hjs as [H1 H2].
    now rewrite (json_value_serializable _ H1), IH.
  - simpl. rewrite (Htitle _ Ht).
    rewrite (json_value_serializable _ (js_or_json_value _ (Hcompleted _ Hc))).
    rewrite (js_add_one_serializable lastId id); [reflexivity | | exact Hi].
    destruct (last todos) as [x|] eqn:El.
    + eapply get_prop_json_value; [|exact Hl]. eapply last_json_value; eauto.
    + inversion Hl; subst. now right.
Qed.

Lemma updateTodo_saved w id updates w' r :
  json_value updates = true ->
  updateTodo id updates w = (w', r) -> saved w w'.
Proof.
  intros Hju H.
  destruct (stored_or_not w) as [(todos & Hs) | Hn];
    [| left; eapply updateTodo_unstored; eauto].
  destruct (updateTodo_inv _ _ _ _ _ _ Hs H)
    as [[Hsame _] | (index & old & new & data & Hi & Ho & Hn & Hd & Hw)];
    [now left|].
  right. eexists. split; [|rewrite Hw; symmetry; exact Hd].
  apply json_value_serializable.
  destruct (array_findIndex_Some _ _ _ Hi) as (x & Hx & Hid).
  destruct (has_id_true _ _ Hid) as (props & -> & Hprops).
  rewrite Hx in Ho. simpl in Ho. inversion Ho; subst old.
  pose proof (stored_json_value _ _ Hs) as Hjs. simpl in Hjs.
  pose proof (json_value_lookup _ _ _ Hjs Hx) as Hjo.
  destruct (json_value_members _ Hjo) as [_ Hmo].
  assert (Hmn : forallb member_ok new = true).
  { destruct updates as [| |b|n| |s|l|ups]; try discriminate Hju;
      simpl in Hn; try (inversion Hn; subst; reflexivity).
    - destruct s; [inversion Hn; subst; reflexivity | discriminate].
    - destruct l; [inversion Hn; subst; reflexivity | discriminate].
    - inversion Hn; subst new. now destruct (json_value_members _ Hju). }
  simpl. apply json_value_insert; [exact Hjs|].
  apply object_from_json_value. now rewrite forallb_app, Hmo, Hmn.
Qed.

Lemma deleteTodo_saved w id w' r :
  deleteTodo id w = (w', r) -> saved w w'.
Proof.
  intros H.
  destruct (stored_or_not w) as [(todos & Hs) | Hn];
    [| left; eapply deleteTodo_unstored; eauto].
  destruct (deleteTodo_inv _ _ _ _ _ Hs H)
    as [[Hsame _] | (index & data & Hi & Hd & Hw)]; [now left|].
  right. eexists. split; [|rewrite Hw; symmetry; exact Hd].
  apply json_value_serializable.
  pose proof (stored_json_value _ _ Hs) as Hjs. simpl in Hjs.
  simpl. now apply json_value_delete.
Qed.

(** Whatever the server writes to [todos.json] is the text of a
    serializable array. *)
Lemma server_saved req w w' r : server req w = (w', r) -> saved w w'.
Proof.
  intros H.
  destruct (logs_emit_spec (method req +:+ " - " +:+ url req) w)
    as (w1 & Hlog & Hj1 & _).
  apply (saved_same w w1 w' Hj1).
  assert (Herr : forall label, saved w1 (add_stderr label w1)) by (intros; now left).
  unfold server in H.
  destruct (String.eqb (url req) "/todos" && String.eqb (method req) "GET").
  { unfold get_todos, bind, try_catch in H. rewrite Hlog in H.
    pose proof (readTodos_store w1) as Hr.
    destruct (readTodos w1) as [w2 [todos|e|]]; simpl in *;
      inversion H; subst; left; exact Hr. }
  destruct (startsWith (url req) "/todos/" && String.eqb (method req) "GET").
  { unfold get_todo, bind, lift in H. rewrite Hlog in H.
    destruct (parseInt (query_id req)) as [[id|]|e|];
      try (inversion H; subst; now left).
    unfold try_catch, bind in H.
    pose proof (getTodoById_store id w1) as Hr.
    destruct (getTodoById id w1) as [w2 [todo|e|]]; simpl in *;
      inversion H; subst; left; exact Hr. }
  destruct (String.eqb (url req) "/todos" && String.eqb (method req) "POST").
  { unfold post_todo, bind, try_catch, lift in H. rewrite Hlog in H.
    destruct (JSON.parse (body req)) as [parsedBody|e|] eqn:Hp;
      try (inversion H; subst; now left).
    pose proof (parse_json_value _ _ Hp) as Hjb.
    destruct (get_prop parsedBody "title") as [title|e|] eqn:Ht;
      try (inversion H; subst; now left).
    destruct (truthy title) eqn:Htt; cbn [negb] in H;
      [| inversion H; subst; now left].
    destruct (get_prop parsedBody "completed") as [c|e|] eqn:Hc;
      try (inversion H; subst; now left).
    destruct (createTodo _ w1) as [w2 r2] eqn:Hrun.
    assert (Hsaved : saved w1 w2).
    { eapply createTodo_saved; [| | exact Hrun].
      - simpl. intros x Hx. inversion Hx; subst x. apply json_value_serializable.
        destruct (get_prop_json_value _ _ _ Hjb Ht) as [-> | Hjt];
          [discriminate | exact Hjt].
      - simpl. intros c0 Hc0. inversion Hc0; subst c0. right.
        apply js_or_json_value. eapply get_prop_json_value; eauto. }
    destruct r2 as [todo|e|]; inversion H; subst; exact Hsaved. }
  destruct (startsWith (url req) "/todos/" && String.eqb (method req) "PUT").
  { unfold put_todo, bind, lift in H. rewrite Hlog in H.
    destruct (parseInt (query_id req)) as [[id|]|e|];
      try (inversion H; subst; now left).
    unfold try_catch, bind in H.
    destruct (JSON.parse (body req)) as [updates|e|] eqn:Hp;
      try (inversion H; subst; now left).
    pose proof (parse_json_value _ _ Hp) as Hju.
    destruct (get_prop updates "title") as [title|e|] eqn:Ht;
      try (inversion H; subst; now left).
    destruct (truthy title) eqn:Htt; cbn [negb] in H;
      [| inversion H; subst; now left].
    destruct (updateTodo id updates w1) as [w2 r2] eqn:Hrun.
    pose proof (updateTodo_saved _ _ _ _ _ Hju Hrun) as Hsaved.
    destruct r2 as [todo|e|]; inversion H; subst; exact Hsaved. }
  destruct (startsWith (url req) "/todos/" && String.eqb (method req) "DELETE").
  { unfold delete_todo, bind, lift in H. rewrite Hlog in H.
    destruct (parseInt (query_id req)) as [[id|]|e|];
      try (inversion H; subst; now left).
    unfold try_catch, bind in H.
    destruct (deleteTodo id w1) as [w2 r2] eqn:Hrun.
    pose proof (deleteTodo_saved _ _ _ _ Hrun) as Hsaved.
    destruct r2 as [todo|e|];
      [inversion H; subst; exact Hsaved | | inversion H; subst; exact Hsaved].
    rewrite console_error_spec in H.
    destruct (includes (message e) "not found"); inversion H; subst; exact Hsaved. }
  inversion H; subst. now left.
Qed.

(** ** Saving and loading *)

(** The same for the operations on the file: saving a JSON value, loading
    it and saving what was loaded leaves the bytes of the first save. *)
Lemma save_load_save w v :
  json_value v = true -> todos_writable w = true ->
  exists data w1 w2 w3,
    writeFile_todos (JSON.stringify_2 v) w = (w1, Normal tt) /\
    todos_json w1 = Some data /\
    readTodos w1 = (w2, Normal v) /\
    writeFile_todos (JSON.stringify_2 v) w2 = (w3, Normal tt) /\
    todos_json w3 = Some data.
Proof.
  intros Hj Hw.
  destruct (parse_serialize v "  " Hj eq_refl) as (data & Hd & Hp).
  unfold JSON.stringify_2. rewrite Hd.
  rewrite (writeFile_todos_ok data w Hw).
  eexists data, _, _, _. split; [reflexivity|]. split; [reflexivity|].
  split; [|split].
  - unfold readTodos, try_catch, bind, readFile_todos, lift.
    cbn [todos_json add_fs_call set_todos_json]. rewrite Hp. reflexivity.
  - rewrite writeFile_todos_ok; [reflexivity | exact Hw].
  - reflexivity.
Qed.

(** C7: whenever the server has written [todos.json], loading the file
    succeeds, and saving what was loaded, unmodified, writes the bytes that
    are in the file. *)
Theorem saved_content_reloads req w w' r :
  server req w = (w', r) ->
  todos_json w' <> todos_json w ->
  exists data w2 loaded,
    todos_json w' = Some data /\
    readTodos w' = (w2, Normal loaded) /\
    JSON.stringify_2 loaded = Some data.
Proof.
  intros Hrun Hchanged.
  destruct (server_saved _ _ _ _ Hrun) as [Hsame | (todos & Hs & Hw)];
    [contradiction|].
  destruct (stringify_parse_stringify (JArr todos) Hs) as (data & Hd & Hp & Hd');
    [discriminate|].
  rewrite Hd in Hw.
  exists data, (add_fs_call (ReadFile "todos.json") w'), (to_json (JArr todos)).
  split; [exact Hw|]. split; [|exact Hd'].
  apply readTodos_stored. exists data. auto.
Qed.

Lemma saved_content_reloads_witness :
  exists w' r,
    server post_t (fresh_world (Some "[]")) = (w', r) /\
    exists data w2 loaded,
      todos_json w' = Some data /\
      readTodos w' = (w2, Normal loaded) /\
      JSON.stringify_2 loaded = Some data.
Proof.
  destruct (server post_t (fresh_world (Some "[]"))) as [w' r] eqn:E.
  exists w', r. split; [reflexivity|].
  apply (saved_content_reloads post_t (fresh_world (Some "[]")) w' r E).
  pose proof (f_equal (fun p => todos_json (fst p)) E) as E2.
  cbv beta in E2. cbn [fst] in E2. rewrite <- E2. vm_compute. discriminate.
Defined.

(** ** The request log *)

(** When appending to [logs.txt] fails, nothing is written to stderr: the
    promise of [fs.appendFile] is rejected and nothing handles it. *)
Lemma logs_emit_failure message w :
  logs_appendable w = false ->
  exists w',
    logs_emit message w = (w', Normal tt) /\
    stderr w' = stderr w /\
    unhandled_rejections w'
    = unhandled_rejections w ++ [system_error "open" "logs.txt"].
Proof.
  intros H. unfold logs_emit, log_listener, appendFile_logs.
  cbn [logs_appendable add_fs_call]. rewrite H.
  eexists. split; [reflexivity|]. split; reflexivity.
Qed.

(** C9, at a request served while [logs.txt] cannot be appended to: the
    response is sent, stderr stays empty, and a rejected promise is left
    unhandled. *)
Example log_failure_is_unhandled :
  snd (server (Request "GET" "/todos" JUndefined "")
         (World (Some "[]") true "" false "1/1/2025, 12:00:00 AM" [] [] []))
  = Normal (Response 200 application_json "[]") /\
  stderr (fst (server (Request "GET" "/todos" JUndefined "")
                 (World (Some "[]") true "" false "1/1/2025, 12:00:00 AM" [] [] [])))
  = [] /\
  unhandled_rejections
    (fst (server (Request "GET" "/todos" JUndefined "")
            (World (Some "[]") true "" false "1/1/2025, 12:00:00 AM" [] [] [])))
  = [system_error "open" "logs.txt"].
Proof. vm_compute. repeat split; reflexivity. Qed.

(** * Further properties of the program *)

(** ** What a piece of code leaves alone *)

Lemma preserves_ret {A X} (f : world -> X) (a : A) : preserves f (ret a).
Proof. intros w. reflexivity. Qed.

Lemma preserves_throw {A X} (f : world -> X) e : preserves f (@throw A e).
Proof. intros w. reflexivity. Qed.

Lemma preserves_lift {A X} (f : world -> X) (c : completion A) : preserves f (lift c).
Proof. intros w. reflexivity. Qed.

Lemma preserves_bind {A B X} (f : world -> X) (m : prog A) (k : A -> prog B) :
  preserves f m -> (forall a, preserves f (k a)) -> preserves f (bind m k).
Proof.
  intros Hm Hk w. unfold bind. specialize (Hm w).
  destruct (m w) as [w1 [a|e|]]; cbn [fst] in *; [|assumption..].
  now rewrite Hk.
Qed.

Lemma preserves_try_catch {A X} (f : world -> X) (m : prog A) handler :
  preserves f m -> (forall e, preserves f (handler e)) ->
  preserves f (try_catch m handler).
Proof.
  intros Hm Hh w. unfold try_catch. specialize (Hm w).
  destruct (m w) as [w1 [a|e|]]; cbn [fst] in *; [assumption| |assumption].
  now rewrite Hh.
Qed.

Create HintDb frame.

Lemma readFile_todos_logs : preserves logs_txt readFile_todos.
Proof. intros w. unfold readFile_todos. cbn. now destruct (todos_json w). Qed.

Lemma writeFile_todos_logs data : preserves logs_txt (writeFile_todos data).
Proof.
  intros w. unfold writeFile_todos. destruct data; [|reflexivity].
  cbn. destruct (todos_writable w); reflexivity.
Qed.

Lemma console_error_logs label : preserves logs_txt (console_error label).
Proof. intros w. reflexivity. Qed.

Lemma readFile_todos_store : preserves todos_json readFile_todos.
Proof.
  intros w. unfold readFile_todos. cbn [add_fs_call todos_json].
  destruct (todos_json w) eqn:E; cbn; exact E.
Qed.

Lemma console_error_store label : preserves todos_json (console_error label).
Proof. intros w. reflexivity. Qed.

Lemma logs_emit_store message : preserves todos_json (logs_emit message).
Proof.
  intros w. unfold logs_emit, log_listener, appendFile_logs. cbn.
  now destruct (logs_appendable w).
Qed.

Lemma readFile_todos_writes : preserves write_calls readFile_todos.
Proof.
  intros w. unfold readFile_todos, write_calls. cbn.
  destruct (todos_json w); cbn; rewrite List.filter_app; cbn; apply app_nil_r.
Qed.

Lemma console_error_writes label : preserves write_calls (console_error label).
Proof. intros w. reflexivity. Qed.

Lemma logs_emit_writes message : preserves write_calls (logs_emit message).
Proof.
  intros w. unfold logs_emit, log_listener, appendFile_logs, write_calls. cbn.
  destruct (logs_appendable w); cbn; rewrite List.filter_app; cbn; apply app_nil_r.
Qed.

#[local] Hint Resolve readFile_todos_logs writeFile_todos_logs console_error_logs
  readFile_todos_store console_error_store logs_emit_store
  readFile_todos_writes console_error_writes logs_emit_writes : frame.

(** Goes through the binds, handlers and branches of a piece of code, down
    to the calls into [fs] and [console]. *)
Ltac frame :=
  unfold readTodos, getTodoById, createTodo, updateTodo, deleteTodo;
  repeat first
    [ apply preserves_ret | apply preserves_throw | apply preserves_lift
    | solve [auto with frame]
    | apply preserves_bind; [|intros ?]
    | apply preserves_try_catch; [|intros ?]
    | match goal with
      | |- preserves _ (match ?x with _ => _ end) => destruct x
      end ].

(** ** Routing *)

Lemma known_route_server req :
  known_route req ->
  server req = get_todos req \/ server req = get_todo req \/
  server req = post_todo req \/ server req = put_todo req \/
  server req = delete_todo req.
Proof.
  intros [[Hu [Hm | Hm]] | [Hu [Hm | [Hm | Hm]]]].
  - left. now apply server_get_todos.
  - right; right; left. now apply server_post_todo.
  - right; left. now apply server_get_todo.
  - right; right; right; left. now apply server_put_todo.
  - right; right; right; right. now apply server_delete_todo.
Qed.

(** X1: a request on no known route is answered 404 "Endpoint not found";
    nothing is logged, no file is read or written, the world is what it
    was. *)
Theorem unknown_route_not_found req w :
  ~ known_route req ->
  server req w = (w, Normal endpoint_not_found).
Proof.
  intros H. unfold server.
  destruct (String.eqb_spec (url req) "/todos") as [Hu|Hu];
    destruct (startsWith (url req) "/todos/") eqn:Hs;
    destruct (String.eqb_spec (method req) "GET") as [Hg|Hg];
    destruct (String.eqb_spec (method req) "POST") as [Hp|Hp];
    destruct (String.eqb_spec (method req) "PUT") as [Hq|Hq];
    destruct (String.eqb_spec (method req) "DELETE") as [Hd|Hd];
    cbn [andb]; try reflexivity; exfalso; apply H;
    unfold known_route, collection_route, by_id_route; tauto.
Qed.

Lemma unknown_route_not_found_witness :
  ~ known_route (Request "PATCH" "/todos" JUndefined "") /\
  server (Request "PATCH" "/todos" JUndefined "") (fresh_world (Some "[]"))
  = (fresh_world (Some "[]"), Normal endpoint_not_found).
Proof.
  assert (H : ~ known_route (Request "PATCH" "/todos" JUndefined "")).
  { intros [[_ [H | H]] | [H _]]; discriminate H. }
  split; [exact H|].
  apply (unknown_route_not_found (Request "PATCH" "/todos" JUndefined "")
           (fresh_world (Some "[]")) H).
Defined.

(** ** The request log *)

Lemma logged_then req (rest : prog response) w :
  preserves logs_txt rest -> logs_appendable w = true ->
  logs_txt (fst ((logs_emit (method req +:+ " - " +:+ url req) ;; rest) w))
  = logs_txt w +:+ log_line w req.
Proof.
  intros Hrest Ha. unfold bind, logs_emit, log_listener, appendFile_logs.
  cbn [add_fs_call logs_appendable]. rewrite Ha, Hrest. reflexivity.
Qed.

(** X2: every request on a known route appends one line to [logs.txt], the
    time followed by the method and the URL, whatever the answer is (the
    requests that validation rejects included); nothing else is written to
    the log. *)
Theorem known_route_is_logged req w :
  known_route req -> logs_appendable w = true ->
  logs_txt (fst (server req w)) = logs_txt w +:+ log_line w req.
Proof.
  intros Hr Ha.
  destruct (known_route_server req Hr) as [E | [E | [E | [E | E]]]]; rewrite E.
  - unfold get_todos. apply logged_then; [frame | assumption].
  - unfold get_todo. apply logged_then; [frame | assumption].
  - unfold post_todo. apply logged_then; [frame | assumption].
  - unfold put_todo. apply logged_then; [frame | assumption].
  - unfold delete_todo. apply logged_then; [frame | assumption].
Qed.

Lemma known_route_is_logged_witness :
  logs_txt (fst (server (Request "DELETE" "/todos/?id=x" (JStr "x") "")
                   (fresh_world (Some "[]"))))
  = "1/1/2025, 12:00:00 AM - DELETE - /todos/?id=x" +:+ JSON.newline.
Proof.
  apply (known_route_is_logged (Request "DELETE" "/todos/?id=x" (JStr "x") "")
           (fresh_world (Some "[]"))).
  - right. split; [reflexivity | auto].
  - reflexivity.
Defined.

(** ** Reading *)

(** On a GET the server runs the two handlers that read. *)
Lemma get_routes_frame {X} (f : world -> X) req :
  method req = "GET" ->
  preserves f readFile_todos ->
  (forall label, preserves f (console_error label)) ->
  (forall message, preserves f (logs_emit message)) ->
  preserves f (server req).
Proof.
  intros Hm H1 H2 H3. unfold server. rewrite Hm.
  destruct (String.eqb (url req) "/todos"), (startsWith (url req) "/todos/");
    cbn [andb String.eqb Ascii.eqb Bool.eqb]; unfold get_todos, get_todo; frame.
Qed.

(** X3: a GET request, on whatever URL, leaves [todos.json] as it is and
    makes no call of [fs.writeFile]. *)
Theorem get_never_writes req w :
  method req = "GET" ->
  todos_json (fst (server req w)) = todos_json w /\
  write_calls (fst (server req w)) = write_calls w.
Proof.
  intros Hm. split; apply (get_routes_frame _ req Hm); auto with frame.
Qed.

Lemma get_never_writes_witness :
  todos_json (fst (server (Request "GET" "/todos/?id=1" (JStr "1") "")
                     (fresh_world (Some (js "[{'id':1}]")))))
  = Some (js "[{'id':1}]") /\
  write_calls (fst (server (Request "GET" "/todos/?id=1" (JStr "1") "")
                      (fresh_world (Some (js "[{'id':1}]")))))
  = [].
Proof.
  apply (get_never_writes (Request "GET" "/todos/?id=1" (JStr "1") "")
           (fresh_world (Some (js "[{'id':1}]")))).
  reflexivity.
Defined.

(** ** Exceptions and status codes *)

Lemma never_throws_ret {A} (a : A) : never_throws (ret a).
Proof. intros w e. discriminate. Qed.

Lemma never_throws_bind {A B} (m : prog A) (k : A -> prog B) :
  never_throws m -> (forall a, never_throws (k a)) -> never_throws (bind m k).
Proof.
  intros Hm Hk w e. unfold bind. specialize (Hm w).
  destruct (m w) as [w1 [a|e1|]]; cbn [snd] in *.
  - apply Hk.
  - now destruct (Hm e1).
  - discriminate.
Qed.

Lemma never_throws_try_catch {A} (m : prog A) handler :
  (forall e, never_throws (handler e)) -> never_throws (try_catch m handler).
Proof.
  intros Hh w e. unfold try_catch.
  destruct (m w) as [w1 [a|e1|]]; cbn [snd]; try discriminate. apply Hh.
Qed.

Lemma never_throws_console_error label : never_throws (console_error label).
Proof. intros w e. discriminate. Qed.

Lemma never_throws_logs_emit message : never_throws (logs_emit message).
Proof.
  intros w e. unfold logs_emit, log_listener, appendFile_logs. cbn.
  destruct (logs_appendable w); discriminate.
Qed.

(** ToString of a query parameter does not throw, and neither does
    [parseInt]. *)
Lemma to_string_no_throw v : forall e, to_string v <> Throw e.
Proof.
  induction v as [| |b|n| |s|l IH|props IH] using value_ind;
    try destruct b; try discriminate.
  simpl. induction IH as [|x rest Hx _ IHrest]; [discriminate|].
  intros e.
  assert (Hhead : forall e',
            match x with
            | JUndefined | JNull => Normal ""
            | _ => to_string x
            end <> Throw e').
  { intros e'. destruct x; try discriminate; apply Hx. }
  destruct (match x with JUndefined | JNull => Normal "" | _ => to_string x end)
    as [sx|e'|] eqn:E; cbn [cbind].
  - destruct rest; [discriminate|].
    match goal with
    | |- cbind ?c _ <> _ => destruct c as [sr|e'|] eqn:Er
    end; cbn [cbind]; try discriminate.
    now destruct (IHrest e').
  - now destruct (Hhead e').
  - discriminate.
Qed.

Lemma parseInt_no_throw v e : parseInt v <> Throw e.
Proof.
  unfold parseInt. destruct (to_string v) as [s|e'|] eqn:E; cbn [cbind].
  - destruct (trim_start s) as [|c r]; [discriminate|].
    destruct (128 <=? N_of_ascii c)%N; [discriminate|].
    repeat match goal with
           | |- context [let (_, _) := ?x in _] => destruct x
           end.
    destruct (radix_prefix _ _ _); [|discriminate].
    destruct (exact_integer _); discriminate.
  - now destruct (to_string_no_throw v e').
  - discriminate.
Qed.

Lemma never_throws_parseInt v : never_throws (lift (parseInt v)).
Proof. intros w e. apply parseInt_no_throw. Qed.

Lemma never_throws_server req : never_throws (server req).
Proof.
  unfold server.
  repeat match goal with
         | |- never_throws (if ?b then _ else _) => destruct b
         end;
    unfold get_todos, get_todo, post_todo, put_todo, delete_todo;
    repeat first
      [ apply never_throws_ret | apply never_throws_console_error
      | apply never_throws_logs_emit | apply never_throws_parseInt
      | apply never_throws_try_catch; intros ?
      | apply never_throws_bind; [|intros ?]
      | match goal with
        | |- never_throws (match ?x with _ => _ end) => destruct x
        end ].
Qed.

(** Whatever [f] reads in the world, the server leaves it alone when the
    calls into [fs] and [console] do. *)
Lemma server_frame {X} (f : world -> X) req :
  preserves f readFile_todos ->
  (forall data, preserves f (writeFile_todos data)) ->
  (forall label, preserves f (console_error label)) ->
  (forall message, preserves f (logs_emit message)) ->
  preserves f (server req).
Proof.
  intros H1 H2 H3 H4. unfold server.
  repeat match goal with
         | |- preserves _ (if ?b then _ else _) => destruct b
         end;
    unfold get_todos, get_todo, post_todo, put_todo, delete_todo; frame.
Qed.

(** X4: no exception leaves the request listener: whatever fails while a
    request is handled is caught and answered.  The one promise that has no
    handler is the one of [fs.appendFile]: while [logs.txt] can be appended
    to, no rejection goes unhandled. *)
Theorem server_never_throws req w :
  (forall e, snd (server req w) <> Throw e) /\
  (logs_appendable w = true ->
   unhandled_rejections (fst (server req w)) = unhandled_rejections w).
Proof.
  split; [apply never_throws_server|].
  intros Ha.
  pose (f := fun w => if logs_appendable w then Some (unhandled_rejections w)
                      else None).
  assert (H : preserves f (server req)).
  { apply server_frame.
    - intros w0. unfold readFile_todos, f. cbn [add_fs_call logs_appendable todos_json].
      destruct (todos_json w0); reflexivity.
    - intros data w0. unfold writeFile_todos, f. destruct data; [|reflexivity].
      cbn [add_fs_call todos_writable]. destruct (todos_writable w0); reflexivity.
    - intros label w0. reflexivity.
    - intros message w0. unfold logs_emit, log_listener, appendFile_logs, f.
      cbn [add_fs_call logs_appendable].
      destruct (logs_appendable w0) eqn:E; cbn; rewrite E; reflexivity. }
  specialize (H w). unfold f in H. rewrite Ha in H.
  destruct (logs_appendable (fst (server req w))); [|discriminate H].
  now injection H.
Qed.

Lemma server_never_throws_witness :
  unhandled_rejections
    (fst (server (Request "DELETE" "/todos/?id=7" (JStr "7") "")
            (fresh_world None)))
  = [].
Proof.
  apply (proj2 (server_never_throws (Request "DELETE" "/todos/?id=7" (JStr "7") "")
                  (fresh_world None))).
  reflexivity.
Defined.

Lemma try_catch_rethrows {A} (m : prog A) e0 w w' e :
  try_catch m (fun _ => throw e0) w = (w', Throw e) -> e = e0.
Proof.
  unfold try_catch, throw. destruct (m w) as [w1 [a|e1|]]; intros H;
    inversion H; reflexivity.
Qed.

Lemma never_throws_readTodos : never_throws readTodos.
Proof.
  apply never_throws_try_catch. intros e.
  apply never_throws_bind; [apply never_throws_console_error|].
  intros _. apply never_throws_ret.
Qed.

Lemma get_todos_status req w resp :
  snd (get_todos req w) = Normal resp -> statusCode resp = 200%Z.
Proof.
  unfold get_todos, bind, try_catch.
  destruct (logs_emit_spec (method req +:+ " - " +:+ url req) w) as (w1 & -> & _).
  pose proof (never_throws_readTodos w1) as Hr.
  destruct (readTodos w1) as [w2 [todos|e|]]; cbn [snd ret] in *.
  - intros [= <-]. reflexivity.
  - now destruct (Hr e).
  - discriminate.
Qed.

Lemma get_todo_status req w resp :
  snd (get_todo req w) = Normal resp ->
  statusCode resp = 200%Z \/ statusCode resp = 400%Z \/ statusCode resp = 500%Z.
Proof.
  unfold get_todo, bind, try_catch, lift.
  destruct (logs_emit_spec (method req +:+ " - " +:+ url req) w) as (w1 & -> & _).
  destruct (parseInt (query_id req)) as [[id|]|e|]; cbn [snd ret]; try discriminate.
  - destruct (getTodoById id w1) as [w2 [todo|e|]]; cbn; try discriminate;
      intros [= <-]; auto.
  - intros [= <-]; auto.
Qed.

Lemma post_todo_status req w resp :
  snd (post_todo req w) = Normal resp ->
  statusCode resp = 200%Z \/ statusCode resp = 400%Z \/ statusCode resp = 500%Z.
Proof.
  unfold post_todo, bind, try_catch, lift.
  destruct (logs_emit_spec (method req +:+ " - " +:+ url req) w) as (w1 & -> & _).
  destruct (JSON.parse (body req)) as [parsedBody|e|]; cbn; try discriminate.
  - destruct (get_prop parsedBody "title") as [title|e|]; cbn; try discriminate.
    + destruct (truthy title); cbn.
      * destruct (get_prop parsedBody "completed") as [completed|e|]; cbn;
          try discriminate.
        -- destruct (createTodo _ w1) as [w2 [todo|e|]]; cbn; try discriminate;
             intros [= <-]; auto.
        -- intros [= <-]; auto.
      * intros [= <-]; auto.
    + intros [= <-]; auto.
  - intros [= <-]; auto.
Qed.

Lemma put_todo_status req w resp :
  snd (put_todo req w) = Normal resp ->
  statusCode resp = 200%Z \/ statusCode resp = 400%Z \/ statusCode resp = 404%Z.
Proof.
  unfold put_todo, bind, try_catch, lift.
  destruct (logs_emit_spec (method req +:+ " - " +:+ url req) w) as (w1 & -> & _).
  destruct (parseInt (query_id req)) as [[id|]|e|]; cbn [snd ret]; try discriminate.
  - destruct (JSON.parse (body req)) as [updates|e|]; cbn; try discriminate.
    + destruct (get_prop updates "title") as [title|e|]; cbn; try discriminate.
      * destruct (truthy title); cbn.
        -- destruct (updateTodo id updates w1) as [w2 [todo|e|]]; cbn;
             try discriminate; intros [= <-]; auto.
        -- intros [= <-]; auto.
      * intros [= <-]; auto.
    + intros [= <-]; auto.
  - intros [= <-]; auto.
Qed.

Lemma delete_todo_status req w resp :
  snd (delete_todo req w) = Normal resp ->
  statusCode resp = 200%Z \/ statusCode resp = 400%Z \/ statusCode resp = 500%Z.
Proof.
  unfold delete_todo, bind, try_catch, lift.
  destruct (logs_emit_spec (method req +:+ " - " +:+ url req) w) as (w1 & -> & _).
  destruct (parseInt (query_id req)) as [[id|]|e|]; cbn [snd ret]; try discriminate.
  - destruct (deleteTodo id w1) as [w2 [todo|e|]] eqn:Hd; cbn; try discriminate.
    + intros [= <-]; auto.
    + apply try_catch_rethrows in Hd as ->. cbn. intros [= <-]; auto.
  - intros [= <-]; auto.
Qed.

Lemma put_todo_error_status req w resp :
  snd (put_todo_error req w) = Normal resp ->
  statusCode resp = 400%Z \/ statusCode resp = 500%Z.
Proof.
  unfold put_todo_error, bind, lift.
  destruct (logs_emit_spec (method req +:+ " - " +:+ url req) w) as (w1 & -> & _).
  destruct (parseInt (query_id req)) as [[id|]|e|]; cbn; try discriminate;
    intros [= <-]; auto.
Qed.

(** X5: the status codes of each route.  GET /todos answers 200 and nothing
    else (the 500 of its handler cannot be reached, [readTodos] throwing
    nothing); a DELETE by id never answers 404 (the message that
    [deleteTodo] rethrows holds no "not found"); a PUT whose body arrives
    answers 200, 400 or 404, and a PUT answers 500 only through its listener
    of [error], when the body cannot be received. *)
Theorem route_statuses req w resp :
  (snd (server req w) = Normal resp ->
   (url req = "/todos" -> method req = "GET" -> statusCode resp = 200%Z) /\
   (url req = "/todos" -> method req = "POST" ->
    statusCode resp = 200%Z \/ statusCode resp = 400%Z \/ statusCode resp = 500%Z) /\
   (startsWith (url req) "/todos/" = true -> method req = "GET" ->
    statusCode resp = 200%Z \/ statusCode resp = 400%Z \/ statusCode resp = 500%Z) /\
   (startsWith (url req) "/todos/" = true -> method req = "PUT" ->
    statusCode resp = 200%Z \/ statusCode resp = 400%Z \/ statusCode resp = 404%Z) /\
   (startsWith (url req) "/todos/" = true -> method req = "DELETE" ->
    statusCode resp = 200%Z \/ statusCode resp = 400%Z \/ statusCode resp = 500%Z)) /\
  (snd (put_todo_error req w) = Normal resp ->
   statusCode resp = 400%Z \/ statusCode resp = 500%Z) /\
  (forall id, parseInt (query_id req) = Normal (Some id) ->
   snd (put_todo_error req w) = Normal (Response 500 None "Failed to process request") /\
   todos_json (fst (put_todo_error req w)) = todos_json w).
Proof.
  split; [|split].
  - intros H. repeat split; intros Hu Hm.
    + rewrite (server_get_todos _ Hu Hm) in H. now apply get_todos_status in H.
    + rewrite (server_post_todo _ Hu Hm) in H. now apply post_todo_status in H.
    + rewrite (server_get_todo _ Hu Hm) in H. now apply get_todo_status in H.
    + rewrite (server_put_todo _ Hu Hm) in H. now apply put_todo_status in H.
    + rewrite (server_delete_todo _ Hu Hm) in H. now apply delete_todo_status in H.
  - apply put_todo_error_status.
  - intros id Hq. unfold put_todo_error, bind, lift.
    destruct (logs_emit_spec (method req +:+ " - " +:+ url req) w)
      as (w1 & -> & Hj & _).
    rewrite Hq. split; [reflexivity | exact Hj].
Qed.

Lemma route_statuses_witness :
  (statusCode (Response 500 None (js "{'error':'Failed to delete todo'}")) = 200%Z \/
   statusCode (Response 500 None (js "{'error':'Failed to delete todo'}")) = 400%Z \/
   statusCode (Response 500 None (js "{'error':'Failed to delete todo'}")) = 500%Z) /\
  snd (put_todo_error (Request "PUT" "/todos/?id=7" (JStr "7") "") (fresh_world (Some "[]")))
  = Normal (Response 500 None "Failed to process request").
Proof.
  split.
  - apply (proj2 (proj2 (proj2 (proj2
             (proj1 (route_statuses (Request "DELETE" "/todos/?id=7" (JStr "7") "")
                       (fresh_world (Some "[]"))
                       (Response 500 None (js "{'error':'Failed to delete todo'}")))
                eq_refl)))));
      reflexivity.
  - apply (proj2 (proj2 (route_statuses (Request "PUT" "/todos/?id=7" (JStr "7") "")
                           (fresh_world (Some "[]"))
                           (Response 500 None "Failed to process request"))) 7%Z).
    reflexivity.
Defined.

(** ** Answers of the GET routes *)

Lemma readTodos_loaded w content v :
  todos_json w = Some content -> JSON.parse content = Normal v ->
  readTodos w = (add_fs_call (ReadFile "todos.json") w, Normal v).
Proof.
  intros Hc Hp. unfold readTodos, try_catch, bind, readFile_todos, lift.
  cbn [todos_json add_fs_call]. rewrite Hc, Hp. reflexivity.
Qed.

(** The text that [JSON.stringify] makes of a JSON value parses to it. *)
Lemma stringify_parse v :
  json_value v = true ->
  exists text, JSON.stringify v = Some text /\ JSON.parse text = Normal v.
Proof. intros H. now apply parse_serialize. Qed.

Lemma array_findIndex_find f l i :
  array_findIndex f l = Normal (Some i) ->
  exists x, l !! i = Some x /\ f x = Normal true /\ array_find f l = Normal x.
Proof.
  revert i. induction l as [|y l IH]; intros i; simpl; [discriminate|].
  destruct (f y) as [[|]|e|] eqn:Hy; cbn [cbind]; try discriminate.
  - intros [= <-]. exists y. auto.
  - destruct (array_findIndex f l) as [[j|]|e|]; cbn; try discriminate.
    intros [= <-]. destruct (IH j eq_refl) as (x & Hx & Hf & Ha).
    exists x. auto.
Qed.

(** X6: GET /todos answers 200 with the text of what [todos.json] holds,
    for every content that [JSON.parse] accepts (an array of todos or not):
    the body is [JSON.stringify] of the loaded value, and parses back to
    it. *)
Theorem get_todos_returns_collection req w content v :
  url req = "/todos" -> method req = "GET" ->
  todos_json w = Some content -> JSON.parse content = Normal v ->
  exists w' text,
    server req w = (w', Normal (Response 200 application_json text)) /\
    JSON.stringify v = Some text /\
    JSON.parse text = Normal v /\
    todos_json w' = todos_json w.
Proof.
  intros Hu Hm Hc Hp. rewrite (server_get_todos _ Hu Hm).
  unfold get_todos, bind, try_catch.
  destruct (logs_emit_spec (method req +:+ " - " +:+ url req) w)
    as (w1 & -> & Hj & _).
  rewrite (readTodos_loaded w1 content v) by (rewrite ?Hj; assumption).
  destruct (stringify_parse v (parse_json_value _ _ Hp)) as (text & Hs & Ht).
  exists (add_fs_call (ReadFile "todos.json") w1), text.
  cbn [ret]. rewrite Hs. auto.
Qed.

Lemma get_todos_returns_collection_witness :
  exists w' text,
    server (Request "GET" "/todos" JUndefined "")
      (fresh_world (Some (js "[ {'id': 1, 'title': 'a'} ]")))
    = (w', Normal (Response 200 application_json text)) /\
    JSON.stringify (JArr [JObj [("id", JNum 1); ("title", JStr "a")]]) = Some text /\
    JSON.parse text = Normal (JArr [JObj [("id", JNum 1); ("title", JStr "a")]]) /\
    todos_json w' = Some (js "[ {'id': 1, 'title': 'a'} ]").
Proof.
  apply (get_todos_returns_collection (Request "GET" "/todos" JUndefined "")
           (fresh_world (Some (js "[ {'id': 1, 'title': 'a'} ]")))
           (js "[ {'id': 1, 'title': 'a'} ]")); reflexivity.
Defined.

(** X7: a GET by id answers 200 with the first stored todo that has the
    id; the body parses to that todo. *)
Theorem get_todo_returns_first_match req w todos id index :
  startsWith (url req) "/todos/" = true -> method req = "GET" ->
  parseInt (query_id req) = Normal (Some id) ->
  stored w todos ->
  array_findIndex (has_id id) todos = Normal (Some index) ->
  exists w' todo text,
    todos !! index = Some todo /\
    get_prop todo "id" = Normal (JNum id) /\
    server req w = (w', Normal (Response 200 application_json text)) /\
    JSON.stringify todo = Some text /\
    JSON.parse text = Normal todo /\
    todos_json w' = todos_json w.
Proof.
  intros Hu Hm Hq Hs Hi. rewrite (server_get_todo _ Hu Hm).
  unfold get_todo, bind, try_catch, lift.
  destruct (logs_emit_spec (method req +:+ " - " +:+ url req) w)
    as (w1 & -> & Hj & _).
  rewrite Hq.
  destruct (array_findIndex_find _ _ _ Hi) as (todo & Hl & Hf & Ha).
  destruct (has_id_true _ _ Hf) as (props & -> & Hid).
  pose proof (stored_json_value _ _ Hs) as Hv. simpl in Hv.
  destruct (stringify_parse _ (json_value_lookup _ _ _ Hv Hl)) as (text & Ht & Hp).
  unfold getTodoById, bind, lift.
  rewrite (readTodos_stored _ _ (stored_same _ _ _ Hj Hs)).
  cbn [array_of]. rewrite Ha. cbn [truthy ret]. rewrite Ht.
  eexists _, (JObj props), text.
  split; [exact Hl|]. split; [cbn; now rewrite Hid|].
  split; [reflexivity|]. auto.
Qed.

Lemma get_todo_returns_first_match_witness :
  exists w' todo text,
    [JObj [("id", JNum 1); ("title", JStr "a")];
     JObj [("id", JNum 2); ("title", JStr "b")]] !! 1 = Some todo /\
    get_prop todo "id" = Normal (JNum 2) /\
    server (Request "GET" "/todos/?id=2" (JStr "2") "")
      (fresh_world (Some (js "[{'id':1,'title':'a'},{'id':2,'title':'b'}]")))
    = (w', Normal (Response 200 application_json text)) /\
    JSON.stringify todo = Some text /\
    JSON.parse text = Normal todo /\
    todos_json w' = Some (js "[{'id':1,'title':'a'},{'id':2,'title':'b'}]").
Proof.
  apply (get_todo_returns_first_match
           (Request "GET" "/todos/?id=2" (JStr "2") "")
           (fresh_world (Some (js "[{'id':1,'title':'a'},{'id':2,'title':'b'}]")))
           [JObj [("id", JNum 1); ("title", JStr "a")];
            JObj [("id", JNum 2); ("title", JStr "b")]] 2 1);
    try reflexivity.
  eexists. split; reflexivity.
Defined.

(** What [readTodos] returns then is no array. *)
Lemma readTodos_no_array w :
  no_collection w ->
  exists w1 v,
    readTodos w = (w1, Normal v) /\ (forall l, v <> JArr l) /\
    todos_json w1 = todos_json w /\ write_calls w1 = write_calls w.
Proof.
  unfold write_calls.
  intros [H | [(content & e & Hc & Hp) | (content & v & Hc & Hp & Hv)]].
  - rewrite readTodos_failure by auto. eexists _, _.
    split; [reflexivity|]. split; [discriminate|]. split; [reflexivity|].
    cbn. rewrite List.filter_app. cbn. apply app_nil_r.
  - rewrite readTodos_failure by eauto. eexists _, _.
    split; [reflexivity|]. split; [discriminate|]. split; [reflexivity|].
    cbn. rewrite List.filter_app. cbn. apply app_nil_r.
  - rewrite (readTodos_loaded _ _ _ Hc Hp). eexists _, _.
    split; [reflexivity|]. split; [assumption|]. split; [reflexivity|].
    cbn. rewrite List.filter_app. cbn. apply app_nil_r.
Qed.

Lemma array_of_no_array name v :
  (forall l, v <> JArr l) -> exists e, array_of name v = Throw e.
Proof. intros H. destruct v; cbn; eauto. now destruct (H l). Qed.

(** X8: a GET by id for an id that no stored todo has is answered 500
    "Failed to read todo", not 404; so is one made while the collection
    cannot be loaded. *)
Theorem get_todo_failure_is_500 req w id :
  startsWith (url req) "/todos/" = true -> method req = "GET" ->
  parseInt (query_id req) = Normal (Some id) ->
  (exists todos, stored w todos /\
                 array_findIndex (has_id id) todos = Normal None) \/
  no_collection w ->
  exists w',
    server req w = (w', Normal (Response 500 None "Failed to read todo")) /\
    todos_json w' = todos_json w.
Proof.
  intros Hu Hm Hq H. rewrite (server_get_todo _ Hu Hm).
  unfold get_todo, bind, try_catch, lift.
  destruct (logs_emit_spec (method req +:+ " - " +:+ url req) w)
    as (w1 & -> & Hj & Hw & _).
  rewrite Hq. destruct H as [(todos & Hs & Hi) | Hn].
  - rewrite (getTodoById_absent w1 todos id (stored_same _ _ _ Hj Hs) Hi).
    eexists. split; [reflexivity | exact Hj].
  - assert (Hn1 : no_collection w1).
    { unfold no_collection in *. now rewrite Hj. }
    destruct (readTodos_no_array w1 Hn1) as (w2 & v & Hr & Hv & Hj2 & _).
    destruct (array_of_no_array "find" v Hv) as (e & He).
    unfold getTodoById, bind, lift. rewrite Hr, He.
    eexists. split; [reflexivity|]. cbn. congruence.
Qed.

Lemma get_todo_failure_is_500_witness :
  exists w',
    server (Request "GET" "/todos/?id=3" (JStr "3") "")
      (fresh_world (Some (js "[{'id':1,'title':'a'}]")))
    = (w', Normal (Response 500 None "Failed to read todo")) /\
    todos_json w' = Some (js "[{'id':1,'title':'a'}]").
Proof.
  apply (get_todo_failure_is_500 (Request "GET" "/todos/?id=3" (JStr "3") "")
           (fresh_world (Some (js "[{'id':1,'title':'a'}]"))) 3);
    try reflexivity.
  left. exists [JObj [("id", JNum 1); ("title", JStr "a")]].
  split; [|reflexivity]. eexists. split; reflexivity.
Defined.

(** ** Requests that change nothing *)

Lemma write_calls_add c w :
  is_write c = false -> write_calls (add_fs_call c w) = write_calls w.
Proof.
  intros H. unfold write_calls. cbn. rewrite List.filter_app. cbn.
  rewrite H. apply app_nil_r.
Qed.

Lemma logs_emit_write_calls message w :
  write_calls (fst (logs_emit message w)) = write_calls w.
Proof. apply logs_emit_writes. Qed.

Lemma createTodo_no_collection newTodo w :
  no_collection w ->
  exists w',
    createTodo newTodo w = (w', Throw (new_Error "Error creating todo:")) /\
    todos_json w' = todos_json w /\ write_calls w' = write_calls w.
Proof.
  intros Hn. destruct (readTodos_no_array w Hn) as (w1 & v & Hr & Hv & Hj & Hw).
  destruct (array_of_no_array "push" v Hv) as (e & He).
  exists w1. unfold createTodo, try_catch, bind, lift. rewrite Hr, He. auto.
Qed.

Lemma updateTodo_no_collection id updates w :
  no_collection w ->
  exists w',
    updateTodo id updates w = (w', Throw (new_Error "Error updating todo:")) /\
    todos_json w' = todos_json w /\ write_calls w' = write_calls w.
Proof.
  intros Hn. destruct (readTodos_no_array w Hn) as (w1 & v & Hr & Hv & Hj & Hw).
  destruct (array_of_no_array "findIndex" v Hv) as (e & He).
  exists w1. unfold updateTodo, try_catch, bind, lift. rewrite Hr, He. auto.
Qed.

Lemma deleteTodo_no_collection id w :
  no_collection w ->
  exists w',
    deleteTodo id w = (w', Throw (new_Error "Error deleting todo:")) /\
    todos_json w' = todos_json w /\ write_calls w' = write_calls w.
Proof.
  intros Hn. destruct (readTodos_no_array w Hn) as (w1 & v & Hr & Hv & Hj & Hw).
  destruct (array_of_no_array "findIndex" v Hv) as (e & He).
  exists w1. unfold deleteTodo, try_catch, bind, lift. rewrite Hr, He. auto.
Qed.

Lemma no_collection_same w w' :
  todos_json w' = todos_json w -> no_collection w -> no_collection w'.
Proof. unfold no_collection. intros ->. auto. Qed.

(** Then each of the three handlers that write leaves the file alone and
    does not answer 200. *)
Lemma post_todo_no_collection req w :
  no_collection w ->
  todos_json (fst (post_todo req w)) = todos_json w /\
  write_calls (fst (post_todo req w)) = write_calls w /\
  forall resp, snd (post_todo req w) = Normal resp -> statusCode resp <> 200%Z.
Proof.
  intros Hn. pose proof (logs_emit_write_calls (method req +:+ " - " +:+ url req) w) as Hw.
  unfold post_todo, bind, try_catch, lift.
  destruct (logs_emit_spec (method req +:+ " - " +:+ url req) w)
    as (w1 & Hlog & Hj & _).
  rewrite Hlog in *. cbn [fst] in Hw. unfold write_calls in *.
  destruct (JSON.parse (body req)) as [parsedBody|e|]; cbn;
    [|repeat split; try assumption; intros resp [= <-]; discriminate
     |repeat split; try assumption; discriminate].
  destruct (get_prop parsedBody "title") as [title|e|]; cbn;
    [|repeat split; try assumption; intros resp [= <-]; discriminate
     |repeat split; try assumption; discriminate].
  destruct (truthy title); cbn;
    [|repeat split; try assumption; intros resp [= <-]; discriminate].
  destruct (get_prop parsedBody "completed") as [completed|e|]; cbn;
    [|repeat split; try assumption; intros resp [= <-]; discriminate
     |repeat split; try assumption; discriminate].
  destruct (createTodo_no_collection
              (JObj [("title", title); ("completed", js_or completed (JBool false))])
              w1 (no_collection_same _ _ Hj Hn)) as (w2 & -> & Hj2 & Hw2).
  unfold write_calls in *. cbn. repeat split; try congruence.
  intros resp [= <-]; discriminate.
Qed.

Lemma put_todo_no_collection req w :
  no_collection w ->
  todos_json (fst (put_todo req w)) = todos_json w /\
  write_calls (fst (put_todo req w)) = write_calls w /\
  forall resp, snd (put_todo req w) = Normal resp -> statusCode resp <> 200%Z.
Proof.
  intros Hn. pose proof (logs_emit_write_calls (method req +:+ " - " +:+ url req) w) as Hw.
  unfold put_todo, bind, try_catch, lift.
  destruct (logs_emit_spec (method req +:+ " - " +:+ url req) w)
    as (w1 & Hlog & Hj & _).
  rewrite Hlog in *. cbn [fst] in Hw. unfold write_calls in *.
  destruct (parseInt (query_id req)) as [[id|]|e|]; cbn;
    [|repeat split; try assumption; intros resp [= <-]; discriminate
     |repeat split; try assumption; discriminate
     |repeat split; try assumption; discriminate].
  destruct (JSON.parse (body req)) as [updates|e|]; cbn;
    [|repeat split; try assumption; intros resp [= <-]; discriminate
     |repeat split; try assumption; discriminate].
  destruct (get_prop updates "title") as [title|e|]; cbn;
    [|repeat split; try assumption; intros resp [= <-]; discriminate
     |repeat split; try assumption; discriminate].
  destruct (truthy title); cbn;
    [|repeat split; try assumption; intros resp [= <-]; discriminate].
  destruct (updateTodo_no_collection id updates w1 (no_collection_same _ _ Hj Hn))
    as (w2 & -> & Hj2 & Hw2).
  unfold write_calls in *. cbn. repeat split; try congruence.
  intros resp [= <-]; discriminate.
Qed.

Lemma delete_todo_no_collection req w :
  no_collection w ->
  todos_json (fst (delete_todo req w)) = todos_json w /\
  write_calls (fst (delete_todo req w)) = write_calls w /\
  forall resp, snd (delete_todo req w) = Normal resp -> statusCode resp <> 200%Z.
Proof.
  intros Hn. pose proof (logs_emit_write_calls (method req +:+ " - " +:+ url req) w) as Hw.
  unfold delete_todo, bind, try_catch, lift.
  destruct (logs_emit_spec (method req +:+ " - " +:+ url req) w)
    as (w1 & Hlog & Hj & _).
  rewrite Hlog in *. cbn [fst] in Hw. unfold write_calls in *.
  destruct (parseInt (query_id req)) as [[id|]|e|]; cbn;
    [|repeat split; try assumption; intros resp [= <-]; discriminate
     |repeat split; try assumption; discriminate
     |repeat split; try assumption; discriminate].
  destruct (deleteTodo_no_collection id w1 (no_collection_same _ _ Hj Hn))
    as (w2 & -> & Hj2 & Hw2).
  unfold write_calls in *. cbn. repeat split; try congruence.
  intros resp [= <-]; discriminate.
Qed.

(** X9: while [todos.json] is missing, is not JSON or holds no array, no
    request creates or rewrites it (there is not even a call of
    [fs.writeFile]), and no request other than a GET is answered 200. *)
Theorem no_collection_is_never_written req w :
  no_collection w ->
  todos_json (fst (server req w)) = todos_json w /\
  write_calls (fst (server req w)) = write_calls w /\
  (method req <> "GET" ->
   forall resp, snd (server req w) = Normal resp -> statusCode resp <> 200%Z).
Proof.
  intros Hn.
  destruct (String.eqb_spec (method req) "GET") as [Hg|Hg].
  - split; [|split; [|intros H; now destruct H]].
    + apply (get_routes_frame todos_json req Hg); auto with frame.
    + apply (get_routes_frame write_calls req Hg); auto with frame.
  - unfold server. apply String.eqb_neq in Hg. rewrite Hg, !andb_false_r.
    destruct (String.eqb (url req) "/todos" && String.eqb (method req) "POST").
    { destruct (post_todo_no_collection req w Hn) as (H1 & H2 & H3). auto. }
    destruct (startsWith (url req) "/todos/" && String.eqb (method req) "PUT").
    { destruct (put_todo_no_collection req w Hn) as (H1 & H2 & H3). auto. }
    destruct (startsWith (url req) "/todos/" && String.eqb (method req) "DELETE").
    { destruct (delete_todo_no_collection req w Hn) as (H1 & H2 & H3). auto. }
    cbn. repeat split. intros _ resp [= <-]. discriminate.
Qed.

Lemma no_collection_is_never_written_witness :
  todos_json (fst (server post_t (fresh_world None))) = None /\
  write_calls (fst (server post_t (fresh_world None))) = [] /\
  (method post_t <> "GET" ->
   forall resp, snd (server post_t (fresh_world None)) = Normal resp ->
                statusCode resp <> 200%Z).
Proof.
  apply (no_collection_is_never_written post_t (fresh_world None)).
  left. reflexivity.
Defined.

Lemma updateTodo_not_found w todos id updates :
  stored w todos ->
  array_findIndex (has_id id) todos = Normal None ->
  updateTodo id updates w
  = (add_fs_call (ReadFile "todos.json") w, Throw (new_Error "Error updating todo:")).
Proof.
  intros Hs Hi. unfold updateTodo, try_catch, bind.
  rewrite (readTodos_stored _ _ Hs). unfold lift, array_of. rewrite Hi.
  reflexivity.
Qed.

(** X10: a PUT with a title for an id that no stored todo has is answered
    404 with the body {"error":"Error updating todo:"} (the message of the
    error that [updateTodo] rethrows, not "Todo id not found"); nothing is
    written. *)
Theorem put_missing_id_is_404 req w todos id updates title :
  startsWith (url req) "/todos/" = true -> method req = "PUT" ->
  parseInt (query_id req) = Normal (Some id) ->
  JSON.parse (body req) = Normal updates ->
  get_prop updates "title" = Normal title -> truthy title = true ->
  stored w todos ->
  array_findIndex (has_id id) todos = Normal None ->
  exists w',
    server req w
    = (w', Normal (Response 404 None (js "{'error':'Error updating todo:'}"))) /\
    todos_json w' = todos_json w /\ write_calls w' = write_calls w.
Proof.
  intros Hu Hm Hq Hp Ht Htr Hs Hi. rewrite (server_put_todo _ Hu Hm).
  pose proof (logs_emit_write_calls (method req +:+ " - " +:+ url req) w) as Hw.
  unfold put_todo, bind, try_catch, lift.
  destruct (logs_emit_spec (method req +:+ " - " +:+ url req) w)
    as (w1 & Hlog & Hj & _).
  rewrite Hlog in *. cbn [fst] in Hw. rewrite Hq, Hp, Ht, Htr. cbn [negb].
  rewrite (updateTodo_not_found w1 todos id updates (stored_same _ _ _ Hj Hs) Hi).
  eexists. split; [reflexivity|]. split; [exact Hj|].
  change (write_calls (add_fs_call (ReadFile "todos.json") w1) = write_calls w).
  rewrite write_calls_add by reflexivity. exact Hw.
Qed.

Lemma put_missing_id_is_404_witness :
  exists w',
    server (Request "PUT" "/todos/?id=9" (JStr "9") (js "{'title':'t'}"))
      (fresh_world (Some "[]"))
    = (w', Normal (Response 404 None (js "{'error':'Error updating todo:'}"))) /\
    todos_json w' = Some "[]" /\ write_calls w' = [].
Proof.
  apply (put_missing_id_is_404
           (Request "PUT" "/todos/?id=9" (JStr "9") (js "{'title':'t'}"))
           (fresh_world (Some "[]")) [] 9 (JObj [("title", JStr "t")]) (JStr "t"));
    try reflexivity.
  eexists. split; reflexivity.
Defined.

(** ** How the operations compose *)

Lemma last_None_nil {A} (l : list A) : last l = None -> l = [].
Proof.
  destruct l as [|a l]; [reflexivity|]. intros H. exfalso.
  revert a H. induction l as [|b l IH]; intros a H; [discriminate|].
  now apply (IH b).
Qed.

Lemma last_elem_of {A} (l : list A) x : last l = Some x -> x ∈ l.
Proof.
  induction l as [|a l IH]; [discriminate|].
  destruct l as [|b l]; [intros [= ->]; left | intros H; right; now apply IH].
Qed.

(** [createTodo] on a collection with ordered ids: the todo it makes, and
    the collection it saves. *)
Lemma createTodo_appends w todos ids newTodo title completed :
  stored w todos -> todo_ids todos = Some ids -> nondecreasing ids = true ->
  forallb (fun i => (i <? MAX_SAFE_INTEGER)%Z) ids = true ->
  todos_writable w = true ->
  get_prop newTodo "title" = Normal title -> json_value title = true ->
  get_prop newTodo "completed" = Normal completed ->
  completed = JUndefined \/ json_value completed = true ->
  let n := (default 0 (last ids) + 1)%Z in
  let todo := JObj [("id", JNum n); ("title", title);
                    ("completed", js_or completed (JBool false))] in
  exists w',
    createTodo newTodo w = (w', Normal todo) /\
    stored w' (todos ++ [todo]) /\
    todos_writable w' = true /\
    Forall (fun i => (i < n)%Z) ids.
Proof.
  intros Hs Hids Hnd Hbound Hw Ht Hjt Hc Hjc n todo.
  pose proof (stored_json_value _ _ Hs) as Hjs.
  assert (Hlast : Forall (fun i => (i < n)%Z) ids).
  { subst n. destruct (last ids) as [m|] eqn:El.
    - eapply Forall_impl; [exact (nondecreasing_last _ _ Hnd El)|].
      intros i Hi. simpl in *. lia.
    - rewrite (last_None_nil _ El). constructor. }
  assert (Hadd : js_add_one (JNum (default 0%Z (last ids))) = Normal (JNum n) /\
                 exact_integer n = true).
  { subst n. apply js_add_one_below;
      (destruct (last ids) as [m|] eqn:El; simpl;
       [|reflexivity || (unfold MAX_SAFE_INTEGER; lia)]);
      pose proof (last_elem_of _ _ El) as Hin.
    - pose proof (json_value_todo_ids _ _ Hjs Hids) as Hall.
      rewrite Forall_forall in Hall. exact (Hall _ Hin).
    - rewrite forallb_forall in Hbound. apply list_elem_of_In in Hin.
      specialize (Hbound _ Hin). apply Z.ltb_lt in Hbound. lia. }
  destruct Hadd as [Hadd Hsafe].
  destruct (createTodo_ok w todos newTodo (JNum (default 0%Z (last ids))) (JNum n)
              title completed Hs (todo_ids_last _ _ Hids))
    as (data & Hdata & Hrun); auto.
  eexists. split; [exact Hrun|]. split; [|split; [exact Hw | exact Hlast]].
  eapply stored_after_save; [| exact Hdata | reflexivity].
  apply json_value_app; [exact Hjs|].
  simpl. rewrite Hsafe, Hjt, (js_or_json_value _ Hjc). reflexivity.
Qed.

Lemma array_find_app_last id todos ids todo :
  todo_ids todos = Some ids -> Forall (fun i => i <> id) ids ->
  has_id id todo = Normal true ->
  array_find (has_id id) (todos ++ [todo]) = Normal todo /\
  array_findIndex (has_id id) (todos ++ [todo]) = Normal (Some (length todos)).
Proof.
  revert ids. induction todos as [|y todos IH]; intros ids Hids Hne Ht; simpl.
  - rewrite Ht. auto.
  - simpl in Hids. destruct (todo_id y) as [m|] eqn:Hy; [|discriminate].
    destruct (todo_ids todos) as [ms|] eqn:Hr; [|discriminate].
    injection Hids as <-. inversion Hne as [|? ? Hm Hms]; subst.
    rewrite (todo_id_has_id id y m Hy).
    apply Z.eqb_neq in Hm. rewrite Hm. cbn [cbind].
    destruct (IH ms eq_refl Hms Ht) as [-> ->]. auto.
Qed.

Lemma Forall_lt_ne (ids : list Z) n :
  Forall (fun i => (i < n)%Z) ids -> Forall (fun i => i <> n) ids.
Proof.
  intros H. eapply Forall_impl; [exact H|]. intros i Hi. simpl in Hi. lia.
Qed.

(** X11: what [createTodo] returns, [getTodoById] finds: on a collection
    whose ids do not decrease, the todo that was created is the one that
    the id it was given addresses. *)
Theorem create_then_get w todos ids newTodo title completed :
  stored w todos -> todo_ids todos = Some ids -> nondecreasing ids = true ->
  forallb (fun i => (i <? MAX_SAFE_INTEGER)%Z) ids = true ->
  todos_writable w = true ->
  get_prop newTodo "title" = Normal title -> json_value title = true ->
  get_prop newTodo "completed" = Normal completed ->
  completed = JUndefined \/ json_value completed = true ->
  exists w' todo n w'',
    createTodo newTodo w = (w', Normal todo) /\
    get_prop todo "id" = Normal (JNum n) /\
    getTodoById n w' = (w'', Normal todo).
Proof.
  intros Hs Hids Hnd Hbound Hw Ht Hjt Hc Hjc.
  destruct (createTodo_appends w todos ids newTodo title completed)
    as (w' & Hrun & Hs' & _ & Hlt); auto.
  cbv zeta in *. set (n := (default 0 (last ids) + 1)%Z) in *.
  eexists w', _, n, _. split; [exact Hrun|]. split; [reflexivity|].
  unfold getTodoById, bind, lift. rewrite (readTodos_stored _ _ Hs').
  cbn [array_of].
  destruct (array_find_app_last n todos ids
              (JObj [("id", JNum n); ("title", title);
                     ("completed", js_or completed (JBool false))])
              Hids (Forall_lt_ne _ _ Hlt)) as [-> _].
  { cbn. now rewrite Z.eqb_refl. }
  reflexivity.
Qed.

Lemma create_then_get_witness :
  exists w' todo n w'',
    createTodo (JObj [("title", JStr "b")])
      (fresh_world (Some (js "[{'id':4,'title':'a'}]")))
    = (w', Normal todo) /\
    get_prop todo "id" = Normal (JNum n) /\
    getTodoById n w' = (w'', Normal todo).
Proof.
  apply (create_then_get
           (fresh_world (Some (js "[{'id':4,'title':'a'}]")))
           [JObj [("id", JNum 4); ("title", JStr "a")]] [4%Z]
           (JObj [("title", JStr "b")]) (JStr "b") JUndefined);
    try reflexivity; auto.
  eexists. split; reflexivity.
Defined.

Lemma delete_app_last {A} (l : list A) x : delete (length l) (l ++ [x]) = l.
Proof. induction l as [|a l IH]; simpl; [reflexivity | now rewrite IH]. Qed.

Lemma lookup_app_last {A} (l : list A) x : (l ++ [x]) !! length l = Some x.
Proof. induction l as [|a l IH]; simpl; [reflexivity | exact IH]. Qed.

(** X12: on a stored collection whose ids do not decrease and are all
    below [MAX_SAFE_INTEGER], deleting the todo that [createTodo] has just
    returned undoes the creation: [deleteTodo] returns that todo and saves
    the collection that was stored before. *)
Theorem create_then_delete w todos ids newTodo title completed :
  stored w todos -> todo_ids todos = Some ids -> nondecreasing ids = true ->
  forallb (fun i => (i <? MAX_SAFE_INTEGER)%Z) ids = true ->
  todos_writable w = true ->
  get_prop newTodo "title" = Normal title -> json_value title = true ->
  get_prop newTodo "completed" = Normal completed ->
  completed = JUndefined \/ json_value completed = true ->
  exists w' todo n w'',
    createTodo newTodo w = (w', Normal todo) /\
    get_prop todo "id" = Normal (JNum n) /\
    deleteTodo n w' = (w'', Normal todo) /\
    stored w'' todos.
Proof.
  intros Hs Hids Hnd Hbound Hw Ht Hjt Hc Hjc.
  destruct (createTodo_appends w todos ids newTodo title completed)
    as (w' & Hrun & Hs' & Hw' & Hlt); auto.
  cbv zeta in *. set (n := (default 0 (last ids) + 1)%Z) in *.
  set (todo := JObj [("id", JNum n); ("title", title);
                     ("completed", js_or completed (JBool false))]) in *.
  destruct (array_find_app_last n todos ids todo Hids (Forall_lt_ne _ _ Hlt))
    as [_ Hi].
  { cbn. now rewrite Z.eqb_refl. }
  destruct (deleteTodo_ok w' (todos ++ [todo]) n (length todos) Hs' Hi Hw')
    as (data & Hdata & Hdel).
  rewrite delete_app_last in Hdata. rewrite lookup_app_last in Hdel.
  eexists w', todo, n, _. split; [exact Hrun|]. split; [reflexivity|].
  split; [exact Hdel|].
  eapply stored_after_save; [| exact Hdata | reflexivity].
  exact (stored_json_value _ _ Hs).
Qed.

Lemma create_then_delete_witness :
  exists w' todo n w'',
    createTodo (JObj [("title", JStr "b")])
      (fresh_world (Some (js "[{'id':4,'title':'a'}]")))
    = (w', Normal todo) /\
    get_prop todo "id" = Normal (JNum n) /\
    deleteTodo n w' = (w'', Normal todo) /\
    stored w'' [JObj [("id", JNum 4); ("title", JStr "a")]].
Proof.
  apply (create_then_delete
           (fresh_world (Some (js "[{'id':4,'title':'a'}]")))
           [JObj [("id", JNum 4); ("title", JStr "a")]] [4%Z]
           (JObj [("title", JStr "b")]) (JStr "b") JUndefined);
    try reflexivity; auto.
  eexists. split; reflexivity.
Defined.

(** [updateTodo] on a todo that is found: the merged todo, which keeps the
    id unless the updates change it, and the collection that is saved. *)
Lemma updateTodo_merges w todos id index updates :
  stored w todos ->
  array_findIndex (has_id id) todos = Normal (Some index) ->
  json_value (JObj updates) = true ->
  todos_writable w = true ->
  exists w' old merged,
    todos !! index = Some (JObj old) /\
    assoc_get "id" old = Some (JNum id) /\
    object_from (old ++ updates) = JObj merged /\
    json_value (JObj merged) = true /\
    updateTodo id (JObj updates) w = (w', Normal (JObj merged)) /\
    stored w' (<[index := JObj merged]> todos) /\
    todos_writable w' = true.
Proof.
  intros Hs Hi Hju Hw.
  destruct (array_findIndex_Some _ _ _ Hi) as (x & Hx & Hid).
  destruct (has_id_true _ _ Hid) as (old & -> & Hold).
  pose proof (stored_json_value _ _ Hs) as Hjs. simpl in Hjs.
  pose proof (json_value_lookup _ _ _ Hjs Hx) as Hjo.
  destruct (json_value_members _ Hjo) as [Hdo Hmo].
  destruct (json_value_members _ Hju) as [Hdu Hmu].
  destruct (updateTodo_ok w todos id (JObj updates) index old updates Hs Hi)
    as (data & Hdata & Hrun); auto.
  { now rewrite Hx. }
  cbv zeta in Hdata, Hrun.
  assert (Hjm : json_value (object_from (old ++ updates)) = true).
  { apply object_from_json_value. rewrite forallb_app, Hmo, Hmu. reflexivity. }
  destruct (object_from (old ++ updates)) as [| |b|n| |s|l|merged] eqn:Em;
    try discriminate Em.
  eexists _, old, merged. repeat (split; [eassumption || reflexivity|]).
  split; [|exact Hw].
  eapply stored_after_save; [| exact Hdata | reflexivity].
  simpl. apply json_value_insert; [exact Hjs | exact Hjm].
Qed.

Lemma array_find_insert f l i x :
  array_findIndex f l = Normal (Some i) -> f x = Normal true ->
  array_find f (<[i := x]> l) = Normal x /\
  array_findIndex f (<[i := x]> l) = Normal (Some i).
Proof.
  intros Hi Hx. revert i Hi. induction l as [|y l IH]; intros i; simpl;
    [discriminate|].
  destruct (f y) as [[|]|e|] eqn:Hy; cbn [cbind]; try discriminate.
  - intros [= <-]. simpl. rewrite Hx. auto.
  - destruct (array_findIndex f l) as [[j|]|e|]; cbn; try discriminate.
    intros [= <-]. simpl. rewrite Hy. cbn [cbind].
    destruct (IH j eq_refl) as [-> ->]. auto.
Qed.

(** The updates leave the id alone: they have no [id], or the id that is
    addressed. *)
Lemma merged_keeps_id id old updates merged :
  distinct (map fst old) = true -> distinct (map fst updates) = true ->
  assoc_get "id" old = Some (JNum id) ->
  assoc_get "id" updates = None \/ assoc_get "id" updates = Some (JNum id) ->
  object_from (old ++ updates) = JObj merged ->
  has_id id (JObj merged) = Normal true.
Proof.
  intros Hdo Hdu Hold Hup Em. unfold has_id. cbn [get_prop cbind].
  rewrite (object_from_merge "id" old updates merged Hdo Hdu Em).
  destruct Hup as [-> | ->]; [rewrite Hold|]; cbn; now rewrite Z.eqb_refl.
Qed.

(** X13: what [updateTodo] returns, [getTodoById] finds, when the updates
    leave the id alone: the merged todo is the first one with the id also in
    the collection that was saved. *)
Theorem update_then_get w todos id index updates :
  stored w todos ->
  array_findIndex (has_id id) todos = Normal (Some index) ->
  json_value (JObj updates) = true ->
  assoc_get "id" updates = None \/ assoc_get "id" updates = Some (JNum id) ->
  todos_writable w = true ->
  exists w' merged w'',
    updateTodo id (JObj updates) w = (w', Normal merged) /\
    getTodoById id w' = (w'', Normal merged).
Proof.
  intros Hs Hi Hju Hup Hw.
  destruct (updateTodo_merges w todos id index updates Hs Hi Hju Hw)
    as (w' & old & merged & Hx & Hold & Em & Hjm & Hrun & Hs' & _).
  pose proof (stored_json_value _ _ Hs) as Hjs. simpl in Hjs.
  destruct (json_value_members _ (json_value_lookup _ _ _ Hjs Hx)) as [Hdo _].
  destruct (json_value_members _ Hju) as [Hdu _].
  pose proof (merged_keeps_id id old updates merged Hdo Hdu Hold Hup Em) as Hid.
  destruct (array_find_insert _ _ _ _ Hi Hid) as [Hfind _].
  eexists w', (JObj merged), _. split; [exact Hrun|].
  unfold getTodoById, bind, lift. rewrite (readTodos_stored _ _ Hs').
  cbn [array_of]. rewrite Hfind. reflexivity.
Qed.

Lemma update_then_get_witness :
  exists w' merged w'',
    updateTodo 1 (JObj [("title", JStr "b")])
      (fresh_world (Some (js "[{'id':1,'title':'a'}]")))
    = (w', Normal merged) /\
    getTodoById 1 w' = (w'', Normal merged).
Proof.
  apply (update_then_get
           (fresh_world (Some (js "[{'id':1,'title':'a'}]")))
           [JObj [("id", JNum 1); ("title", JStr "a")]] 1 0 [("title", JStr "b")]);
    try reflexivity; auto.
  eexists. split; reflexivity.
Defined.

Lemma assoc_set_same k x props :
  assoc_get k props = Some x -> assoc_set k x props = props.
Proof.
  induction props as [|[k' x'] props IH]; simpl; [discriminate|].
  destruct (String.eqb_spec k k') as [->|Hne].
  - now intros [= ->].
  - intros H. now rewrite IH.
Qed.

Lemma fold_assoc_set_distinct entries acc :
  distinct (map fst acc) = true ->
  distinct (map fst (fold_left (fun acc kx => assoc_set (fst kx) (snd kx) acc)
                       entries acc)) = true.
Proof.
  revert acc. induction entries as [|[k x] entries IH]; intros acc H; simpl;
    [exact H|].
  apply IH. now apply distinct_assoc_set.
Qed.

(** An object with distinct names is built from its own properties. *)
Lemma fold_assoc_set_self props acc :
  distinct (map fst (acc ++ props)) = true ->
  fold_left (fun acc kx => assoc_set (fst kx) (snd kx) acc) props acc
  = acc ++ props.
Proof.
  revert acc. induction props as [|[k x] props IH]; intros acc H; simpl.
  - now rewrite app_nil_r.
  - assert (Hk : existsb (String.eqb k) (map fst acc) = false).
    { clear IH. induction acc as [|[k' x'] acc IHa]; [reflexivity|].
      simpl in H. apply andb_true_iff in H as [H1 H2].
      simpl. rewrite (IHa H2), orb_false_r.
      rewrite map_app, existsb_app in H1. simpl in H1.
      apply negb_true_iff in H1. apply orb_false_iff in H1 as [_ H1].
      apply orb_false_iff in H1 as [H1 _].
      rewrite String.eqb_sym. exact H1. }
    rewrite (assoc_set_fresh _ _ _ Hk).
    rewrite IH; rewrite <- app_assoc; [reflexivity | exact H].
Qed.

Lemma assoc_get_In k x props :
  distinct (map fst props) = true -> In (k, x) props -> assoc_get k props = Some x.
Proof.
  induction props as [|[k' x'] props IH]; simpl; intros Hd Hin; [contradiction|].
  apply andb_true_iff in Hd as [H1 H2].
  destruct Hin as [[= -> ->] | Hin].
  - now rewrite String.eqb_refl.
  - destruct (String.eqb_spec k k') as [->|Hne]; [|now apply IH].
    exfalso. apply negb_true_iff in H1.
    assert (Hex : existsb (String.eqb k') (map fst props) = true).
    { apply existsb_exists. exists k'. split; [|apply String.eqb_refl].
      apply in_map_iff. exists (k', x). auto. }
    congruence.
Qed.

(** Merging the same updates into the merged object changes nothing. *)
Lemma object_from_again old updates merged :
  distinct (map fst old) = true -> distinct (map fst updates) = true ->
  object_from (old ++ updates) = JObj merged ->
  object_from (merged ++ updates) = JObj merged.
Proof.
  intros Hdo Hdu Em.
  assert (Hdm : distinct (map fst merged) = true).
  { unfold object_from in Em. injection Em as <-.
    now apply fold_assoc_set_distinct. }
  unfold object_from. rewrite fold_left_app.
  rewrite (fold_assoc_set_self merged []) by exact Hdm. cbn [app]. f_equal.
  assert (H : forall entries,
             (forall k x, In (k, x) entries -> assoc_get k merged = Some x) ->
             fold_left (fun acc kx => assoc_set (fst kx) (snd kx) acc) entries merged
             = merged).
  { induction entries as [|[k x] entries IH]; intros Hin; simpl; [reflexivity|].
    rewrite assoc_set_same by (apply Hin; now left).
    apply IH. intros k' x' H'. apply Hin. now right. }
  apply H. intros k x Hin.
  rewrite (object_from_merge k old updates merged Hdo Hdu Em).
  now rewrite (assoc_get_In k x updates Hdu Hin).
Qed.

(** X14: [updateTodo] is idempotent when the updates leave the id alone:
    the same update, made again, returns the same todo and writes the same
    text to [todos.json]. *)
Theorem update_twice w todos id index updates :
  stored w todos ->
  array_findIndex (has_id id) todos = Normal (Some index) ->
  json_value (JObj updates) = true ->
  assoc_get "id" updates = None \/ assoc_get "id" updates = Some (JNum id) ->
  todos_writable w = true ->
  exists w' merged w'',
    updateTodo id (JObj updates) w = (w', Normal merged) /\
    updateTodo id (JObj updates) w' = (w'', Normal merged) /\
    todos_json w'' = todos_json w'.
Proof.
  intros Hs Hi Hju Hup Hw.
  destruct (updateTodo_merges w todos id index updates Hs Hi Hju Hw)
    as (w' & old & merged & Hx & Hold & Em & Hjm & Hrun & Hs' & Hw').
  pose proof (stored_json_value _ _ Hs) as Hjs. simpl in Hjs.
  destruct (json_value_members _ (json_value_lookup _ _ _ Hjs Hx)) as [Hdo _].
  destruct (json_value_members _ Hju) as [Hdu _].
  pose proof (merged_keeps_id id old updates merged Hdo Hdu Hold Hup Em) as Hid.
  destruct (array_find_insert _ _ _ _ Hi Hid) as [_ Hi'].
  assert (Hlt : (index < length todos)%nat) by (eapply lookup_lt_Some; eauto).
  destruct (updateTodo_ok w' (<[index := JObj merged]> todos) id (JObj updates)
              index merged updates Hs' Hi') as (data & Hdata & Hrun'); auto.
  { now rewrite list_lookup_insert_eq. }
  cbv zeta in Hdata, Hrun'.
  rewrite (object_from_again old updates merged Hdo Hdu Em) in Hdata, Hrun'.
  rewrite list_insert_insert_eq in Hdata.
  eexists w', (JObj merged), _. split; [exact Hrun|]. split; [exact Hrun'|].
  cbn [todos_json set_todos_json]. destruct Hs' as (content & Hc & Hp).
  rewrite Hc. f_equal.
  (* the text that was saved first is the text of the same collection *)
  destruct (updateTodo_inv w todos id (JObj updates) w' (Normal (JObj merged)) Hs Hrun)
    as [[_ Hno] | (index0 & old0 & new0 & data0 & Hi0 & Ho0 & Hn0 & Hd0 & Hj0)].
  { now destruct (Hno (JObj merged)). }
  rewrite Hi in Hi0. injection Hi0 as <-.
  rewrite Hx in Ho0. cbn in Ho0. injection Ho0 as <-. injection Hn0 as <-.
  rewrite Em in Hd0. congruence.
Qed.

Lemma update_twice_witness :
  exists w' merged w'',
    updateTodo 1 (JObj [("title", JStr "b")])
      (fresh_world (Some (js "[{'id':1,'title':'a'}]")))
    = (w', Normal merged) /\
    updateTodo 1 (JObj [("title", JStr "b")]) w' = (w'', Normal merged) /\
    todos_json w'' = todos_json w'.
Proof.
  apply (update_twice
           (fresh_world (Some (js "[{'id':1,'title':'a'}]")))
           [JObj [("id", JNum 1); ("title", JStr "a")]] 1 0 [("title", JStr "b")]);
    try reflexivity; auto.
  eexists. split; reflexivity.
Defined.





(** ** Ids in the query *)

Lemma radix_prefix_digit c k acc s :
  radix_digit 10 c = Some k ->
  radix_prefix 10 acc (String c s)
  = radix_prefix 10 (Some (default 0 acc * 10 + k)%Z) s.
Proof. intros H. simpl. now rewrite H. Qed.

Lemma radix_digit_no_digit c : is_digit c = false -> radix_digit 10 c = None.
Proof.
  destruct c as [[] [] [] [] [] [] [] []]; simpl; intros H;
    try discriminate H; reflexivity.
Qed.

Lemma radix_prefix_stop acc rest :
  match rest with String c _ => is_digit c = false | EmptyString => True end ->
  radix_prefix 10 acc rest = acc.
Proof.
  destruct rest as [|c r]; [reflexivity|]. intros H. simpl.
  now rewrite (radix_digit_no_digit c H).
Qed.

Lemma radix_prefix_pos d acc rest :
  match rest with String c _ => is_digit c = false | EmptyString => True end ->
  radix_prefix 10 (Some (Z.pos acc)) (NilEmpty.string_of_uint d +:+ rest)
  = Some (Z.pos (Pos.of_uint_acc d acc)).
Proof.
  intros Hr. revert acc.
  induction d as [|d IH|d IH|d IH|d IH|d IH|d IH|d IH|d IH|d IH|d IH];
    intros acc; simpl NilEmpty.string_of_uint;
    rewrite ?append_cons, ?append_empty_l;
    [now apply radix_prefix_stop|..];
    (erewrite radix_prefix_digit by reflexivity);
    cbn [default from_option id Pos.of_uint_acc];
    match goal with
    | |- radix_prefix _ (Some ?z) _ = Some (Z.pos (Pos.of_uint_acc _ ?p)) =>
        replace z with (Z.pos p) by (simpl; lia)
    end; apply IH.
Qed.

(** [parseInt] on a text that starts with a decimal digit other than 0, and
    on such a text after a minus sign *)
Lemma parseInt_digit c k s :
  radix_digit 10 c = Some (Z.pos k) ->
  parseInt (JStr (String c s))
  = match radix_prefix 10 (Some (Z.pos k)) s with
    | Some m => if exact_integer (1 * m) then Normal (Some (1 * m)%Z) else Unmodelled
    | None => Normal None
    end.
Proof.
  destruct c as [[] [] [] [] [] [] [] []]; intros H; vm_compute in H;
    try discriminate H; injection H as <-; reflexivity.
Qed.

Lemma parseInt_minus_digit c k s :
  radix_digit 10 c = Some (Z.pos k) ->
  parseInt (JStr (String "-" (String c s)))
  = match radix_prefix 10 (Some (Z.pos k)) s with
    | Some m => if exact_integer (-1 * m) then Normal (Some (-1 * m)%Z) else Unmodelled
    | None => Normal None
    end.
Proof.
  destruct c as [[] [] [] [] [] [] [] []]; intros H; vm_compute in H;
    try discriminate H; injection H as <-; reflexivity.
Qed.

Lemma parseInt_uint d rest :
  no_digit d = false -> leading_zero d = false -> Z.of_uint d <> 0%Z ->
  match rest with String c _ => is_digit c = false | EmptyString => True end ->
  (exact_integer (Z.of_uint d) = true ->
   parseInt (JStr (NilEmpty.string_of_uint d +:+ rest))
   = Normal (Some (Z.of_uint d))) /\
  (exact_integer (- Z.of_uint d) = true ->
   parseInt (JStr ("-" +:+ NilEmpty.string_of_uint d +:+ rest))
   = Normal (Some (- Z.of_uint d)%Z)).
Proof.
  intros H1 H2 Hnz Hr.
  destruct d as [|d|d|d|d|d|d|d|d|d|d];
    [ discriminate H1
    | destruct d; try discriminate H2; now destruct Hnz
    | .. ];
    simpl NilEmpty.string_of_uint; norm_append;
    (split; intros Hs;
     [ erewrite parseInt_digit by reflexivity
     | erewrite parseInt_minus_digit by reflexivity ];
     rewrite radix_prefix_pos by exact Hr;
     unfold Z.of_uint in *; cbn [Pos.of_uint Z.of_N] in *;
     rewrite ?Z.mul_1_l, ?(Z.mul_comm (-1)), <- ?Z.opp_eq_mul_m1;
     rewrite Hs; reflexivity).
Qed.

Lemma parseInt_number_to_string n rest :
  exact_integer n = true -> ends_integer n rest = true ->
  parseInt (JStr (number_to_string n +:+ rest)) = Normal (Some n).
Proof.
  intros Hn He.
  assert (Hr : match rest with
               | String c _ => is_digit c = false
               | EmptyString => True
               end).
  { destruct rest as [|c r]; [exact I|]. simpl in He.
    apply andb_true_iff in He as [He _]. now apply negb_true_iff in He. }
  unfold number_to_string. destruct n as [|p|p]; simpl Z.to_int;
    simpl NilZero.string_of_int.
  - norm_append. destruct rest as [|c r]; [reflexivity|].
    simpl in He. apply andb_true_iff in He as [_ He].
    destruct c as [[] [] [] [] [] [] [] []]; try discriminate He;
      try discriminate Hr; reflexivity.
  - destruct (pos_to_uint_shape p) as [H1 H2].
    rewrite (string_of_uint_nonnil _ H1).
    assert (Hz : Z.of_uint (Pos.to_uint p) = Z.pos p).
    { change (Z.of_int (Z.to_int (Z.pos p)) = Z.pos p). apply DecimalZ.of_to. }
    destruct (parseInt_uint (Pos.to_uint p) rest H1 H2) as [H _];
      [rewrite Hz; discriminate | exact Hr |].
    rewrite Hz in H. now apply H.
  - destruct (pos_to_uint_shape p) as [H1 H2].
    rewrite (string_of_uint_nonnil _ H1).
    assert (Hz : Z.of_uint (Pos.to_uint p) = Z.pos p).
    { change (Z.of_int (Z.to_int (Z.pos p)) = Z.pos p). apply DecimalZ.of_to. }
    destruct (parseInt_uint (Pos.to_uint p) rest H1 H2) as [_ H];
      [rewrite Hz; discriminate | exact Hr |].
    rewrite Hz in H. rewrite append_cons. norm_append.
    rewrite append_cons, append_empty_l in H. now apply H.
Qed.

(** The routes by id look at the query through [parseInt] only. *)
Lemma server_query req q w :
  by_id_route req -> parseInt q = parseInt (query_id req) ->
  server (with_query_id q req) w = server req w.
Proof.
  intros [Hu Hm] Hq.
  assert (Hu' : startsWith (url (with_query_id q req)) "/todos/" = true) by exact Hu.
  destruct Hm as [Hm | [Hm | Hm]];
    [ rewrite (server_get_todo _ Hu Hm), (server_get_todo _ Hu' Hm); unfold get_todo
    | rewrite (server_put_todo _ Hu Hm), (server_put_todo _ Hu' Hm); unfold put_todo
    | rewrite (server_delete_todo _ Hu Hm), (server_delete_todo _ Hu' Hm);
      unfold delete_todo ];
    cbn [with_query_id method url query_id body]; now rewrite Hq.
Qed.

(** X16: the decimal text of an integer in the [id] of the query addresses
    that integer, whatever follows the digits ([ends_integer]: no further
    digit, and no x after a 0): [parseInt] reads the integer back, and a GET,
    PUT or DELETE by id is answered as if the query held the digits alone.
    The id that a response prints, sent back in the query, is the id that
    the server looks for. *)
Theorem id_text_addresses_id n rest req w :
  safe_integer n = true -> ends_integer n rest = true ->
  by_id_route req -> query_id req = JStr (number_to_string n +:+ rest) ->
  parseInt (query_id req) = Normal (Some n) /\
  server req w = server (with_query_id (JStr (number_to_string n)) req) w.
Proof.
  intros Hn He Hr Hq. apply safe_exact in Hn.
  pose proof (parseInt_number_to_string n rest Hn He) as H. rewrite <- Hq in H.
  split; [exact H|]. symmetry. apply server_query; [exact Hr|].
  rewrite H. rewrite <- (append_empty_r (number_to_string n)).
  apply parseInt_number_to_string; [exact Hn | reflexivity].
Qed.

Lemma id_text_addresses_id_witness :
  parseInt (JStr "12abc") = Normal (Some 12%Z) /\
  server (Request "GET" "/todos/?id=12abc" (JStr "12abc") "") (fresh_world (Some "[]"))
  = server (with_query_id (JStr "12") (Request "GET" "/todos/?id=12abc" (JStr "12abc") ""))
      (fresh_world (Some "[]")).
Proof.
  apply (id_text_addresses_id 12 "abc"
           (Request "GET" "/todos/?id=12abc" (JStr "12abc") "")
           (fresh_world (Some "[]"))); try reflexivity.
  split; [reflexivity | auto].
Defined.

(** ** All or nothing *)

Lemma write_calls_write data w :
  write_calls (set_todos_json (Some data) (add_fs_call (WriteFile "todos.json" data) w))
  = write_calls w ++ [WriteFile "todos.json" data].
Proof. unfold write_calls. cbn. now rewrite List.filter_app. Qed.

Lemma readTodos_reads w :
  exists r,
    readTodos w = (fst (readTodos w), r) /\
    todos_json (fst (readTodos w)) = todos_json w /\
    todos_writable (fst (readTodos w)) = todos_writable w /\
    write_calls (fst (readTodos w)) = write_calls w.
Proof.
  exists (snd (readTodos w)). split; [now destruct (readTodos w)|].
  unfold readTodos, try_catch, bind, readFile_todos, lift, console_error, ret.
  cbn [add_fs_call todos_json].
  destruct (todos_json w) as [content|] eqn:E; [destruct (JSON.parse content)|];
    cbn; rewrite ?E; repeat split; apply (write_calls_add (ReadFile "todos.json") w);
    reflexivity.
Qed.

Lemma writeFile_todos_outcome data w w' r :
  writeFile_todos data w = (w', r) ->
  (exists text, data = Some text /\ todos_writable w = true /\ r = Normal tt /\
                todos_json w' = Some text /\
                write_calls w' = write_calls w ++ [WriteFile "todos.json" text]) \/
  ((forall u, r <> Normal u) /\ (todos_writable w = true -> w' = w)).
Proof.
  unfold writeFile_todos. intros H. destruct data as [text|].
  - cbn [add_fs_call todos_writable] in H.
    destruct (todos_writable w) eqn:Hw; inversion H; subst.
    + left. exists text. repeat split. apply write_calls_write.
    + right. split; [discriminate | discriminate].
  - inversion H; subst. right. split; [discriminate | reflexivity].
Qed.

(** What is left to show when a step before the write has failed *)
Ltac failed_before_write H :=
  inversion H; subst; right; split; [discriminate | intros _; split; reflexivity].

(** The end of a repository function: the write, and the todo returned *)
Lemma after_write data w0 w' r (todo : value) e0 :
  try_catch (writeFile_todos data ;; ret todo) (fun _ => throw e0) w0 = (w', r) ->
  all_or_nothing w0 w' r.
Proof.
  unfold try_catch, bind, ret, throw. intros H.
  destruct (writeFile_todos data w0) as [w1 r1] eqn:E.
  destruct (writeFile_todos_outcome _ _ _ _ E)
    as [(text & _ & Hw & -> & Hj & Hc) | (Hno & Hsame)].
  - inversion H; subst. left. eauto 10.
  - right. destruct r1 as [[]|e|]; [now destruct (Hno tt)|..];
      inversion H; subst; (split; [discriminate|]); intros Hw;
      rewrite (Hsame Hw); auto.
Qed.

Lemma all_or_nothing_read w w' r :
  all_or_nothing (fst (readTodos w)) w' r -> all_or_nothing w w' r.
Proof.
  destruct (readTodos_reads w) as (r0 & _ & Hj & Hw & Hc).
  unfold all_or_nothing. now rewrite Hj, Hw, Hc.
Qed.

Lemma createTodo_outcome newTodo w w' r :
  createTodo newTodo w = (w', r) -> all_or_nothing w w' r.
Proof.
  intros H. apply all_or_nothing_read. unfold createTodo, try_catch, bind in H.
  destruct (readTodos_reads w) as (r0 & Hr & _).
  rewrite Hr in H. set (w0 := fst (readTodos w)) in *. clearbody w0. clear Hr.
  unfold lift, ret, throw in H.
  destruct r0 as [todos|e|]; [| failed_before_write H ..].
  destruct (array_of "push" todos) as [l|e|]; [| failed_before_write H ..].
  destruct (match last l with Some x => get_prop x "id" | None => Normal (JNum 0) end)
    as [lastId|e|]; [| failed_before_write H ..].
  destruct (js_add_one lastId) as [id|e|]; [| failed_before_write H ..].
  destruct (get_prop newTodo "title") as [title|e|]; [| failed_before_write H ..].
  destruct (get_prop newTodo "completed") as [completed|e|];
    [| failed_before_write H ..].
  eapply after_write. exact H.
Qed.

Lemma updateTodo_outcome id updates w w' r :
  updateTodo id updates w = (w', r) -> all_or_nothing w w' r.
Proof.
  intros H. apply all_or_nothing_read. unfold updateTodo, try_catch, bind in H.
  destruct (readTodos_reads w) as (r0 & Hr & _).
  rewrite Hr in H. set (w0 := fst (readTodos w)) in *. clearbody w0. clear Hr.
  unfold lift, ret, throw in H.
  destruct r0 as [todos|e|]; [| failed_before_write H ..].
  destruct (array_of "findIndex" todos) as [l|e|]; [| failed_before_write H ..].
  destruct (array_findIndex (has_id id) l) as [[index|]|e|];
    [| failed_before_write H ..].
  destruct (spread (default JUndefined (l !! index))) as [old|e|];
    [| failed_before_write H ..].
  destruct (spread updates) as [new|e|]; [| failed_before_write H ..].
  eapply after_write. exact H.
Qed.

Lemma deleteTodo_outcome id w w' r :
  deleteTodo id w = (w', r) -> all_or_nothing w w' r.
Proof.
  intros H. apply all_or_nothing_read. unfold deleteTodo, try_catch, bind in H.
  destruct (readTodos_reads w) as (r0 & Hr & _).
  rewrite Hr in H. set (w0 := fst (readTodos w)) in *. clearbody w0. clear Hr.
  unfold lift, ret, throw in H.
  destruct r0 as [todos|e|]; [| failed_before_write H ..].
  destruct (array_of "findIndex" todos) as [l|e|]; [| failed_before_write H ..].
  destruct (array_findIndex (has_id id) l) as [[index|]|e|];
    [| failed_before_write H ..].
  eapply after_write. exact H.
Qed.

Lemma logs_emit_keeps message w :
  exists w1,
    logs_emit message w = (w1, Normal tt) /\
    todos_json w1 = todos_json w /\ todos_writable w1 = todos_writable w /\
    write_calls w1 = write_calls w.
Proof.
  destruct (logs_emit_spec message w) as (w1 & Hlog & Hj & Hw & _).
  exists w1. repeat split; try assumption.
  pose proof (logs_emit_write_calls message w) as H. now rewrite Hlog in H.
Qed.

(** The answer of a handler that has not called the repository *)
Ltac nothing_written :=
  match goal with
  | H : _ = (_, Normal _) |- _ =>
      inversion H; subst; right;
      split; [left; discriminate | intros _; split; reflexivity]
  | H : _ = (_, Normal _) |- _ => discriminate H
  end.

(** The answer of a handler after the repository function has returned [r]:
    200 when it is a todo, another status when it is not *)
Ltac after_repository Hout H :=
  destruct Hout as [(todo & data & -> & Hw' & Hj & Hc) | (Hno & Hsame)];
  [ inversion H; subst; left;
    split; [reflexivity|]; split; [congruence|]; split; [exact Hw'|]; eauto
  | match type of H with
    | context [match ?r with _ => _ end] =>
        destruct r as [todo|e|]; [now destruct (Hno todo) | | discriminate H]
    end ].

Lemma post_todo_outcome req w w' resp :
  method req = "POST" -> post_todo req w = (w', Normal resp) ->
  written_iff_200 req w w' resp.
Proof.
  intros Hm H. unfold post_todo, bind, try_catch, lift in H.
  destruct (logs_emit_keeps (method req +:+ " - " +:+ url req) w)
    as (w1 & Hlog & Hj & Hw1 & Hc).
  rewrite Hlog in H. unfold written_iff_200.
  rewrite <- Hj, <- Hc, <- Hw1. clear Hlog Hj Hw1 Hc.
  unfold ret, console_error in H.
  destruct (JSON.parse (body req)) as [parsedBody|e|]; cbn in H; try nothing_written.
  destruct (get_prop parsedBody "title") as [title|e|]; cbn in H; try nothing_written.
  destruct (truthy title); cbn in H; try nothing_written.
  destruct (get_prop parsedBody "completed") as [completed|e|]; cbn in H;
    try nothing_written.
  destruct (createTodo _ w1) as [w2 r] eqn:E.
  pose proof (createTodo_outcome _ _ _ _ E) as Hout.
  after_repository Hout H.
  inversion H; subst. right. split; [left; discriminate | exact Hsame].
Qed.

Lemma put_todo_outcome req w w' resp :
  method req = "PUT" -> put_todo req w = (w', Normal resp) ->
  written_iff_200 req w w' resp.
Proof.
  intros Hm H. unfold put_todo, bind, try_catch, lift in H.
  destruct (logs_emit_keeps (method req +:+ " - " +:+ url req) w)
    as (w1 & Hlog & Hj & Hw1 & Hc).
  rewrite Hlog in H. unfold written_iff_200.
  rewrite <- Hj, <- Hc, <- Hw1. clear Hlog Hj Hw1 Hc.
  unfold ret, console_error in H.
  destruct (parseInt (query_id req)) as [[id|]|e|]; cbn in H; try nothing_written.
  destruct (JSON.parse (body req)) as [updates|e|]; cbn in H; try nothing_written.
  destruct (get_prop updates "title") as [title|e|]; cbn in H; try nothing_written.
  destruct (truthy title); cbn in H; try nothing_written.
  destruct (updateTodo id updates w1) as [w2 r] eqn:E.
  pose proof (updateTodo_outcome _ _ _ _ _ E) as Hout.
  after_repository Hout H.
  inversion H; subst. right. split; [left; discriminate | exact Hsame].
Qed.

Lemma delete_todo_outcome req w w' resp :
  method req = "DELETE" -> delete_todo req w = (w', Normal resp) ->
  written_iff_200 req w w' resp.
Proof.
  intros Hm H. unfold delete_todo, bind, try_catch, lift in H.
  destruct (logs_emit_keeps (method req +:+ " - " +:+ url req) w)
    as (w1 & Hlog & Hj & Hw1 & Hc).
  rewrite Hlog in H. unfold written_iff_200.
  rewrite <- Hj, <- Hc, <- Hw1. clear Hlog Hj Hw1 Hc.
  unfold ret, console_error in H.
  destruct (parseInt (query_id req)) as [[id|]|e|]; cbn in H; try nothing_written.
  destruct (deleteTodo id w1) as [w2 r] eqn:E.
  pose proof (deleteTodo_outcome _ _ _ _ E) as Hout.
  after_repository Hout H.
  destruct (includes (message e) "not found");
    inversion H; subst; right; (split; [left; discriminate | exact Hsame]).
Qed.

(** X17: all or nothing.  A POST, PUT or DELETE that is answered 200 has
    written [todos.json], once; a request with any other answer, like every
    GET, has written nothing and has not called [fs.writeFile] (as long as
    the file can be written at all: a write that fails is not answered
    200). *)
Theorem answer_tells_what_was_written req w w' resp :
  server req w = (w', Normal resp) -> written_iff_200 req w w' resp.
Proof.
  intros H.
  destruct (String.eqb_spec (method req) "GET") as [Hg|Hg].
  - right. split; [now right|]. intros _.
    pose proof (get_routes_frame todos_json req Hg) as Hj.
    pose proof (get_routes_frame write_calls req Hg) as Hc.
    specialize (Hj readFile_todos_store console_error_store logs_emit_store w).
    specialize (Hc readFile_todos_writes console_error_writes logs_emit_writes w).
    rewrite H in Hj, Hc. auto.
  - unfold server in H. apply String.eqb_neq in Hg as Hg'. rewrite Hg' in H.
    destruct (String.eqb_spec (method req) "POST"),
             (String.eqb_spec (method req) "PUT"),
             (String.eqb_spec (method req) "DELETE"); try congruence;
      destruct (String.eqb (url req) "/todos"), (startsWith (url req) "/todos/");
      cbn [andb] in H;
      first [ now apply post_todo_outcome | now apply put_todo_outcome
            | now apply delete_todo_outcome
            | inversion H; subst; right; split; [left; discriminate | auto] ].
Qed.

Lemma answer_tells_what_was_written_witness :
  written_iff_200 post_t (fresh_world (Some "[]"))
    (fst (server post_t (fresh_world (Some "[]"))))
    (Response 200 application_json (js "{'id':1,'title':'t','completed':false}")).
Proof.
  apply (answer_tells_what_was_written post_t (fresh_world (Some "[]"))).
  vm_compute. reflexivity.
Defined.

(** ** A last todo without an id *)

(** [JSON.stringify] writes a JSON value as it is. *)
Lemma to_json_id v : json_value v = true -> to_json v = v.
Proof.
  induction v as [| |b|n| |s|l IH|props IH] using value_ind; simpl; intros H;
    try discriminate; auto.
  - f_equal. induction IH as [|x l Hx _ IHl]; simpl in *; [reflexivity|].
    apply andb_true_iff in H as [H1 H2]. now rewrite Hx, IHl.
  - f_equal. apply andb_true_iff in H as [_ H].
    induction IH as [|[k x] props Hx _ IHl]; simpl in *; [reflexivity|].
    apply andb_true_iff in H as [H1 H2]. apply andb_true_iff in H1 as [_ H1].
    rewrite (Hx H1), (IHl H2). now destruct x.
Qed.

Lemma map_to_json_id l : forallb json_value l = true -> map to_json l = l.
Proof.
  intros H. pose proof (to_json_id (JArr l) H) as E. simpl in E. now injection E.
Qed.

(** X18: when the last stored todo has no [id], [createTodo] gives the new
    todo the id NaN, which is saved as [null]; the todo that is created next
    gets the id 1, whatever ids the collection holds. *)
Theorem create_after_missing_id w todos x newTodo title completed :
  stored w todos -> last todos = Some x ->
  get_prop x "id" = Normal JUndefined ->
  todos_writable w = true ->
  get_prop newTodo "title" = Normal title -> json_value title = true ->
  get_prop newTodo "completed" = Normal completed ->
  completed = JUndefined \/ json_value completed = true ->
  let todo id := JObj [("id", id); ("title", title);
                       ("completed", js_or completed (JBool false))] in
  exists w' w'',
    createTodo newTodo w = (w', Normal (todo JNaN)) /\
    stored w' (todos ++ [todo JNull]) /\
    createTodo newTodo w' = (w'', Normal (todo (JNum 1))).
Proof.
  intros Hs Hl Hx Hw Ht Hjt Hc Hjc todo.
  pose proof (stored_json_value _ _ Hs) as Hjs.
  pose proof (js_or_json_value _ Hjc) as Hjo.
  destruct (createTodo_ok w todos newTodo JUndefined JNaN title completed Hs)
    as (data & Hdata & Hrun); auto.
  { now rewrite Hl. }
  cbv zeta in Hdata, Hrun. fold (todo JNaN) in Hdata, Hrun.
  set (w' := set_todos_json (Some data)
               (add_fs_call (WriteFile "todos.json" data)
                  (add_fs_call (ReadFile "todos.json") w))) in *.
  assert (Hs' : stored w' (todos ++ [todo JNull])).
  { destruct (stringify_parse_stringify (JArr (todos ++ [todo JNaN])))
      as (data0 & Hd0 & Hp0 & _).
    - simpl. rewrite forallb_app. simpl in Hjs.
      pose proof (json_value_serializable (JArr todos) Hjs) as H. simpl in H.
      rewrite H. simpl.
      now rewrite (json_value_serializable _ Hjt), (json_value_serializable _ Hjo).
    - discriminate.
    - rewrite Hdata in Hd0. injection Hd0 as <-.
      exists data. split; [reflexivity|]. rewrite Hp0.
      simpl to_json. rewrite map_app, (map_to_json_id todos Hjs). unfold todo.
      cbn [map to_json flat_map snd fst is_undefined app].
      replace (is_undefined title) with false by (now destruct title).
      replace (is_undefined (js_or completed (JBool false))) with false
        by (now destruct (js_or completed (JBool false))).
      now rewrite (to_json_id _ Hjt), (to_json_id _ Hjo). }
  destruct (createTodo_ok w' (todos ++ [todo JNull]) newTodo JNull (JNum 1)
              title completed Hs') as (data' & Hdata' & Hrun'); auto.
  { now rewrite last_snoc. }
  eexists w', _. split; [exact Hrun|]. split; [exact Hs' | exact Hrun'].
Qed.

Lemma create_after_missing_id_witness :
  exists w' w'',
    createTodo (JObj [("title", JStr "b")])
      (fresh_world (Some (js "[{'id':7,'title':'a'},{'title':'x'}]")))
    = (w', Normal (JObj [("id", JNaN); ("title", JStr "b");
                         ("completed", JBool false)])) /\
    stored w' ([JObj [("id", JNum 7); ("title", JStr "a")];
                JObj [("title", JStr "x")]]
               ++ [JObj [("id", JNull); ("title", JStr "b");
                         ("completed", JBool false)]]) /\
    createTodo (JObj [("title", JStr "b")]) w'
    = (w'', Normal (JObj [("id", JNum 1); ("title", JStr "b");
                          ("completed", JBool false)])).
Proof.
  apply (create_after_missing_id
           (fresh_world (Some (js "[{'id':7,'title':'a'},{'title':'x'}]")))
           [JObj [("id", JNum 7); ("title", JStr "a")]; JObj [("title", JStr "x")]]
           (JObj [("title", JStr "x")])
           (JObj [("title", JStr "b")]) (JStr "b") JUndefined);
    try reflexivity; auto.
  eexists. split; reflexivity.
Defined.

(** ** Answers of PUT and DELETE *)



(** X20: a DELETE for an id that a stored todo has is answered 200 with
    the text of the first todo with that id, and the collection that is
    saved is the stored one without that entry. *)
Theorem delete_answers_removed req w todos id index :
  startsWith (url req) "/todos/" = true -> method req = "DELETE" ->
  parseInt (query_id req) = Normal (Some id) ->
  stored w todos ->
  array_findIndex (has_id id) todos = Normal (Some index) ->
  todos_writable w = true ->
  exists w' removed text,
    todos !! index = Some removed /\
    server req w = (w', Normal (Response 200 application_json text)) /\
    JSON.stringify removed = Some text /\
    JSON.parse text = Normal removed /\
    stored w' (delete index todos).
Proof.
  intros Hu Hm Hq Hs Hi Hw. rewrite (server_delete_todo _ Hu Hm).
  unfold delete_todo, bind, try_catch, lift.
  destruct (logs_emit_spec (method req +:+ " - " +:+ url req) w)
    as (w1 & -> & Hj & Hw1 & _).
  rewrite Hq.
  destruct (deleteTodo_ok w1 todos id index (stored_same _ _ _ Hj Hs) Hi)
    as (data & Hdata & Hrun); [now rewrite Hw1|].
  rewrite Hrun. cbn [ret].
  destruct (array_findIndex_Some _ _ _ Hi) as (removed & Hx & _).
  rewrite Hx. change (default JUndefined (Some removed)) with removed.
  pose proof (stored_json_value _ _ Hs) as Hjs. simpl in Hjs.
  destruct (stringify_parse _ (json_value_lookup _ _ _ Hjs Hx)) as (text & Hst & Hpt).
  rewrite Hst. eexists _, removed, text.
  split; [reflexivity|]. split; [reflexivity|]. split; [exact Hst|].
  split; [exact Hpt|].
  eapply stored_after_save; [| exact Hdata | reflexivity].
  simpl. now apply json_value_delete.
Qed.

Lemma delete_answers_removed_witness :
  exists w' removed text,
    [JObj [("id", JNum 1); ("title", JStr "a")];
     JObj [("id", JNum 2); ("title", JStr "b")]] !! 0 = Some removed /\
    server (Request "DELETE" "/todos/?id=1" (JStr "1") "")
      (fresh_world (Some (js "[{'id':1,'title':'a'},{'id':2,'title':'b'}]")))
    = (w', Normal (Response 200 application_json text)) /\
    JSON.stringify removed = Some text /\
    JSON.parse text = Normal removed /\
    stored w' (delete 0 [JObj [("id", JNum 1); ("title", JStr "a")];
                         JObj [("id", JNum 2); ("title", JStr "b")]]).
Proof.
  apply (delete_answers_removed
           (Request "DELETE" "/todos/?id=1" (JStr "1") "")
           (fresh_world (Some (js "[{'id':1,'title':'a'},{'id':2,'title':'b'}]")))
           [JObj [("id", JNum 1); ("title", JStr "a")];
            JObj [("id", JNum 2); ("title", JStr "b")]] 1 0);
    try reflexivity.
  eexists. split; reflexivity.
Defined.

(** ** What stays true of the file *)

(** X21: the server does not spoil its file.  When [todos.json] holds an
    array before a request, it holds an array after it; and whenever a
    request changes the file, what the file holds afterwards is an array. *)
Theorem collection_stays_loadable req w w' r :
  server req w = (w', r) ->
  ((exists todos, stored w todos) -> exists todos', stored w' todos') /\
  (todos_json w' <> todos_json w -> exists todos', stored w' todos').
Proof.
  intros H.
  assert (Hs : todos_json w' = todos_json w \/ exists todos', stored w' todos').
  { destruct (server_saved _ _ _ _ H) as [E | (l & Hl & E)]; [now left | right].
    destruct (stringify_parse_stringify (JArr l) Hl) as (data & Hd & Hp & _);
      [discriminate|].
    exists (map to_json l), data. rewrite E. auto. }
  split.
  - intros (todos & Hst). destruct Hs as [E | Hs]; [|exact Hs].
    exists todos. exact (stored_same _ _ _ E Hst).
  - intros Hne. destruct Hs as [E | Hs]; [now destruct Hne | exact Hs].
Qed.

Lemma collection_stays_loadable_witness :
  exists todos', stored (fst (server post_t (fresh_world (Some "[]")))) todos'.
Proof.
  apply (proj1 (collection_stays_loadable post_t (fresh_world (Some "[]"))
                  (fst (server post_t (fresh_world (Some "[]"))))
                  (snd (server post_t (fresh_world (Some "[]"))))
                  (surjective_pairing _))).
  exists []. eexists. split; reflexivity.
Defined.

(** X22: a POST reads the title and [completed] of its body and nothing
    else: two POSTs on /todos whose bodies agree on these two fields are
    answered alike and leave the same world, whatever other fields (an [id]
    among them) the bodies carry. *)
Theorem post_reads_title_and_completed req1 req2 body1 body2 w :
  method req1 = "POST" -> url req1 = "/todos" ->
  method req2 = "POST" -> url req2 = "/todos" ->
  JSON.parse (body req1) = Normal body1 ->
  JSON.parse (body req2) = Normal body2 ->
  get_prop body1 "title" = get_prop body2 "title" ->
  get_prop body1 "completed" = get_prop body2 "completed" ->
  server req1 w = server req2 w.
Proof.
  intros Hm1 Hu1 Hm2 Hu2 Hp1 Hp2 Ht Hc.
  rewrite (server_post_todo _ Hu1 Hm1), (server_post_todo _ Hu2 Hm2).
  unfold post_todo, bind, try_catch, lift.
  rewrite Hm1, Hu1, Hm2, Hu2, Hp1, Hp2, Ht, Hc. reflexivity.
Qed.

Lemma post_reads_title_and_completed_witness :
  server (Request "POST" "/todos" JUndefined (js "{'title':'t','id':99,'x':[1]}"))
    (fresh_world (Some "[]"))
  = server (Request "POST" "/todos" JUndefined (js "{'title':'t'}"))
      (fresh_world (Some "[]")).
Proof.
  apply (post_reads_title_and_completed
           (Request "POST" "/todos" JUndefined (js "{'title':'t','id':99,'x':[1]}"))
           (Request "POST" "/todos" JUndefined (js "{'title':'t'}"))
           (JObj [("title", JStr "t"); ("id", JNum 99); ("x", JArr [JNum 1])])
           (JObj [("title", JStr "t")])
           (fresh_world (Some "[]")));
    reflexivity.
Defined.
